(** * FrameCraftr: frame extraction and document assembly

    A shallow embedding of [youtube_screenshot_pdf.py]: interval
    timestamp generation, the duration probe and timestamp validation of
    [capture_screenshots], its per-timestamp retry loop with the two
    extraction strategies, the file naming scheme, [create_pdf], and the
    two drivers ([main] and the GUI worker) that connect them.

    Conventions of the model.
    - Python numbers that denote seconds, frame rates and positions are
      rationals ([Q]): the exact value of the [int] or [float];
      [int(x)] is truncation towards zero.  The sums and quotients that
      give a duration are taken exactly, their rounding is not modelled.
      The product of line 262 is truncated to a frame index, so there
      the rounding to binary64 decides the result and is modelled
      ([float_mul]).  Infinities and NaN are not values of the model:
      the outside world reports finite numbers, and the infinite product
      of line 262, on which [int] raises, is an exception.
    - The outside world (OpenCV, ffmpeg, FPDF, the operating system) is an
      oracle: a record of outcomes, one per call the program makes.  An
      outcome is a value or an exception.
    - The file system is a finite map from paths to the image and document
      files the program writes and deletes; it is threaded through the
      program.  Directories are not modelled: creating the scratch
      directory succeeds, and [os.rmdir] shows only as an event.  Paths
      follow the POSIX rules of [os.path].
    - Every function returns the events it causes, in order: the console
      messages the properties talk about, the calls to ffmpeg and OpenCV,
      and the sleeps.  Writing to the console never fails; formatting a
      message can: [timedelta(seconds=n)] raises [OverflowError] beyond
      999999999 days, and the message is then not printed. *)

From Stdlib Require Import QArith Qround Qabs ZArith List String Ascii Lia.
From stdpp Require Import gmap strings list pretty sorting.

Open Scope Z_scope.

(** ** Numbers *)

(** [int(x)] on a Python number: truncation towards zero. *)
Definition py_int (x : Q) : Z := Z.quot (Qnum x) (Z.pos (Qden x)).

(** [a <= b], [a < b] on numbers, as the interpreter evaluates them. *)
Definition num_le (a b : Q) : bool := Qle_bool a b.
Definition num_lt (a b : Q) : bool := negb (Qle_bool b a).

(** [max(l)] of a non-empty list; on the empty list Python raises
    [ValueError], here [None]. *)
Fixpoint py_max (l : list Q) : option Q :=
  match l with
  | [] => None
  | x :: l' =>
      match py_max l' with
      | None => Some x
      | Some m => Some (if num_lt x m then m else x)
      end
  end.

(** ** Binary floating point *)

(** The integer nearest to [x], the even one of two that are equally
    near. *)
Definition round_half_even (x : Q) : Z :=
  let q := Qnum x / Z.pos (Qden x) in
  let r := Qnum x mod Z.pos (Qden x) in
  match 2 * r ?= Z.pos (Qden x) with
  | Lt => q
  | Gt => q + 1
  | Eq => if Z.even q then q else q + 1
  end.

(** [2 ** e] for an integer [e] of either sign. *)
Definition pow2 (e : Z) : Q :=
  if 0 <=? e then inject_Z (2 ^ e) else (/ inject_Z (2 ^ (- e)))%Q.

(** [floor(log2(abs(x)))] for [x] other than 0. *)
Definition ilog2 (x : Q) : Z :=
  let k := Z.log2 (Z.abs (Qnum x)) - Z.log2 (Z.pos (Qden x)) in
  if Qle_bool (pow2 k) (Qabs x) then k else k - 1.

(** The binary64 number nearest to [x] (53 significant bits, exponents
    down to the subnormal [2 ** -1074], ties to even); [None] when that
    is beyond the largest finite one. *)
Definition b64 (x : Q) : option Q :=
  if Qeq_bool x 0 then Some 0%Q
  else
    let e := Z.max (ilog2 x - 52) (-1074) in
    let y := Qred (inject_Z (round_half_even (x / pow2 e)) * pow2 e) in
    if Qle_bool (pow2 1024) (Qabs y) then None else Some y.

(** [x * y] where one of the two is a [float]: both operands as binary64
    (a [float] is one already; an [int] is converted, which raises
    [OverflowError] when it is too large), and the product rounded to
    binary64.  [None] stands for that error and for an infinite product,
    on which [int] raises [OverflowError] as well. *)
Definition float_mul (x y : Q) : option Q :=
  match b64 x, b64 y with
  | Some a, Some b => b64 (a * b)
  | _, _ => None
  end.

(** ** [timedelta] *)

Definition MAX_DAYS : Z := 999999999.

(** [timedelta(seconds=n)] for an integer [n] is a duration of
    [n // 86400] days and the remaining seconds; it raises
    [OverflowError] unless the days have magnitude at most 999999999. *)
Definition timedelta_ok (seconds : Z) : bool :=
  (- MAX_DAYS <=? seconds / 86400) && (seconds / 86400 <=? MAX_DAYS).

(** [f"{timedelta(seconds=int(x))}"] can be evaluated. *)
Definition printable (x : Q) : bool := timedelta_ok (py_int x).

(** ** [range] and [generate_interval_timestamps] *)

(** Number of elements of [range(start, stop, step)], as CPython computes
    it. *)
Definition range_len (start stop step : Z) : Z :=
  if 0 <? step then
    if start <? stop then (stop - start - 1) / step + 1 else 0
  else if step <? 0 then
    if stop <? start then (start - stop - 1) / (- step) + 1 else 0
  else 0.

(** [list(range(start, stop, step))]; [None] is the [ValueError] of a zero
    step. *)
Definition py_range (start stop step : Z) : option (list Z) :=
  if step =? 0 then None
  else Some (List.map (fun k => start + Z.of_nat k * step)
                      (seq 0 (Z.to_nat (range_len start stop step)))).

(** [generate_interval_timestamps(duration, interval)]:
    [list(range(0, int(duration) + 1, interval))]. *)
Definition generate_interval_timestamps (duration : Q) (interval : Z)
  : option (list Z) :=
  py_range 0 (py_int duration + 1) interval.

(** ** [list.sort] on timestamps *)

Fixpoint sort_insert (x : Q) (l : list Q) : list Q :=
  match l with
  | [] => [x]
  | y :: l' => if num_le x y then x :: y :: l' else y :: sort_insert x l'
  end.

(** [timestamps.sort()]: a stable ascending sort. *)
Definition py_sort (l : list Q) : list Q := foldr sort_insert [] l.

(** ** Timestamp validation *)

(** [[t for t in timestamps if 0 <= t <= duration]] *)
Definition valid_timestamps (timestamps : list Q) (duration : Q) : list Q :=
  List.filter (fun t => num_le 0 t && num_le t duration) timestamps.

(** ** Paths and file names *)

Definition slash : ascii := "/"%char.

Fixpoint has_slash (p : string) : bool :=
  match p with
  | EmptyString => false
  | String c p' => if Ascii.eqb c slash then true else has_slash p'
  end.

Fixpoint ends_with_slash (p : string) : bool :=
  match p with
  | EmptyString => false
  | String c EmptyString => Ascii.eqb c slash
  | String _ p' => ends_with_slash p'
  end.

(** [os.path.isabs(p)] on POSIX. *)
Definition isabs (p : string) : bool :=
  match p with
  | String c _ => Ascii.eqb c slash
  | EmptyString => false
  end.

(** [os.path.join(a, b)] on POSIX. *)
Definition path_join (a b : string) : string :=
  if isabs b then b
  else if (String.length a =? 0)%nat || ends_with_slash a then a +:+ b
  else a +:+ "/" +:+ b.

(** [os.path.dirname(p) == ''] on POSIX: [p] has no directory part. *)
Definition dirname_is_empty (p : string) : bool := negb (has_slash p).

(** [f"{i:03d}"]: decimal, padded with zeros to at least three digits. *)
Definition zero_pad3 (i : nat) : string :=
  let s := pretty i in
  string_of_list_ascii (replicate (3 - String.length s) "0"%char) +:+ s.

(** [f"screenshot_{i:03d}_{int(timestamp)}s.jpg"] *)
Definition screenshot_name (i : nat) (timestamp : Q) : string :=
  "screenshot_" +:+ zero_pad3 i +:+ "_" +:+ pretty (py_int timestamp) +:+ "s.jpg".

(** ** Files, documents and the console *)

Inductive Page : Type :=
  | TitlePage (lines : list string) (total : nat)
  | ImagePage (img_path : string).

Inductive File : Type :=
  | ImageFile (size : N)
  | PdfFile (pages : list Page).

(** [os.path.exists(p) and os.path.getsize(p) > 0] *)
Definition exists_nonempty (fs : gmap string File) (p : string) : bool :=
  match fs !! p with
  | Some (ImageFile size) => (0 <? size)%N
  | Some (PdfFile pages) => true
  | None => false
  end.

(** What a tool that may or may not produce its output file leaves at
    [p]: [Some n] overwrites [p] with [n] bytes, [None] leaves it alone. *)
Definition write_image (p : string) (written : option N)
    (fs : gmap string File) : gmap string File :=
  match written with
  | Some n => <[p := ImageFile n]> fs
  | None => fs
  end.

(** Console messages and the other effects the program has on the outside
    world, in the order they happen. *)
Inductive Event : Type :=
  | CannotOpenInitial
  | VideoDuration (duration : Q)
  | OutsideDuration (dropped : nat) (duration : Q)
  | NoValidTimestamps
  | DurationUnknown
  | Capturing (i n : nat) (timestamp : Q)
  | RunFfmpeg (timestamp : Q) (img_path : string)
  | FfmpegError
  | Seek (frame : Z)
  | ImWrite (img_path : string) (quality : Z)
  | Captured (timestamp : Q)
  | CannotOpenAttempt (attempt max_retries : nat)
  | CaptureError (attempt max_retries : nat)
  | Retrying (attempt max_retries : nat)
  | Sleep (seconds : Z)
  | FailedCapture (timestamp : Q) (max_retries : nat)
  | Summary (captured n : nat)
  | DeleteWarning (img_path : string)
  | TryRmdirOf (img_path : string)
  | PdfCreated (output_pdf : string)
  | PdfError
  | NoScreenshots.

(** ** The outside world *)

(** The result of a call into a library: a value or an exception. *)
Inductive Outcome (A : Type) : Type :=
  | Returns (a : A)
  | Raises.
Arguments Returns {A} a.
Arguments Raises {A}.

Definition bind {A B : Type} (o : Outcome A) (k : A -> Outcome B) : Outcome B :=
  match o with
  | Returns a => k a
  | Raises => Raises
  end.

Notation "'try!' x <- o ; k" := (bind o (fun x => k))
  (at level 10, x name, o at level 100, k at level 200).

(** What the initial [cv2.VideoCapture] reports. *)
Record ProbeWorld : Type := {
  is_local_file : bool;          (* os.path.exists(p) and os.path.isfile(p) *)
  open_initial : Outcome bool;   (* cv2.VideoCapture(p); cap.isOpened() *)
  prop_fps : Outcome Q;          (* cap.get(cv2.CAP_PROP_FPS) *)
  prop_frame_count : Outcome Q;  (* cap.get(cv2.CAP_PROP_FRAME_COUNT) *)
  prop_pos_msec : Outcome Q      (* cap.get(cv2.CAP_PROP_POS_MSEC) *)
}.

(** What ffmpeg does in one attempt.  [written] is what the process has
    left at the output path by the time control returns. *)
Inductive FfmpegOutcome : Type :=
  | FfmpegAbsent                                   (* shutil.which is None *)
  | FfmpegExit (returncode : Z) (written : option N)
  | FfmpegSubprocessError (written : option N)     (* incl. TimeoutExpired *)
  | FfmpegOtherError.                              (* any other exception *)

(** What OpenCV does in one attempt: [cap.isOpened()], the frame rate,
    [ret] of [cap.read()], and what [cv2.imwrite] leaves on disk. *)
Inductive DecodeOutcome : Type :=
  | DecodeRaises
  | DecodeNotOpened
  | DecodeOpened (fps : Q) (ret : bool) (written : option N).

Record Attempt : Type := {
  ffmpeg : FfmpegOutcome;
  decode : DecodeOutcome
}.

(** The world of one call of [capture_screenshots]: the current
    directory, the probe, and the outcome of every attempt, by sequence
    index (from 1) and retry number (from 0). *)
Record CaptureWorld : Type := {
  cwd : string;
  probe : ProbeWorld;
  attempts : nat -> nat -> Attempt
}.

(** The world of one call of [create_pdf]. *)
Record PdfWorld : Type := {
  pdf_cwd : string;
  make_dirs : Outcome unit;        (* Utils.get_pdf_dir / Utils.ensure_dir *)
  image_ok : string -> bool;       (* FPDF can read the image at the path *)
  output_ok : bool;                (* pdf.output(output_pdf) succeeds *)
  remove_ok : string -> bool       (* os.remove(img) is permitted *)
}.

(** ** [capture_screenshots]: the duration probe *)

Definition SAFETY_MARGIN : Q := 60.

(** Lines 184-196: the duration of the video.  [prop_pos_msec] is only
    asked for when the frame-count branch is not taken. *)
Definition probe_duration (w : ProbeWorld) (timestamps : list Q) : Outcome Q :=
  try! fps <- prop_fps w;
  try! frame_count <- prop_frame_count w;
  let total_frames := py_int frame_count in
  if is_local_file w && num_lt 0 fps && (0 <? total_frames) then
    Returns (inject_Z total_frames / fps)%Q
  else
    try! pos_msec <- prop_pos_msec w;
    let duration := (pos_msec / 1000)%Q in
    if num_le duration 0 then
      match py_max timestamps with
      | Some m => if num_lt 0 m then Returns (m + SAFETY_MARGIN)%Q
                  else Returns duration
      | None => Returns duration       (* len(timestamps) > 0 is false *)
      end
    else Returns duration.

(** How the [try] block of lines 177-208 ends when nothing is raised. *)
Inductive Checked : Type :=
  | EarlyReturn                      (* return [] *)
  | Proceed (valid : list Q).        (* falls through to the loop *)

(** Lines 177-208.  The events are those printed before the block ends or
    raises.  The message of line 200 formats the duration as a
    [timedelta], inside the [try]. *)
Definition check_duration (w : ProbeWorld) (timestamps : list Q)
  : Outcome Checked * list Event :=
  match open_initial w with
  | Raises => (Raises, [])
  | Returns false => (Returns EarlyReturn, [CannotOpenInitial])
  | Returns true =>
      match probe_duration w timestamps with
      | Raises => (Raises, [])
      | Returns duration =>
          if printable duration then
            let valid := valid_timestamps timestamps duration in
            let warning :=
              if (length valid <? length timestamps)%nat
              then [OutsideDuration (length timestamps - length valid) duration]
              else [] in
            match valid with
            | [] => (Returns EarlyReturn,
                     VideoDuration duration :: warning ++ [NoValidTimestamps])
            | _ :: _ => (Returns (Proceed valid),
                         VideoDuration duration :: warning)
            end
          else (Raises, [])
      end
  end.

(** ** [capture_screenshots]: one attempt *)

Definition JPEG_QUALITY : Z := 95.

(** Lines 286-288, reached when the attempt did not [break] or
    [continue]. *)
Definition retry_wait (retry max_retries : nat) : list Event :=
  if (retry <? max_retries - 1)%nat
  then [Retrying (retry + 1) max_retries; Sleep 1]
  else [].

(** Lines 254-281: the OpenCV fallback.  The result is the [success] flag,
    the file system and the events.  An exception (from OpenCV, or the
    [OverflowError] of line 262) ends the pass in the handler of line
    283. *)
Definition decode_seek (d : DecodeOutcome) (timestamp : Q) (img_path : string)
    (retry max_retries : nat) (fs : gmap string File)
  : bool * gmap string File * list Event :=
  match d with
  | DecodeRaises =>
      (false, fs, CaptureError (retry + 1) max_retries
                    :: retry_wait retry max_retries)
  | DecodeNotOpened =>
      (false, fs, [CannotOpenAttempt (retry + 1) max_retries; Sleep 1])
  | DecodeOpened fps ret written =>
      match float_mul timestamp fps with
      | None =>
          (false, fs, CaptureError (retry + 1) max_retries
                        :: retry_wait retry max_retries)
      | Some product =>
          let frame_pos := py_int product in
          let seek := Seek (Z.max 0 frame_pos) in
          if ret then
            let fs' := write_image img_path written fs in
            if exists_nonempty fs' img_path then
              (true, fs',
               [seek; ImWrite img_path JPEG_QUALITY; Captured timestamp])
            else
              (false, fs', seek :: ImWrite img_path JPEG_QUALITY
                             :: retry_wait retry max_retries)
          else (false, fs, seek :: retry_wait retry max_retries)
      end
  end.

Definition prepend (e : list Event)
    (r : bool * gmap string File * list Event)
  : bool * gmap string File * list Event :=
  let '(ok, fs, ev) := r in (ok, fs, e ++ ev).

(** Lines 217-288: the body of the retry loop for one value of [retry].
    The message of line 221 formats the timestamp as a [timedelta]; when
    that raises, the pass ends in the handler of line 283 before either
    strategy is tried. *)
Definition attempt (a : Attempt) (i n : nat) (timestamp : Q)
    (img_path : string) (retry max_retries : nat) (fs : gmap string File)
  : bool * gmap string File * list Event :=
  if printable timestamp then
    prepend [Capturing i n timestamp]
      match ffmpeg a with
      | FfmpegAbsent =>
          decode_seek (decode a) timestamp img_path retry max_retries fs
      | FfmpegExit returncode written =>
          let fs' := write_image img_path written fs in
          if (returncode =? 0) && exists_nonempty fs' img_path then
            (true, fs', [RunFfmpeg timestamp img_path; Captured timestamp])
          else
            prepend [RunFfmpeg timestamp img_path]
              (decode_seek (decode a) timestamp img_path retry max_retries fs')
      | FfmpegSubprocessError written =>
          prepend [RunFfmpeg timestamp img_path; FfmpegError]
            (decode_seek (decode a) timestamp img_path retry max_retries
               (write_image img_path written fs))
      | FfmpegOtherError =>
          (false, fs, CaptureError (retry + 1) max_retries
                        :: retry_wait retry max_retries)
      end
  else
    (false, fs, CaptureError (retry + 1) max_retries
                  :: retry_wait retry max_retries).

(** ** [capture_screenshots]: the loops *)

(** [for retry in range(max_retries)], leaving at the first success. *)
Fixpoint retry_loop (att : nat -> Attempt) (i n : nat) (timestamp : Q)
    (img_path : string) (max_retries : nat) (retries : list nat)
    (fs : gmap string File) : bool * gmap string File * list Event :=
  match retries with
  | [] => (false, fs, [])
  | retry :: rest =>
      let '(ok, fs', ev) :=
        attempt (att retry) i n timestamp img_path retry max_retries fs in
      if ok then (true, fs', ev)
      else prepend ev
             (retry_loop att i n timestamp img_path max_retries rest fs')
  end.

(** Lines 215-291: everything done for one timestamp.  The first component
    is what is appended to [images], or the exception that leaves the
    function: the message of line 291 formats the timestamp as a
    [timedelta] outside every [try]. *)
Definition capture_one (att : nat -> Attempt) (output_dir : string)
    (i n : nat) (timestamp : Q) (max_retries : nat) (fs : gmap string File)
  : Outcome (list string) * gmap string File * list Event :=
  let img_path := path_join output_dir (screenshot_name i timestamp) in
  let '(success, fs', ev) :=
    retry_loop att i n timestamp img_path max_retries (seq 0 max_retries) fs in
  if success then (Returns [img_path], fs', ev)
  else if printable timestamp
       then (Returns [], fs', ev ++ [FailedCapture timestamp max_retries])
       else (Raises, fs', ev).

(** [for i, timestamp in enumerate(valid_timestamps, 1)], from index [i].
    The first component is what the loop appends to [images]; an
    exception ends the loop. *)
Fixpoint capture_loop (att : nat -> nat -> Attempt) (output_dir : string)
    (n : nat) (max_retries : nat) (i : nat) (timestamps : list Q)
    (fs : gmap string File)
  : Outcome (list string) * gmap string File * list Event :=
  match timestamps with
  | [] => (Returns [], fs, [])
  | timestamp :: rest =>
      match capture_one (att i) output_dir i n timestamp max_retries fs with
      | (Raises, fs', ev) => (Raises, fs', ev)
      | (Returns imgs, fs', ev) =>
          let '(more, fs'', ev') :=
            capture_loop att output_dir n max_retries (S i) rest fs' in
          (try! imgs' <- more; Returns (imgs ++ imgs'), fs'', ev ++ ev')
      end
  end.

(** Lines 213-294, for the list that reaches the loop. *)
Definition capture_all (w : CaptureWorld) (output_dir : string)
    (max_retries : nat) (valid : list Q) (fs : gmap string File)
  : Outcome (list string) * gmap string File * list Event :=
  match capture_loop (attempts w) output_dir (length valid) max_retries 1
          valid fs with
  | (Returns images, fs', ev) =>
      (Returns images, fs', ev ++ [Summary (length images) (length valid)])
  | (Raises, fs', ev) => (Raises, fs', ev)
  end.

(** [output_dir] after lines 163-164. *)
Definition abs_output_dir (w : CaptureWorld) (output_dir : string) : string :=
  if isabs output_dir then output_dir else path_join (cwd w) output_dir.

(** [capture_screenshots(video_path, timestamps, output_dir, max_retries)]:
    the list it returns, or the exception that leaves it. *)
Definition capture_screenshots (w : CaptureWorld) (timestamps : list Q)
    (output_dir : string) (max_retries : nat) (fs : gmap string File)
  : Outcome (list string) * gmap string File * list Event :=
  let output_dir := abs_output_dir w output_dir in
  match check_duration (probe w) timestamps with
  | (Returns EarlyReturn, ev) => (Returns [], fs, ev)
  | (Returns (Proceed valid), ev) =>
      let '(images, fs', ev') := capture_all w output_dir max_retries valid fs in
      (images, fs', ev ++ ev')
  | (Raises, ev) =>
      let '(images, fs', ev') :=
        capture_all w output_dir max_retries timestamps fs in
      (images, fs', ev ++ DurationUnknown :: ev')
  end.

Definition DEFAULT_OUTPUT_DIR : string := "high_res_screenshots".
Definition DEFAULT_MAX_RETRIES : nat := 3.

(** ** [create_pdf] *)

(** [Utils.sanitize_title]: a title is a sequence of code points; those
    outside ASCII become an underscore. *)
Definition sanitize_char (c : N) : ascii :=
  if (c <? 128)%N then ascii_of_N c else "_"%char.

Definition sanitize_title (title : list N) : string :=
  string_of_list_ascii (List.map sanitize_char title).

Definition TITLE_WIDTH : nat := 45.

(** [[s[i:i+45] for i in range(0, len(s), 45)]] *)
Definition title_lines (s : string) : list string :=
  match py_range 0 (Z.of_nat (String.length s)) (Z.of_nat TITLE_WIDTH) with
  | Some starts =>
      List.map (fun i => String.substring (Z.to_nat i) TITLE_WIDTH s) starts
  | None => []
  end.

(** Lines 300-305: where the document goes. *)
Definition resolve_output (w : PdfWorld) (output_pdf : string) : string :=
  if dirname_is_empty output_pdf
  then path_join (path_join (pdf_cwd w) "PDF") output_pdf
  else output_pdf.

(** Lines 338-340: one page per image; [pdf.image] raises when the file is
    missing or is not an image FPDF can read. *)
Fixpoint add_images (w : PdfWorld) (fs : gmap string File)
    (image_paths : list string) : Outcome (list Page) :=
  match image_paths with
  | [] => Returns []
  | img_path :: rest =>
      match fs !! img_path with
      | Some (ImageFile _) =>
          if image_ok w img_path then
            try! pages <- add_images w fs rest;
            Returns (ImagePage img_path :: pages)
          else Raises
      | _ => Raises
      end
  end.

(** Lines 346-350: [os.remove] of every image; an [OSError] is a
    warning. *)
Fixpoint remove_images (w : PdfWorld) (image_paths : list string)
    (fs : gmap string File) : gmap string File * list Event :=
  match image_paths with
  | [] => (fs, [])
  | img :: rest =>
      match fs !! img with
      | Some _ =>
          if remove_ok w img then remove_images w rest (delete img fs)
          else
            let '(fs', ev) := remove_images w rest fs in
            (fs', DeleteWarning img :: ev)
      | None =>
          let '(fs', ev) := remove_images w rest fs in
          (fs', DeleteWarning img :: ev)
      end
  end.

(** Lines 299-343: everything up to and including [pdf.output]. *)
Definition build_document (w : PdfWorld) (image_paths : list string)
    (video_title : list N) (fs : gmap string File) : Outcome (list Page) :=
  try! _ <- make_dirs w;
  try! pages <- add_images w fs image_paths;
  if output_ok w then
    Returns (TitlePage (title_lines (sanitize_title video_title))
                       (length image_paths) :: pages)
  else Raises.

(** [create_pdf(image_paths, video_title, output_pdf)] *)
Definition create_pdf (w : PdfWorld) (image_paths : list string)
    (video_title : list N) (output_pdf : string) (fs : gmap string File)
  : bool * gmap string File * list Event :=
  let output_pdf := resolve_output w output_pdf in
  match build_document w image_paths video_title fs with
  | Raises => (false, fs, [PdfError])
  | Returns pages =>
      let '(fs', warnings) :=
        remove_images w image_paths (<[output_pdf := PdfFile pages]> fs) in
      let rmdir :=
        match image_paths with
        | img :: _ => [TryRmdirOf img]
        | [] => []
        end in
      (true, fs', warnings ++ rmdir ++ [PdfCreated output_pdf])
  end.

(** ** The drivers *)

(** Lines 431-448 of [main]: the requested timestamps, sorted.  [None] is
    the early [return] (or the [ValueError]) of an invalid request. *)
Definition requested_timestamps (video_duration : Q) (interval : option Z)
    (parsed : list Q) : option (list Q) :=
  match interval with
  | Some n =>
      if 0 <? n then
        option_map (fun l => py_sort (List.map inject_Z l))
                   (generate_interval_timestamps video_duration n)
      else if existsb (fun t => num_lt t 0) parsed then None
      else Some (py_sort parsed)
  | None =>
      if existsb (fun t => num_lt t 0) parsed then None
      else Some (py_sort parsed)
  end.

(** Lines 473-481 of [main]: capture, then assemble.  The first component
    is the result of [create_pdf], if it was called; an exception of
    [capture_screenshots] is not handled and leaves [main]. *)
Definition capture_and_assemble (cw : CaptureWorld) (pw : PdfWorld)
    (timestamps : list Q) (video_title : list N) (output_pdf : string)
    (fs : gmap string File)
  : Outcome (option bool) * gmap string File * list Event :=
  match capture_screenshots cw timestamps DEFAULT_OUTPUT_DIR
          DEFAULT_MAX_RETRIES fs with
  | (Raises, fs', ev) => (Raises, fs', ev)
  | (Returns [], fs', ev) => (Returns None, fs', ev ++ [NoScreenshots])
  | (Returns image_paths, fs', ev) =>
      let '(ok, fs'', ev') :=
        create_pdf pw image_paths video_title output_pdf fs' in
      (Returns (Some ok), fs'', ev ++ ev')
  end.

Definition main (cw : CaptureWorld) (pw : PdfWorld) (video_duration : Q)
    (interval : option Z) (parsed : list Q) (video_title : list N)
    (output_pdf : string) (fs : gmap string File)
  : Outcome (option bool) * gmap string File * list Event :=
  match requested_timestamps video_duration interval parsed with
  | None => (Returns None, fs, [])
  | Some timestamps =>
      capture_and_assemble cw pw timestamps video_title output_pdf fs
  end.

(** Lines 1082-1093 of [_process_worker]: one call of
    [capture_screenshots] per timestamp, each in its own world.  The log
    lines 1090 and 1092 format the timestamp as a [timedelta]. *)
Fixpoint worker_capture (cws : nat -> CaptureWorld) (i : nat)
    (timestamps : list Q) (fs : gmap string File)
  : Outcome (list string) * gmap string File * list Event :=
  match timestamps with
  | [] => (Returns [], fs, [])
  | timestamp :: rest =>
      match capture_screenshots (cws i) [timestamp]
              DEFAULT_OUTPUT_DIR DEFAULT_MAX_RETRIES fs with
      | (Raises, fs', ev) => (Raises, fs', ev)
      | (Returns single_image, fs', ev) =>
          if printable timestamp then
            let '(more, fs'', ev') := worker_capture cws (S i) rest fs' in
            (try! image_paths <- more; Returns (single_image ++ image_paths),
             fs'', ev ++ ev')
          else (Raises, fs', ev)
      end
  end.

(** [_process_worker] from the sort on: lines 1056-1107.  [Raises] is an
    exception on the way, which the handler of line 1120 logs. *)
Definition process_worker (cws : nat -> CaptureWorld) (pw : PdfWorld)
    (timestamps : list Q) (video_title : list N) (output_pdf : string)
    (fs : gmap string File)
  : Outcome (option bool) * gmap string File * list Event :=
  match worker_capture cws 1 (py_sort timestamps) fs with
  | (Raises, fs', ev) => (Raises, fs', ev)
  | (Returns [], fs', ev) => (Returns None, fs', ev ++ [NoScreenshots])
  | (Returns image_paths, fs', ev) =>
      let '(ok, fs'', ev') :=
        create_pdf pw image_paths video_title output_pdf fs' in
      (Returns (Some ok), fs'', ev ++ ev')
  end.

(** ** Vocabulary of the properties *)

(** The two ways the [try] block of [capture_screenshots] ends without an
    exception once the video is open. *)
Definition checked_of (valid : list Q) : Checked :=
  match valid with
  | [] => EarlyReturn
  | _ :: _ => Proceed valid
  end.

(** [enumerate(timestamps, i)] *)
Fixpoint enumerate (i : nat) (timestamps : list Q) : list (nat * Q) :=
  match timestamps with
  | [] => []
  | t :: rest => (i, t) :: enumerate (S i) rest
  end.

(** The path [capture_screenshots] gives the image with sequence index [i]
    and timestamp [t]. *)
Definition image_path (output_dir : string) (it : nat * Q) : string :=
  path_join output_dir (screenshot_name (fst it) (snd it)).


Definition is_capturing (i : nat) (e : Event) : bool :=
  match e with
  | Capturing j _ _ => (i =? j)%nat
  | _ => false
  end.

(** How many attempts the trace shows for sequence index [i]. *)
Definition attempts_made (i : nat) (trace : list Event) : nat :=
  length (List.filter (is_capturing i) trace).

(** A trace without a [Capturing] message. *)
Definition quiet (trace : list Event) : Prop :=
  Forall (fun e => forall j : nat, is_capturing j e = false) trace.

(** Every pass through the retry loop fails, on the file system each pass
    finds. *)
Fixpoint every_attempt_fails (att : nat -> Attempt) (i n : nat) (timestamp : Q)
    (img_path : string) (max_retries : nat) (retries : list nat)
    (fs : gmap string File) : bool :=
  match retries with
  | [] => true
  | retry :: rest =>
      let '(ok, fs', _) :=
        attempt (att retry) i n timestamp img_path retry max_retries fs in
      negb ok &&
      every_attempt_fails att i n timestamp img_path max_retries rest fs'
  end.

(** The file system an attempt's OpenCV fallback starts from. *)
Definition after_ffmpeg (f : FfmpegOutcome) (img_path : string)
    (fs : gmap string File) : gmap string File :=
  match f with
  | FfmpegExit _ written => write_image img_path written fs
  | FfmpegSubprocessError written => write_image img_path written fs
  | FfmpegAbsent | FfmpegOtherError => fs
  end.

(** ffmpeg is absent, or ran without leaving a non-empty image with exit
    code 0, or raised a subprocess error: the cases in which line 254 is
    reached with [success] still false. *)
Definition ffmpeg_unsuccessful (f : FfmpegOutcome) (img_path : string)
    (fs : gmap string File) : bool :=
  match f with
  | FfmpegAbsent => true
  | FfmpegExit returncode written =>
      negb ((returncode =? 0)
            && exists_nonempty (write_image img_path written fs) img_path)
  | FfmpegSubprocessError _ => true
  | FfmpegOtherError => false
  end.

Definition is_digit (c : ascii) : bool :=
  (48 <=? N_of_ascii c)%N && (N_of_ascii c <=? 57)%N.

Fixpoint all_digits (s : string) : bool :=
  match s with
  | EmptyString => true
  | String c s' => is_digit c && all_digits s'
  end.

(** The number a string of decimal digits denotes, continuing from
    [acc]. *)
Fixpoint decimal_value (acc : N) (s : string) : N :=
  match s with
  | EmptyString => acc
  | String c s' => decimal_value (acc * 10 + (N_of_ascii c - 48)) s'
  end.

(** Lexical order of strings, as [sorted] compares file names. *)
Definition lex_lt (a b : string) : bool := String.ltb a b.

(** The padded indices up to [bound] have three characters and ascend
    lexically from each to the next. *)
Definition pad_ascending (bound : nat) : bool :=
  forallb (fun i =>
             (String.length (zero_pad3 i) =? 3)%nat
             && (String.length (zero_pad3 (S i)) =? 3)%nat
             && lex_lt (zero_pad3 i) (zero_pad3 (S i)))
          (seq 0 bound).

(** The list that reaches the loop of [capture_screenshots], unless the
    function returns before it: the validated list, or the whole request
    when the [try] block raised. *)
Definition reaching (w : ProbeWorld) (timestamps : list Q) : option (list Q) :=
  match fst (check_duration w timestamps) with
  | Returns EarlyReturn => None
  | Returns (Proceed valid) => Some valid
  | Raises => Some timestamps
  end.

(** The timestamps the console reports as captured, in order. *)
Definition captured_timestamps (trace : list Event) : list Q :=
  omap (fun e => match e with
                 | Captured timestamp => Some timestamp
                 | _ => None
                 end) trace.

(** ** Sample worlds *)

(** A local file of 3600 frames at 30 frames per second. *)
Definition local_probe : ProbeWorld :=
  {| is_local_file := true;
     open_initial := Returns true;
     prop_fps := Returns 30%Q;
     prop_frame_count := Returns 3600%Q;
     prop_pos_msec := Returns 0%Q |}.

(** A local file whose header claims 86400000000000 frames at one frame
    per second: a duration of 1000000000 days. *)
Definition eon_probe : ProbeWorld :=
  {| is_local_file := true;
     open_initial := Returns true;
     prop_fps := Returns 1%Q;
     prop_frame_count := Returns 86400000000000%Q;
     prop_pos_msec := Returns 0%Q |}.

(** A stream: no frame count, position zero. *)
Definition stream_probe : ProbeWorld :=
  {| is_local_file := false;
     open_initial := Returns true;
     prop_fps := Returns 0%Q;
     prop_frame_count := Returns 0%Q;
     prop_pos_msec := Returns 0%Q |}.


(** A source that cannot be opened. *)
Definition closed_probe : ProbeWorld :=
  {| is_local_file := false;
     open_initial := Returns false;
     prop_fps := Returns 0%Q;
     prop_frame_count := Returns 0%Q;
     prop_pos_msec := Returns 0%Q |}.

(** ffmpeg exits with 0 and leaves an image of 1000 bytes. *)
Definition ffmpeg_works : Attempt :=
  {| ffmpeg := FfmpegExit 0 (Some 1000%N); decode := DecodeNotOpened |}.

(** No ffmpeg; OpenCV decodes a frame and writes 1000 bytes. *)
Definition decode_works : Attempt :=
  {| ffmpeg := FfmpegAbsent; decode := DecodeOpened 30 true (Some 1000%N) |}.

(** ffmpeg exits with 1 and writes nothing; OpenCV reads no frame. *)
Definition nothing_works : Attempt :=
  {| ffmpeg := FfmpegExit 1 None; decode := DecodeOpened 30 false None |}.

(** The decoder returns a frame but [cv2.imwrite] leaves no file. *)
Definition frame_not_saved : Attempt :=
  {| ffmpeg := FfmpegAbsent; decode := DecodeOpened 30 true None |}.

Definition world_of (p : ProbeWorld) (att : nat -> nat -> Attempt)
  : CaptureWorld :=
  {| cwd := "/work"; probe := p; attempts := att |}.

(** A run in which ffmpeg captures every frame. *)
Definition all_captured : CaptureWorld :=
  world_of local_probe (fun _ _ => ffmpeg_works).

(** A run in which nothing works for the second timestamp. *)
Definition second_fails (i retry : nat) : Attempt :=
  if (i =? 2)%nat then nothing_works else ffmpeg_works.

Definition pdf_world (writable : bool) : PdfWorld :=
  {| pdf_cwd := "/work";
     make_dirs := Returns tt;
     image_ok := fun _ => true;
     output_ok := writable;
     remove_ok := fun _ => true |}.

(** The title "Talk". *)
Definition sample_title : list N := [84; 97; 108; 107]%N.

(** The images of a worker run on the given timestamps in which ffmpeg
    captures every frame. *)
Definition worker_images (timestamps : list Q) : Outcome (list string) :=
  fst (fst (worker_capture (fun _ => all_captured) 1 (py_sort timestamps) ∅)).

(** ** [Utils.sanitize_filename] and the output name of [main] *)

(** The code points of a string. *)
Definition codes (s : string) : list N :=
  List.map N_of_ascii (list_ascii_of_string s).

(** [c.isalnum()] for an ASCII code point. *)
Definition is_ascii_alnum (c : N) : bool :=
  (((48 <=? c) && (c <=? 57)) || ((65 <=? c) && (c <=? 90))
   || ((97 <=? c) && (c <=? 122)))%N.

(** [c in " -_."] *)
Definition in_safe_punctuation (c : N) : bool :=
  ((c =? 32) || (c =? 45) || (c =? 95) || (c =? 46))%N.

(** [c if ord(c) < 128 and (c.isalnum() or c in " -_.") else "_"] *)
Definition safe_char (c : N) : ascii :=
  if (c <? 128)%N && (is_ascii_alnum c || in_safe_punctuation c)
  then ascii_of_N c else "_"%char.

Definition FILENAME_LIMIT : nat := 50.

(** [Utils.sanitize_filename]: the safe characters, cut to 50. *)
Definition sanitize_filename (filename : list N) : string :=
  string_of_list_ascii (take FILENAME_LIMIT (List.map safe_char filename)).

(** [str.lower] on an ASCII character and string. *)
Definition ascii_lower (c : ascii) : ascii :=
  let n := N_of_ascii c in
  if ((65 <=? n) && (n <=? 90))%N then ascii_of_N (n + 32) else c.

Fixpoint string_lower (s : string) : string :=
  match s with
  | EmptyString => EmptyString
  | String c s' => String (ascii_lower c) (string_lower s')
  end.

(** [s.endswith(suffix)] *)
Definition ends_with (suffix s : string) : bool :=
  (String.length suffix <=? String.length s)%nat
  && String.eqb
       (String.substring (String.length s - String.length suffix)
                         (String.length suffix) s)
       suffix.

(** Lines 454-456: [pdf_name] with [.pdf] appended unless it already
    ends with it, in any case. *)
Definition ensure_pdf_suffix (pdf_name : string) : string :=
  if ends_with ".pdf" (string_lower pdf_name) then pdf_name
  else pdf_name +:+ ".pdf".

(** A command-line option that is present and not the empty string. *)
Definition given (arg : option string) : option string :=
  match arg with
  | Some EmptyString => None
  | _ => arg
  end.

(** Lines 451-462 of [main]: the name of the document. *)
Definition output_name (output pdf_name : option string)
    (video_title : list N) : string :=
  match given output with
  | Some output_pdf => output_pdf
  | None =>
      match given pdf_name with
      | Some name => ensure_pdf_suffix name
      | None =>
          match video_title with
          | _ :: _ => sanitize_filename video_title +:+ "_screenshots.pdf"
          | [] => "screenshots.pdf"
          end
      end
  end.

(** The characters [sanitize_filename] lets through. *)
Definition is_safe_ascii (c : ascii) : bool :=
  is_ascii_alnum (N_of_ascii c) || in_safe_punctuation (N_of_ascii c).

(** [s[n:]] *)
Fixpoint string_drop (n : nat) (s : string) : string :=
  match n, s with
  | O, _ => s
  | S n', EmptyString => EmptyString
  | S n', String _ s' => string_drop n' s'
  end.

(** ["".join(lines)] *)
Definition string_concat (lines : list string) : string :=
  foldr String.append EmptyString lines.

(** ** [Utils.find_best_format] and [get_streaming_url] *)

(** A key of a format dictionary: missing, present with [None], or
    present with a value. *)
Inductive Field (A : Type) : Type :=
  | Absent
  | Null
  | Val (a : A).
Arguments Absent {A}.
Arguments Null {A}.
Arguments Val {A} a.

(** The keys of a yt-dlp format the program reads. *)
Record Format : Type := {
  vcodec : Field string;
  height : Field Z;
  ext : Field string;
  url : Field string
}.

(** [needle in hay] on strings. *)
Fixpoint contains (needle hay : string) : bool :=
  String.prefix needle hay
  || match hay with
     | EmptyString => false
     | String _ hay' => contains needle hay'
     end.

(** [f.get('height', 0)] where it is known not to be [None]. *)
Definition height_or_0 (f : Format) : Z :=
  match height f with
  | Val h => h
  | Absent | Null => 0
  end.

(** [f.get('height', 0) <= 1080]; comparing [None] raises [TypeError]. *)
Definition height_fits (f : Format) : Outcome bool :=
  match height f with
  | Null => Raises
  | Absent | Val _ => Returns (height_or_0 f <=? 1080)
  end.

(** Line 56: ['avc' in vcodec and f.get('ext') == 'mp4' and height <= 1080],
    evaluated left to right; ['avc' in None] raises [TypeError]. *)
Definition is_h264_mp4 (f : Format) : Outcome bool :=
  match vcodec f with
  | Null => Raises
  | Absent => Returns false
  | Val v =>
      if contains "avc" v then
        match ext f with
        | Val e => if String.eqb e "mp4" then height_fits f else Returns false
        | Absent | Null => Returns false
        end
      else Returns false
  end.

(** Lines 57-58, and the step of [max(..., key=height)]: a format
    replaces the best so far only when it is strictly higher. *)
Definition pick_higher (best_format : option Format) (f : Format)
  : option Format :=
  match best_format with
  | None => Some f
  | Some b => if height_or_0 b <? height_or_0 f then Some f else Some b
  end.

(** Lines 53-58: the loop over the formats. *)
Fixpoint h264_loop (formats : list Format) (best_format : option Format)
  : Outcome (option Format) :=
  match formats with
  | [] => Returns best_format
  | f :: rest =>
      try! ok <- is_h264_mp4 f;
      h264_loop rest (if ok then pick_higher best_format f else best_format)
  end.

(** Line 63: [(f for f in formats if f.get('height', 0) <= 1080)]. *)
Fixpoint fitting (formats : list Format) : Outcome (list Format) :=
  match formats with
  | [] => Returns []
  | f :: rest =>
      try! ok <- height_fits f;
      try! others <- fitting rest;
      Returns (if ok then f :: others else others)
  end.

(** [Utils.find_best_format(formats)].  In the fallback [formats[0]] is
    evaluated first and raises [IndexError] on the empty list. *)
Definition find_best_format (formats : list Format) : Outcome Format :=
  try! best_format <- h264_loop formats None;
  match best_format with
  | Some b => Returns b
  | None =>
      match formats with
      | [] => Raises
      | first :: _ =>
          try! candidates <- fitting formats;
          match fold_left pick_higher candidates None with
          | Some b => Returns b
          | None => Returns first
          end
      end
  end.

(** What [ydl.extract_info] returns, as far as it is read: the formats,
    [info.get("title", "Unknown")] and [info.get("duration", 0)]. *)
Record Info : Type := {
  info_formats : list Format;
  info_title : list N;
  info_duration : Q
}.

(** [get_streaming_url]: the three results; after any exception all
    three are [None]. *)
Definition get_streaming_url (extract_info : Outcome Info)
  : option string * option (list N) * option Q :=
  let result :=
    try! info <- extract_info;
    try! best_format <- find_best_format (info_formats info);
    match url best_format with
    | Absent => Raises                                    (* KeyError *)
    | Null => Returns (None, Some (info_title info), Some (info_duration info))
    | Val u => Returns (Some u, Some (info_title info), Some (info_duration info))
    end in
  match result with
  | Returns r => r
  | Raises => (None, None, None)
  end.

(** The formats that pass the test of line 56. *)
Definition h264_formats (formats : list Format) : list Format :=
  List.filter (fun f => match is_h264_mp4 f with
                        | Returns true => true
                        | _ => false
                        end) formats.

(** The formats whose height is at most 1080. *)
Definition fitting_formats (formats : list Format) : list Format :=
  List.filter (fun f => height_or_0 f <=? 1080) formats.

(** [f] is the first format of [l] with the greatest height. *)
Definition first_highest (f : Format) (l : list Format) : Prop :=
  exists before after : list Format,
    l = before ++ f :: after /\
    (forall g : Format, In g before -> height_or_0 g < height_or_0 f) /\
    (forall g : Format, In g after -> height_or_0 g <= height_or_0 f).


(** Sample formats: audio only, two H.264 mp4 streams, and a 4K VP9
    stream. *)
Definition audio_only : Format :=
  {| vcodec := Val "none"; height := Null; ext := Val "m4a";
     url := Val "https://cdn/audio" |}.
Definition h264_720 : Format :=
  {| vcodec := Val "avc1.64001F"; height := Val 720; ext := Val "mp4";
     url := Val "https://cdn/720" |}.
Definition h264_1080 : Format :=
  {| vcodec := Val "avc1.640028"; height := Val 1080; ext := Val "mp4";
     url := Val "https://cdn/1080" |}.
Definition vp9_2160 : Format :=
  {| vcodec := Val "vp9"; height := Val 2160; ext := Val "webm";
     url := Val "https://cdn/2160" |}.
Definition sample_formats : list Format :=
  [audio_only; h264_720; h264_1080; vp9_2160].


(** ** Vocabulary of the further properties *)

(** From [fs] to [fs'] nothing was deleted, and every path that changed
    satisfies [P] and now holds an image. *)
Definition only_wrote (P : string -> Prop) (fs fs' : gmap string File) : Prop :=
  forall q : string,
    fs' !! q = fs !! q \/ (P q /\ exists size : N, fs' !! q = Some (ImageFile size)).

(** The screenshot paths of the timestamps [ts], enumerated from [s]. *)
Definition screenshot_path_of (output_dir : string) (s : nat) (ts : list Q)
    (q : string) : Prop :=
  exists it : nat * Q, In it (enumerate s ts) /\ q = image_path output_dir it.

Definition is_captured (e : Event) : bool :=
  match e with
  | Captured _ => true
  | _ => false
  end.

Definition is_sleep (e : Event) : bool :=
  match e with
  | Sleep _ => true
  | _ => false
  end.

(** How a trace ends when [success] is [ok]: with the one [Captured]
    message, or without any. *)
Definition ends_as (ok : bool) (t : Q) (ev : list Event) : Prop :=
  if ok then
    exists before : list Event,
      ev = before ++ [Captured t] /\ existsb is_captured before = false
  else existsb is_captured ev = false.


(** ** [parse_timestamp] *)

(** The longest prefix of digits, and what follows it. *)
Fixpoint span_digits (s : string) : string * string :=
  match s with
  | EmptyString => (EmptyString, EmptyString)
  | String c s' =>
      if is_digit c then
        let '(digits, rest) := span_digits s' in (String c digits, rest)
      else (EmptyString, s)
  end.

(** Where [$] matches: at the end, or before a final newline. *)
Definition at_end (s : string) : bool :=
  match s with
  | EmptyString => true
  | String c EmptyString => Ascii.eqb c "010"%char
  | String _ (String _ _) => false
  end.

(** [re.match(r'^\d+(\.\d+)?$', s)] *)
Definition matches_seconds (s : string) : bool :=
  let '(whole, rest) := span_digits s in
  negb (String.eqb whole EmptyString)
  && (at_end rest
      || match rest with
         | String c rest' =>
             Ascii.eqb c "."%char
             && (let '(fraction, rest'') := span_digits rest' in
                 negb (String.eqb fraction EmptyString) && at_end rest'')
         | EmptyString => false
         end).

(** [s.split(sep)] for a separator of one character. *)
Fixpoint split_on (sep : ascii) (s : string) : list string :=
  match s with
  | EmptyString => [EmptyString]
  | String c s' =>
      if Ascii.eqb c sep then EmptyString :: split_on sep s'
      else
        match split_on sep s' with
        | part :: parts => String c part :: parts
        | [] => [String c EmptyString]
        end
  end.

(** [parse_timestamp(timestamp_str)], given [int] and [float] on
    strings. *)
Definition parse_timestamp (py_int_of : string -> Outcome Z)
    (py_float_of : string -> Outcome Q) (timestamp_str : string) : Outcome Q :=
  if matches_seconds timestamp_str then py_float_of timestamp_str
  else
    match split_on ":"%char timestamp_str with
    | [minutes; seconds] =>
        try! m <- py_int_of minutes;
        try! s <- py_float_of seconds;
        Returns (inject_Z m * 60 + s)%Q
    | [hours; minutes; seconds] =>
        try! h <- py_int_of hours;
        try! m <- py_int_of minutes;
        try! s <- py_float_of seconds;
        Returns (inject_Z h * 3600 + inject_Z m * 60 + s)%Q
    | _ => Raises
    end.

(** How often [c] occurs in [s]. *)
Fixpoint count_char (c : ascii) (s : string) : nat :=
  match s with
  | EmptyString => 0
  | String d s' => (if Ascii.eqb d c then 1 else 0) + count_char c s'
  end.

(** The number a non-empty string of digits denotes. *)
Definition digits_value (s : string) : Z := Z.of_N (decimal_value 0 s).

(** [int] and [float] as far as strings of digits go; used to
    instantiate [parse_timestamp]. *)
Definition int_of_digits (s : string) : Outcome Z :=
  if all_digits s && negb (String.eqb s EmptyString)
  then Returns (digits_value s) else Raises.

Definition float_of_digits (s : string) : Outcome Q :=
  if all_digits s && negb (String.eqb s EmptyString)
  then Returns (inject_Z (digits_value s)) else Raises.


(** How many times the trace sleeps. *)
Definition sleeps (trace : list Event) : nat :=
  length (List.filter is_sleep trace).

(** * Properties *)

(** ** Numbers *)

Lemma py_int_floor (x : Q) : (0 <= x)%Q -> py_int x = Qfloor x.
Proof.
  destruct x as [n d]. unfold py_int, Qle. simpl. intros H.
  apply Z.quot_div_nonneg; lia.
Qed.

Lemma py_int_inject_Z (z : Z) : py_int (inject_Z z) = z.
Proof. unfold py_int. simpl. apply Z.quot_1_r. Qed.

Lemma le_floor_iff (z : Z) (x : Q) : (inject_Z z <= x)%Q <-> z <= Qfloor x.
Proof.
  split; intros H.
  - assert (Hlt : (inject_Z z < inject_Z (Qfloor x + 1))%Q).
    { eapply Qle_lt_trans; [exact H | apply Qlt_floor]. }
    rewrite <- Zlt_Qlt in Hlt. lia.
  - eapply Qle_trans; [| apply Qfloor_le]. now rewrite <- Zle_Qle.
Qed.

Lemma num_le_iff (a b : Q) : num_le a b = true <-> (a <= b)%Q.
Proof. apply Qle_bool_iff. Qed.

Lemma num_lt_iff (a b : Q) : num_lt a b = true <-> (a < b)%Q.
Proof.
  unfold num_lt. rewrite negb_true_iff. split; intros H.
  - apply Qnot_le_lt. intros Hle. apply Qle_bool_iff in Hle. congruence.
  - destruct (Qle_bool b a) eqn:E; [| reflexivity].
    apply Qle_bool_iff in E. exfalso. eapply Qlt_not_le; eauto.
Qed.

(** ** Interval timestamps *)

Lemma py_range_up (stop step : Z) :
  0 < step -> 0 < stop ->
  py_range 0 stop step =
    Some (List.map (fun k => Z.of_nat k * step)
                   (seq 0 (Z.to_nat ((stop - 1) / step + 1)))).
Proof.
  intros Hstep Hstop. unfold py_range, range_len.
  destruct (Z.eqb_spec step 0); [lia |].
  destruct (Z.ltb_spec 0 step); [| lia].
  destruct (Z.ltb_spec 0 stop); [| lia].
  replace (stop - 0 - 1) with (stop - 1) by lia. reflexivity.
Qed.

(** C9. For a positive interval and a non-negative duration,
    [generate_interval_timestamps] returns the multiples of the interval
    from 0 up to the duration: the list starts at 0, consecutive entries
    differ by exactly the interval, and a number is in the list exactly
    when it is a non-negative multiple of the interval that does not
    exceed the duration.  For interval 30 and duration 95 the list is
    [0, 30, 60, 90]. *)
Theorem interval_timestamps_bounded (duration : Q) (interval : Z) :
  0 < interval -> (0 <= duration)%Q ->
  exists l,
    generate_interval_timestamps duration interval = Some l /\
    l !! 0%nat = Some 0 /\
    (forall (k : nat) (a b : Z),
        l !! k = Some a -> l !! S k = Some b -> b - a = interval) /\
    (forall t : Z,
        In t l <->
        exists k : Z, 0 <= k /\ t = k * interval /\ (inject_Z t <= duration)%Q) /\
    generate_interval_timestamps 95 30 = Some [0; 30; 60; 90].
Proof.
  intros Hi Hd.
  assert (Hm : 0 <= py_int duration).
  { rewrite py_int_floor by exact Hd. apply le_floor_iff. exact Hd. }
  unfold generate_interval_timestamps at 1.
  rewrite py_range_up by lia.
  replace (py_int duration + 1 - 1) with (py_int duration) by lia.
  set (m := py_int duration) in *.
  set (len := Z.to_nat (m / interval + 1)).
  assert (Hq : 0 <= m / interval) by (apply Z.div_pos; lia).
  assert (Hnth : forall k : nat,
             List.map (fun k => Z.of_nat k * interval) (seq 0 len) !! k =
             if (k <? len)%nat then Some (Z.of_nat k * interval) else None).
  { intros k. rewrite list_lookup_fmap.
    destruct (Nat.ltb_spec k len) as [Hk | Hk].
    - rewrite lookup_seq_lt by exact Hk. reflexivity.
    - rewrite lookup_seq_ge by exact Hk. reflexivity. }
  eexists. split; [reflexivity |]. split; [| split; [| split]].
  - rewrite Hnth. destruct (Nat.ltb_spec 0 len); [reflexivity | lia].
  - intros k a b. rewrite !Hnth.
    destruct (k <? len)%nat; [| discriminate].
    destruct (S k <? len)%nat; [| discriminate].
    intros [= <-] [= <-]. lia.
  - intros t. rewrite in_map_iff. split.
    + intros (k & <- & Hk). apply in_seq in Hk.
      exists (Z.of_nat k). split; [lia |]. split; [reflexivity |].
      apply le_floor_iff. rewrite <- py_int_floor by exact Hd. fold m.
      assert (Z.of_nat k <= m / interval) by lia.
      transitivity (interval * (m / interval)); [nia |].
      apply Z.mul_div_le. lia.
    + intros (k & Hk & -> & Hle).
      exists (Z.to_nat k). split; [f_equal; lia |].
      apply in_seq. split; [lia |].
      apply le_floor_iff in Hle. rewrite <- py_int_floor in Hle by exact Hd.
      fold m in Hle.
      assert (k <= m / interval) by (apply Z.div_le_lower_bound; lia).
      lia.
  - reflexivity.
Qed.

Lemma interval_timestamps_bounded_witness :
  exists l,
    generate_interval_timestamps 95 30 = Some l /\
    l !! 0%nat = Some 0 /\
    (forall (k : nat) (a b : Z),
        l !! k = Some a -> l !! S k = Some b -> b - a = 30) /\
    (forall t : Z,
        In t l <->
        exists k : Z, 0 <= k /\ t = k * 30 /\ (inject_Z t <= 95)%Q) /\
    generate_interval_timestamps 95 30 = Some [0; 30; 60; 90].
Proof.
  apply (interval_timestamps_bounded 95 30).
  - lia.
  - unfold Qle; simpl; lia.
Defined.

(** ** Timestamp validation *)

Lemma valid_timestamps_In (timestamps : list Q) (duration t : Q) :
  In t (valid_timestamps timestamps duration) <->
  In t timestamps /\ (0 <= t)%Q /\ (t <= duration)%Q.
Proof.
  unfold valid_timestamps. rewrite filter_In, andb_true_iff, !num_le_iff.
  tauto.
Qed.

Lemma valid_timestamps_sublist (timestamps : list Q) (duration : Q) :
  valid_timestamps timestamps duration `sublist_of` timestamps.
Proof.
  induction timestamps as [| t ts IH]; simpl.
  - constructor.
  - destruct (num_le 0 t && num_le t duration); now constructor.
Qed.

Lemma sublist_In {A : Type} (l k : list A) (x : A) :
  l `sublist_of` k -> In x l -> In x k.
Proof.
  induction 1 as [| y l k Hsub IH | y l k Hsub IH]; simpl; tauto.
Qed.

Lemma StronglySorted_sublist {A : Type} (R : relation A) (l k : list A) :
  l `sublist_of` k -> StronglySorted R k -> StronglySorted R l.
Proof.
  induction 1 as [| x l k Hsub IH | x l k Hsub IH]; intros Hk.
  - constructor.
  - apply StronglySorted_inv in Hk as [Hk Hx]. constructor; [auto |].
    rewrite List.Forall_forall in *. intros y Hy. apply Hx.
    eapply sublist_In; eauto.
  - apply StronglySorted_inv in Hk as [Hk _]. auto.
Qed.

Lemma printable_iff (x : Q) :
  printable x = true <-> -86399999913600 <= py_int x <= 86399999999999.
Proof.
  unfold printable, timedelta_ok, MAX_DAYS.
  rewrite andb_true_iff, !Z.leb_le.
  pose proof (Z.mul_div_le (py_int x) 86400).
  pose proof (Z.mul_succ_div_gt (py_int x) 86400). lia.
Qed.

Lemma check_duration_opened (w : ProbeWorld) (timestamps : list Q) (duration : Q) :
  open_initial w = Returns true ->
  probe_duration w timestamps = Returns duration ->
  printable duration = true ->
  fst (check_duration w timestamps) =
    Returns (checked_of (valid_timestamps timestamps duration)).
Proof.
  intros Ho Hp Hd. unfold check_duration. rewrite Ho, Hp, Hd.
  destruct (valid_timestamps timestamps duration); reflexivity.
Qed.

(** When the [try] block ends without an exception, the function
    returns at once on an empty validated list and otherwise runs the
    loop on the validated list. *)
Lemma capture_screenshots_validated (w : CaptureWorld) (timestamps : list Q)
    (output_dir : string) (max_retries : nat) (fs : gmap string File)
    (duration : Q) :
  open_initial (probe w) = Returns true ->
  probe_duration (probe w) timestamps = Returns duration ->
  printable duration = true ->
  exists before : list Event,
    capture_screenshots w timestamps output_dir max_retries fs =
      match valid_timestamps timestamps duration with
      | [] => (Returns [], fs, before)
      | valid =>
          let '(images, fs', ev) :=
            capture_all w (abs_output_dir w output_dir) max_retries valid fs in
          (images, fs', before ++ ev)
      end.
Proof.
  intros Ho Hp Hd. unfold capture_screenshots, check_duration.
  rewrite Ho, Hp, Hd.
  destruct (valid_timestamps timestamps duration) as [| t valid];
    eexists; reflexivity.
Qed.

(** C1 (as the code has it). The validation of [capture_screenshots]
    keeps a sublist of the requested timestamps (same elements, same
    relative order, so an ascending request stays ascending); what it
    keeps is exactly the requested timestamps [t] with
    [0 <= t <= duration]; entries out of range are dropped, not replaced
    by a bound.  When the probe yields [duration] and the duration can be
    printed (fewer than 1000000000 days), that list is what the [try]
    block hands on: [capture_screenshots] returns at once when it is
    empty and runs the capture loop on it otherwise. *)
Theorem valid_timestamps_in_range (timestamps : list Q) (duration : Q) :
  valid_timestamps timestamps duration `sublist_of` timestamps /\
  (forall t : Q,
      In t (valid_timestamps timestamps duration) <->
      In t timestamps /\ (0 <= t)%Q /\ (t <= duration)%Q) /\
  (StronglySorted Qle timestamps ->
   StronglySorted Qle (valid_timestamps timestamps duration)) /\
  valid_timestamps [10; 60; 130]%Q 120 = [10; 60]%Q /\
  (forall (w : CaptureWorld) (output_dir : string) (max_retries : nat)
          (fs : gmap string File),
      open_initial (probe w) = Returns true ->
      probe_duration (probe w) timestamps = Returns duration ->
      printable duration = true ->
      fst (check_duration (probe w) timestamps) =
        Returns (checked_of (valid_timestamps timestamps duration)) /\
      exists before : list Event,
        capture_screenshots w timestamps output_dir max_retries fs =
          match valid_timestamps timestamps duration with
          | [] => (Returns [], fs, before)
          | valid =>
              let '(images, fs', ev) :=
                capture_all w (abs_output_dir w output_dir) max_retries
                  valid fs in
              (images, fs', before ++ ev)
          end).
Proof.
  split; [apply valid_timestamps_sublist |].
  split; [intros t; apply valid_timestamps_In |].
  split; [apply StronglySorted_sublist, valid_timestamps_sublist |].
  split; [reflexivity |].
  intros w output_dir max_retries fs Ho Hp Hd. split.
  - now apply check_duration_opened.
  - now apply capture_screenshots_validated.
Qed.

Lemma valid_timestamps_in_range_witness :
  fst (check_duration local_probe [10; 60; 130]%Q) =
    Returns (Proceed [10; 60]%Q) /\
  exists before : list Event,
    capture_screenshots all_captured [10; 60; 130]%Q DEFAULT_OUTPUT_DIR
      DEFAULT_MAX_RETRIES ∅ =
      (let '(images, fs', ev) :=
         capture_all all_captured
           (abs_output_dir all_captured DEFAULT_OUTPUT_DIR)
           DEFAULT_MAX_RETRIES [10; 60]%Q ∅ in
       (images, fs', before ++ ev)).
Proof.
  apply (proj2 (proj2 (proj2 (proj2
           (valid_timestamps_in_range [10; 60; 130]%Q (inject_Z 3600 / 30)))))
           all_captured DEFAULT_OUTPUT_DIR DEFAULT_MAX_RETRIES ∅);
    reflexivity.
Defined.

(** The claim as it is written fails for a duration that cannot be
    printed: the header of the file gives 1000000000 days, the message of
    line 200 raises inside the [try], and the loop runs on the whole
    request [-5, 10], so a capture is made for the timestamp -5. *)
Lemma unprintable_duration_not_validated :
  ~ (forall (w : CaptureWorld) (timestamps : list Q) (duration : Q)
            (output_dir : string) (max_retries : nat) (fs : gmap string File)
            (i n : nat) (t : Q),
        open_initial (probe w) = Returns true ->
        probe_duration (probe w) timestamps = Returns duration ->
        In (Capturing i n t)
           (snd (capture_screenshots w timestamps output_dir max_retries fs)) ->
        (0 <= t)%Q /\ (t <= duration)%Q).
Proof.
  intros H.
  destruct (H (world_of eon_probe (fun _ _ => ffmpeg_works)) [-5; 10]%Q
              (inject_Z 86400000000000 / 1)%Q DEFAULT_OUTPUT_DIR
              DEFAULT_MAX_RETRIES ∅ 1%nat 2%nat (-5)%Q) as [Hneg _].
  - reflexivity.
  - reflexivity.
  - vm_compute. tauto.
  - revert Hneg. unfold Qle. simpl. lia.
Qed.

(** ** The duration probe *)

Lemma py_max_spec (l : list Q) (m : Q) :
  py_max l = Some m -> In m l /\ forall t : Q, In t l -> (t <= m)%Q.
Proof.
  revert m. induction l as [| x l IH]; intros m; simpl; [discriminate |].
  destruct (py_max l) as [m' |] eqn:E.
  - destruct (IH m' eq_refl) as [Hin Hmax].
    destruct (num_lt x m') eqn:Hlt; intros [= <-].
    + apply num_lt_iff in Hlt. split; [now right |].
      intros t [<- | Ht]; [now apply Qlt_le_weak | auto].
    + assert (Hle : (m' <= x)%Q).
      { apply Qnot_lt_le. intros H. apply num_lt_iff in H. congruence. }
      split; [now left |].
      intros t [<- | Ht]; [apply Qle_refl |].
      eapply Qle_trans; [apply Hmax, Ht | exact Hle].
  - intros [= <-]. destruct l; [| simpl in E; destruct (py_max l); discriminate].
    split; [now left |]. intros t [<- | []]. apply Qle_refl.
Qed.

Lemma py_max_nonempty (l : list Q) : l <> [] -> exists m : Q, py_max l = Some m.
Proof.
  destruct l as [| x l]; [congruence |]. intros _. simpl.
  destruct (py_max l); eauto.
Qed.



(** ** Early exits of [capture_screenshots] *)

Lemma capture_screenshots_early (w : CaptureWorld) (timestamps : list Q)
    (output_dir : string) (max_retries : nat) (fs : gmap string File) :
  fst (check_duration (probe w) timestamps) = Returns EarlyReturn ->
  capture_screenshots w timestamps output_dir max_retries fs =
    (Returns [], fs, snd (check_duration (probe w) timestamps)).
Proof.
  unfold capture_screenshots.
  destruct (check_duration (probe w) timestamps) as [[[] |] ev]; simpl;
    intros H; try discriminate. reflexivity.
Qed.

Lemma capture_and_assemble_nothing (cw : CaptureWorld) (pw : PdfWorld)
    (timestamps : list Q) (video_title : list N) (output_pdf : string)
    (fs fs' : gmap string File) (ev : list Event) :
  capture_screenshots cw timestamps DEFAULT_OUTPUT_DIR DEFAULT_MAX_RETRIES fs =
    (Returns [], fs', ev) ->
  capture_and_assemble cw pw timestamps video_title output_pdf fs =
    (Returns None, fs', ev ++ [NoScreenshots]).
Proof. intros H. unfold capture_and_assemble. rewrite H. reflexivity. Qed.

(** C8 (as the code has it). When the source cannot be opened, and when
    the probed duration can be printed and the validated list is empty,
    [capture_screenshots] returns the empty image list with the file
    system untouched and no attempt made: the only events are the error
    message, or the duration, the optional warning and the
    no-valid-timestamps message.  In both cases the caller does not
    assemble a document. *)
Theorem no_valid_timestamps_no_capture (w : CaptureWorld) (timestamps : list Q)
    (output_dir : string) (max_retries : nat) (fs : gmap string File) :
  (open_initial (probe w) = Returns false ->
   capture_screenshots w timestamps output_dir max_retries fs =
     (Returns [], fs, [CannotOpenInitial])) /\
  (forall duration : Q,
      open_initial (probe w) = Returns true ->
      probe_duration (probe w) timestamps = Returns duration ->
      printable duration = true ->
      valid_timestamps timestamps duration = [] ->
      exists warning : list Event,
        capture_screenshots w timestamps output_dir max_retries fs =
          (Returns [], fs,
           VideoDuration duration :: warning ++ [NoValidTimestamps]) /\
        (warning = [] \/
         warning = [OutsideDuration (length timestamps) duration])) /\
  (forall (pw : PdfWorld) (video_title : list N) (output_pdf : string),
      open_initial (probe w) = Returns false \/
      (exists duration : Q,
          open_initial (probe w) = Returns true /\
          probe_duration (probe w) timestamps = Returns duration /\
          printable duration = true /\
          valid_timestamps timestamps duration = []) ->
      exists ev : list Event,
        capture_and_assemble w pw timestamps video_title output_pdf fs =
          (Returns None, fs, ev ++ [NoScreenshots]) /\
        forall (i n : nat) (t : Q), ~ In (Capturing i n t) ev).
Proof.
  assert (H1 : forall dir mr, open_initial (probe w) = Returns false ->
             capture_screenshots w timestamps dir mr fs =
               (Returns [], fs, [CannotOpenInitial])).
  { intros dir mr Ho. rewrite capture_screenshots_early;
      unfold check_duration; rewrite Ho; reflexivity. }
  assert (H2 : forall dir mr duration,
             open_initial (probe w) = Returns true ->
             probe_duration (probe w) timestamps = Returns duration ->
             printable duration = true ->
             valid_timestamps timestamps duration = [] ->
             exists warning : list Event,
               capture_screenshots w timestamps dir mr fs =
                 (Returns [], fs,
                  VideoDuration duration :: warning ++ [NoValidTimestamps]) /\
               (warning = [] \/
                warning = [OutsideDuration (length timestamps) duration])).
  { intros dir mr duration Ho Hp Hd Hv.
    rewrite capture_screenshots_early;
      unfold check_duration; rewrite Ho, Hp, Hd, Hv; [| reflexivity].
    simpl. eexists. split; [reflexivity |].
    destruct (0 <? length timestamps)%nat; [right | left]; [| reflexivity].
    now rewrite Nat.sub_0_r. }
  split; [apply H1 |]. split; [apply H2 |].
  intros pw video_title output_pdf [Ho | (duration & Ho & Hp & Hd & Hv)].
  - exists [CannotOpenInitial]. split.
    + apply capture_and_assemble_nothing, H1, Ho.
    + intros i n t [H | []]. discriminate H.
  - destruct (H2 DEFAULT_OUTPUT_DIR DEFAULT_MAX_RETRIES duration Ho Hp Hd Hv)
      as (warning & Hc & Hw).
    eexists. split.
    + apply capture_and_assemble_nothing, Hc.
    + intros i n t [H | H]; [discriminate H |].
      apply in_app_or in H as [H | [H | []]]; [| discriminate H].
      destruct Hw as [-> | ->]; [destruct H |].
      destruct H as [H | []]. discriminate H.
Qed.

Lemma no_valid_timestamps_no_capture_witness :
  capture_screenshots (world_of closed_probe (fun _ _ => ffmpeg_works))
    [10; 60]%Q DEFAULT_OUTPUT_DIR DEFAULT_MAX_RETRIES ∅ =
    (Returns [], ∅, [CannotOpenInitial]) /\
  exists warning : list Event,
    capture_screenshots (world_of local_probe (fun _ _ => ffmpeg_works))
      [130; 200]%Q DEFAULT_OUTPUT_DIR DEFAULT_MAX_RETRIES ∅ =
      (Returns [], ∅,
       VideoDuration (inject_Z 3600 / 30) :: warning ++ [NoValidTimestamps]) /\
    (warning = [] \/
     warning = [OutsideDuration (length [130; 200]%Q) (inject_Z 3600 / 30)]).
Proof.
  split.
  - apply (proj1 (no_valid_timestamps_no_capture
                    (world_of closed_probe (fun _ _ => ffmpeg_works))
                    [10; 60]%Q DEFAULT_OUTPUT_DIR DEFAULT_MAX_RETRIES ∅)).
    reflexivity.
  - apply (proj1 (proj2 (no_valid_timestamps_no_capture
                    (world_of local_probe (fun _ _ => ffmpeg_works))
                    [130; 200]%Q DEFAULT_OUTPUT_DIR DEFAULT_MAX_RETRIES ∅)));
      reflexivity.
Defined.

(** The claim as it is written fails for a duration that cannot be
    printed: no requested timestamp lies within the 1000000000 days the
    probe yields for the request [-5], yet the message of line 200 raises
    inside the [try], the loop is entered and an image is captured for
    -5. *)
Lemma unprintable_duration_enters_loop :
  ~ (forall (w : CaptureWorld) (timestamps : list Q) (duration : Q)
            (output_dir : string) (max_retries : nat) (fs : gmap string File),
        open_initial (probe w) = Returns true ->
        probe_duration (probe w) timestamps = Returns duration ->
        valid_timestamps timestamps duration = [] ->
        fst (fst (capture_screenshots w timestamps output_dir max_retries fs)) =
          Returns [] /\
        forall (i n : nat) (t : Q),
          ~ In (Capturing i n t)
               (snd (capture_screenshots w timestamps output_dir
                       max_retries fs))).
Proof.
  intros H.
  destruct (H (world_of eon_probe (fun _ _ => ffmpeg_works)) [-5]%Q
              (inject_Z 86400000000000 / 1)%Q DEFAULT_OUTPUT_DIR
              DEFAULT_MAX_RETRIES ∅) as [Himgs _]; try reflexivity.
  vm_compute in Himgs. discriminate Himgs.
Qed.

(** ** An exception in the probe *)




(** ** File names *)

Lemma append_nil (s : string) : "" +:+ s = s.
Proof. reflexivity. Qed.

Lemma append_cons (c : ascii) (a s : string) :
  String c a +:+ s = String c (a +:+ s).
Proof. reflexivity. Qed.

Ltac simpl_append := rewrite ?append_cons, ?append_nil in *.

Lemma append_assoc (a b c : string) : (a +:+ b) +:+ c = a +:+ (b +:+ c).
Proof.
  induction a as [| x a IH]; simpl_append; [reflexivity | now rewrite IH].
Qed.

Lemma append_inv_head (a x y : string) : a +:+ x = a +:+ y -> x = y.
Proof.
  induction a as [| c a IH]; simpl_append; [auto | intros [= H]; auto].
Qed.

Lemma length_append (a b : string) :
  String.length (a +:+ b) = (String.length a + String.length b)%nat.
Proof.
  induction a as [| c a IH]; simpl_append; simpl; [reflexivity | now rewrite IH].
Qed.

Lemma append_inv_tail (x y a : string) : x +:+ a = y +:+ a -> x = y.
Proof.
  intros H.
  assert (Hl : String.length x = String.length y).
  { apply (f_equal String.length) in H. rewrite !length_append in H. lia. }
  revert y H Hl. induction x as [| c x IH]; intros [| d y]; simpl;
    intros H Hl; try discriminate; [reflexivity |].
  simpl_append. injection H as -> H. f_equal. apply IH; [exact H | lia].
Qed.

Lemma decimal_value_append (acc : N) (a b : string) :
  decimal_value acc (a +:+ b) = decimal_value (decimal_value acc a) b.
Proof.
  revert acc. induction a as [| c a IH]; intros acc; simpl_append; simpl; auto.
Qed.

Lemma all_digits_append (a b : string) :
  all_digits (a +:+ b) = all_digits a && all_digits b.
Proof.
  induction a as [| c a IH]; simpl_append; simpl; [reflexivity |].
  now rewrite IH, andb_assoc.
Qed.

Lemma pretty_N_char_digit (x : N) :
  (x < 10)%N ->
  is_digit (pretty_N_char x) = true /\ (N_of_ascii (pretty_N_char x) - 48 = x)%N.
Proof.
  intros H.
  assert (x = 0 \/ x = 1 \/ x = 2 \/ x = 3 \/ x = 4 \/ x = 5 \/ x = 6
          \/ x = 7 \/ x = 8 \/ x = 9)%N as Hx by lia.
  repeat (destruct Hx as [-> | Hx]; [split; reflexivity |]).
  subst x. split; reflexivity.
Qed.

Lemma pretty_N_go_append (x : N) (s : string) :
  pretty_N_go x s = pretty_N_go x "" +:+ s.
Proof.
  revert s. induction (N.lt_wf_0 x) as [x _ IH]. intros s.
  destruct (N.eq_dec x 0%N) as [-> | Hx].
  - now rewrite !pretty_N_go_0.
  - assert (Hlt : (x `div` 10 < x)%N) by (apply N.div_lt; lia).
    rewrite !(pretty_N_go_step x) by lia.
    rewrite (IH _ Hlt (String _ s)), (IH _ Hlt (String _ "")).
    now rewrite append_assoc.
Qed.

Lemma pretty_N_go_digits (x : N) :
  all_digits (pretty_N_go x "") = true /\
  decimal_value 0 (pretty_N_go x "") = x.
Proof.
  induction (N.lt_wf_0 x) as [x _ IH].
  destruct (N.eq_dec x 0%N) as [-> | Hx].
  - rewrite pretty_N_go_0. split; reflexivity.
  - assert (Hlt : (x `div` 10 < x)%N) by (apply N.div_lt; lia).
    rewrite pretty_N_go_step by lia. rewrite pretty_N_go_append.
    destruct (IH _ Hlt) as [Hd Hv].
    destruct (pretty_N_char_digit (x `mod` 10)) as [Hc Hn].
    { apply N.mod_lt. lia. }
    rewrite all_digits_append, decimal_value_append, Hd, Hv. simpl.
    rewrite Hc, Hn. split; [reflexivity |].
    rewrite (N.div_mod x 10) at 3 by lia. lia.
Qed.

Lemma pretty_nat_digits (i : nat) :
  all_digits (pretty i) = true /\ decimal_value 0 (pretty i) = N.of_nat i.
Proof.
  unfold pretty, pretty_nat, pretty, pretty_N.
  destruct (decide (N.of_nat i = 0%N)) as [-> | _].
  - split; reflexivity.
  - apply pretty_N_go_digits.
Qed.

Lemma zeros_digits (k : nat) (s : string) :
  all_digits (string_of_list_ascii (replicate k "0"%char) +:+ s) = all_digits s /\
  decimal_value 0 (string_of_list_ascii (replicate k "0"%char) +:+ s) =
    decimal_value 0 s.
Proof.
  induction k as [| k IH]; simpl; simpl_append; [split; reflexivity | exact IH].
Qed.

Lemma zero_pad3_digits (i : nat) :
  all_digits (zero_pad3 i) = true /\ decimal_value 0 (zero_pad3 i) = N.of_nat i.
Proof.
  unfold zero_pad3.
  destruct (zeros_digits (3 - String.length (pretty i)) (pretty i)) as [-> ->].
  apply pretty_nat_digits.
Qed.

Lemma zero_pad3_inj (i j : nat) : zero_pad3 i = zero_pad3 j -> i = j.
Proof.
  intros H. apply Nat2N.inj.
  rewrite <- (proj2 (zero_pad3_digits i)), <- (proj2 (zero_pad3_digits j)).
  now rewrite H.
Qed.

Lemma digits_delimited (a b x y : string) (c : ascii) :
  all_digits a = true -> all_digits b = true -> is_digit c = false ->
  a +:+ String c x = b +:+ String c y -> a = b /\ x = y.
Proof.
  intros Ha Hb Hc. revert b Hb.
  induction a as [| d a IH]; intros [| e b] Hb; simpl in *; simpl_append.
  - intros [= ->]. auto.
  - intros [= <- _]. apply andb_true_iff in Hb as [Hb _]. congruence.
  - intros [= -> _]. apply andb_true_iff in Ha as [Ha _]. congruence.
  - intros [= -> H]. apply andb_true_iff in Ha as [_ Ha].
    apply andb_true_iff in Hb as [_ Hb].
    destruct (IH Ha b Hb H) as [-> ->]. auto.
Qed.

(** Two file names agree exactly when their sequence indices agree and
    their timestamps have the same integer part. *)
Lemma screenshot_name_eq_iff (i j : nat) (t u : Q) :
  screenshot_name i t = screenshot_name j u <-> i = j /\ py_int t = py_int u.
Proof.
  split.
  - unfold screenshot_name. intros H.
    apply (append_inv_head "screenshot_") in H.
    apply digits_delimited in H as [Hi Ht];
      try apply zero_pad3_digits; [| reflexivity].
    split; [now apply zero_pad3_inj |].
    apply append_inv_tail in Ht. now apply (inj pretty) in Ht.
  - intros [-> Ht]. unfold screenshot_name. now rewrite Ht.
Qed.

Lemma path_join_relative (a b : string) :
  isabs b = false -> exists prefix : string, forall b' : string,
    isabs b' = false -> path_join a b' = prefix +:+ b'.
Proof.
  intros _. unfold path_join.
  destruct ((String.length a =? 0)%nat || ends_with_slash a).
  - exists a. now intros b' ->.
  - exists (a +:+ "/"). intros b' ->. now rewrite append_assoc.
Qed.

Lemma image_path_inj (output_dir : string) (i j : nat) (t u : Q) :
  image_path output_dir (i, t) = image_path output_dir (j, u) ->
  i = j /\ py_int t = py_int u.
Proof.
  unfold image_path. simpl. intros H.
  destruct (path_join_relative output_dir (screenshot_name i t) eq_refl)
    as [prefix Hp].
  rewrite !Hp in H by reflexivity.
  apply append_inv_head in H. now apply screenshot_name_eq_iff.
Qed.

(** ** The retry loop *)

Lemma attempts_made_app (j : nat) (ev ev' : list Event) :
  attempts_made j (ev ++ ev') = (attempts_made j ev + attempts_made j ev')%nat.
Proof. unfold attempts_made. now rewrite List.filter_app, length_app. Qed.

Lemma attempts_made_quiet (j : nat) (ev : list Event) :
  quiet ev -> attempts_made j ev = 0%nat.
Proof.
  unfold attempts_made. induction 1 as [| e ev He _ IH]; simpl; [reflexivity |].
  now rewrite He.
Qed.

Lemma quiet_retry_wait (retry max_retries : nat) :
  quiet (retry_wait retry max_retries).
Proof.
  unfold retry_wait. destruct (retry <? max_retries - 1)%nat;
    repeat constructor.
Qed.

Lemma quiet_cons (e : Event) (ev : list Event) :
  (forall j : nat, is_capturing j e = false) -> quiet ev -> quiet (e :: ev).
Proof. now constructor. Qed.

Ltac quiet_tac :=
  repeat match goal with
    | |- quiet (retry_wait _ _) => apply quiet_retry_wait
    | |- quiet (_ :: _) => apply quiet_cons; [intros ?; reflexivity |]
    | |- quiet [] => constructor
    end.

Lemma decode_seek_quiet (d : DecodeOutcome) (t : Q) (p : string)
    (retry max_retries : nat) (fs : gmap string File) :
  quiet (snd (decode_seek d t p retry max_retries fs)).
Proof.
  unfold decode_seek.
  destruct d as [| | fps ret written]; simpl; try quiet_tac.
  destruct (float_mul t fps) as [product |]; simpl; try quiet_tac.
  destruct ret; simpl; try quiet_tac.
  destruct (exists_nonempty (write_image p written fs) p); simpl; quiet_tac.
Qed.

(** A pass whose message of line 221 cannot be formatted fails without
    touching a file and without a [Capturing] message. *)
Lemma attempt_unprintable (a : Attempt) (i n : nat) (t : Q) (p : string)
    (retry max_retries : nat) (fs : gmap string File) :
  printable t = false ->
  attempt a i n t p retry max_retries fs =
    (false, fs, CaptureError (retry + 1) max_retries
                  :: retry_wait retry max_retries).
Proof. intros H. unfold attempt. now rewrite H. Qed.

(** Any other pass through the loop body prints exactly one [Capturing]
    message, for its own index. *)
Lemma attempt_trace (a : Attempt) (i n : nat) (t : Q) (p : string)
    (retry max_retries : nat) (fs : gmap string File) :
  printable t = true ->
  exists ev : list Event,
    snd (attempt a i n t p retry max_retries fs) = Capturing i n t :: ev /\
    quiet ev.
Proof.
  intros Ht. unfold attempt, prepend. rewrite Ht.
  pose proof (decode_seek_quiet (decode a) t p retry max_retries) as Hd.
  destruct (ffmpeg a) as [| rc written | written |].
  - specialize (Hd fs).
    destruct (decode_seek _ _ _ _ _ fs) as [[ok fs'] ev]. simpl in *. eauto.
  - destruct (_ && _).
    + eexists. split; [reflexivity | quiet_tac].
    + specialize (Hd (write_image p written fs)).
      destruct (decode_seek _ _ _ _ _ _) as [[ok fs'] ev]. simpl in *.
      eexists. split; [reflexivity | quiet_tac; exact Hd].
  - specialize (Hd (write_image p written fs)).
    destruct (decode_seek _ _ _ _ _ _) as [[ok fs'] ev]. simpl in *.
    eexists. split; [reflexivity | quiet_tac; exact Hd].
  - eexists. split; [reflexivity | quiet_tac].
Qed.

Lemma attempt_attempts_made (a : Attempt) (i n : nat) (t : Q) (p : string)
    (retry max_retries : nat) (fs : gmap string File) (j : nat) :
  attempts_made j (snd (attempt a i n t p retry max_retries fs)) =
    if printable t && (j =? i)%nat then 1%nat else 0%nat.
Proof.
  destruct (printable t) eqn:Ht.
  - destruct (attempt_trace a i n t p retry max_retries fs Ht) as (ev & -> & Hq).
    change (Capturing i n t :: ev) with ([Capturing i n t] ++ ev).
    rewrite attempts_made_app, (attempts_made_quiet _ _ Hq).
    unfold attempts_made. simpl. destruct (j =? i)%nat; reflexivity.
  - rewrite attempt_unprintable by exact Ht. simpl.
    apply attempts_made_quiet. quiet_tac.
Qed.

(** A pass can only succeed for a timestamp that can be printed. *)
Lemma attempt_success_printable (a : Attempt) (i n : nat) (t : Q) (p : string)
    (retry max_retries : nat) (fs : gmap string File) :
  fst (fst (attempt a i n t p retry max_retries fs)) = true ->
  printable t = true.
Proof.
  destruct (printable t) eqn:Ht; [reflexivity |].
  now rewrite attempt_unprintable by exact Ht.
Qed.

Lemma captured_timestamps_app (ev ev' : list Event) :
  captured_timestamps (ev ++ ev') =
    captured_timestamps ev ++ captured_timestamps ev'.
Proof. apply omap_app. Qed.

Lemma captured_retry_wait (retry max_retries : nat) :
  captured_timestamps (retry_wait retry max_retries) = [].
Proof. unfold retry_wait. now destruct (retry <? max_retries - 1)%nat. Qed.

Lemma decode_seek_captured (d : DecodeOutcome) (t : Q) (p : string)
    (retry max_retries : nat) (fs : gmap string File) :
  let r := decode_seek d t p retry max_retries fs in
  captured_timestamps (snd r) = if fst (fst r) then [t] else [].
Proof.
  pose proof (captured_retry_wait retry max_retries) as Hw.
  unfold decode_seek, captured_timestamps in *.
  destruct d as [| | fps ret written]; cbn; rewrite ?Hw; try reflexivity.
  destruct (float_mul t fps) as [product |]; cbn; rewrite ?Hw;
    try reflexivity.
  destruct ret; cbn; rewrite ?Hw; try reflexivity.
  destruct (exists_nonempty (write_image p written fs) p); cbn; rewrite ?Hw;
    reflexivity.
Qed.

(** A pass prints the [Captured] message exactly when it succeeds. *)
Lemma attempt_captured (a : Attempt) (i n : nat) (t : Q) (p : string)
    (retry max_retries : nat) (fs : gmap string File) :
  let r := attempt a i n t p retry max_retries fs in
  captured_timestamps (snd r) = if fst (fst r) then [t] else [].
Proof.
  pose proof (captured_retry_wait retry max_retries) as Hw.
  pose proof (decode_seek_captured (decode a) t p retry max_retries) as Hd.
  unfold attempt, prepend, captured_timestamps in *.
  destruct (printable t); [| cbn; now rewrite Hw].
  destruct (ffmpeg a) as [| rc written | written |].
  - specialize (Hd fs).
    destruct (decode_seek _ _ _ _ _ fs) as [[ok fs'] ev]. exact Hd.
  - destruct (_ && _); [reflexivity |].
    specialize (Hd (write_image p written fs)).
    destruct (decode_seek _ _ _ _ _ _) as [[ok fs'] ev]. exact Hd.
  - specialize (Hd (write_image p written fs)).
    destruct (decode_seek _ _ _ _ _ _) as [[ok fs'] ev]. exact Hd.
  - cbn. now rewrite Hw.
Qed.

(** The retry loop for one timestamp: the attempts [att] by retry number,
    the sequence index [i] of [n], the timestamp [t] and its path [p]. *)
Section OneTimestamp.

Variable att : nat -> Attempt.
Variables i n : nat.
Variable t : Q.
Variable p : string.
Variable max_retries : nat.

(** The retry loop makes at most one pass per retry number, all for its
    own index; when every pass fails, it shows one [Capturing] message
    per retry number for a timestamp that can be printed, and none for
    one that cannot. *)
Lemma retry_loop_attempts (retries : list nat) (fs : gmap string File)
    (j : nat) :
  let r := retry_loop att i n t p max_retries retries fs in
  (j <> i -> attempts_made j (snd r) = 0%nat) /\
  (attempts_made i (snd r) <= length retries)%nat /\
  (every_attempt_fails att i n t p max_retries retries fs = true ->
   fst (fst r) = false /\
   attempts_made i (snd r) =
     if printable t then length retries else 0%nat).
Proof.
  revert fs. induction retries as [| retry rest IH]; intros fs; simpl.
  - repeat split; auto. now destruct (printable t).
  - pose proof (attempt_attempts_made (att retry) i n t p retry max_retries fs)
      as Ha.
    destruct (attempt (att retry) i n t p retry max_retries fs)
      as [[ok fs'] ev]. simpl in Ha.
    destruct ok; simpl.
    + split; [| split].
      * intros Hj. rewrite Ha. apply Nat.eqb_neq in Hj as ->.
        now rewrite andb_false_r.
      * rewrite Ha, Nat.eqb_refl. destruct (printable t); simpl; lia.
      * discriminate.
    + specialize (IH fs'). simpl in IH. destruct IH as (IH1 & IH2 & IH3).
      destruct (retry_loop att i n t p max_retries rest fs') as [[ok' fs''] ev'].
      simpl in *. rewrite !attempts_made_app, !Ha, Nat.eqb_refl.
      split; [| split].
      * intros Hj. rewrite (IH1 Hj). apply Nat.eqb_neq in Hj as ->.
        now rewrite andb_false_r.
      * destruct (printable t); simpl; lia.
      * intros H. destruct (IH3 H) as [-> ->].
        split; [reflexivity |]. now destruct (printable t).
Qed.

(** Every pass fails exactly when the loop ends with [success] false. *)
Lemma every_attempt_fails_retry_loop (retries : list nat)
    (fs : gmap string File) :
  every_attempt_fails att i n t p max_retries retries fs =
    negb (fst (fst (retry_loop att i n t p max_retries retries fs))).
Proof.
  revert fs. induction retries as [| retry rest IH]; intros fs; simpl;
    [reflexivity |].
  destruct (attempt (att retry) i n t p retry max_retries fs) as [[[] fs'] ev];
    simpl; [reflexivity |].
  rewrite IH.
  now destruct (retry_loop att i n t p max_retries rest fs') as [[ok' fs''] ev'].
Qed.

(** For a timestamp that cannot be printed every pass fails, and no file
    is touched. *)
Lemma retry_loop_unprintable (retries : list nat) (fs : gmap string File) :
  printable t = false ->
  fst (retry_loop att i n t p max_retries retries fs) = (false, fs).
Proof.
  intros Ht. induction retries as [| retry rest IH]; simpl; [reflexivity |].
  rewrite attempt_unprintable by exact Ht.
  destruct (retry_loop att i n t p max_retries rest fs) as [[ok' fs''] ev'].
  simpl in *. exact IH.
Qed.

(** The loop prints the [Captured] message exactly when it ends with
    [success] true. *)
Lemma retry_loop_captured (retries : list nat) (fs : gmap string File) :
  let r := retry_loop att i n t p max_retries retries fs in
  captured_timestamps (snd r) = if fst (fst r) then [t] else [].
Proof.
  revert fs. induction retries as [| retry rest IH]; intros fs; simpl;
    [reflexivity |].
  pose proof (attempt_captured (att retry) i n t p retry max_retries fs) as Ha.
  destruct (attempt (att retry) i n t p retry max_retries fs)
    as [[ok fs'] ev]. simpl in Ha.
  destruct ok; simpl; [exact Ha |].
  specialize (IH fs').
  destruct (retry_loop att i n t p max_retries rest fs') as [[ok' fs''] ev'].
  simpl in *. now rewrite captured_timestamps_app, Ha, IH.
Qed.

End OneTimestamp.

(** What is done for one timestamp: the passes are for its own index;
    the result is its image, or nothing, or (only for a timestamp that
    cannot be printed, and always for such a one) an exception; the
    console reports it as captured exactly when the image is
    returned. *)
Lemma capture_one_spec (att : nat -> Attempt) (output_dir : string)
    (i n : nat) (t : Q) (max_retries : nat) (fs : gmap string File) :
  let r := capture_one att output_dir i n t max_retries fs in
  (forall j : nat, j <> i -> attempts_made j (snd r) = 0%nat) /\
  ((fst (fst r) = Returns [] /\ captured_timestamps (snd r) = [] /\
    printable t = true) \/
   (fst (fst r) = Returns [image_path output_dir (i, t)] /\
    captured_timestamps (snd r) = [t] /\ printable t = true) \/
   (fst r = (Raises, fs) /\ captured_timestamps (snd r) = [] /\
    printable t = false /\ attempts_made i (snd r) = 0%nat)) /\
  (printable t = true ->
   every_attempt_fails att i n t (image_path output_dir (i, t)) max_retries
     (seq 0 max_retries) fs = true ->
   exists (fs' : gmap string File) (ev : list Event),
     r = (Returns [], fs', ev ++ [FailedCapture t max_retries]) /\
     attempts_made i ev = max_retries).
Proof.
  unfold capture_one, image_path. simpl.
  set (p := path_join output_dir (screenshot_name i t)).
  pose proof (fun j => retry_loop_attempts att i n t p max_retries
                         (seq 0 max_retries) fs j) as H.
  pose proof (retry_loop_captured att i n t p max_retries
                (seq 0 max_retries) fs) as Hc.
  pose proof (retry_loop_unprintable att i n t p max_retries
                (seq 0 max_retries) fs) as Hu.
  pose proof (every_attempt_fails_retry_loop att i n t p max_retries
                (seq 0 max_retries) fs) as He.
  rewrite length_seq in H.
  destruct (retry_loop att i n t p max_retries (seq 0 max_retries) fs)
    as [[ok fs'] ev]. simpl in H, Hc, Hu, He.
  destruct ok; simpl.
  - split; [intros j Hj; now apply (H j) |]. split.
    + right. left. split; [reflexivity |]. split; [exact Hc |].
      destruct (printable t); [reflexivity |].
      specialize (Hu eq_refl). discriminate Hu.
    + intros _ Hf. rewrite He in Hf. discriminate Hf.
  - destruct (printable t) eqn:Ht; simpl.
    + split; [| split].
      * intros j Hj. rewrite attempts_made_app. destruct (H j) as (-> & _); auto.
      * left. split; [reflexivity |]. split; [| reflexivity].
        now rewrite captured_timestamps_app, Hc.
      * intros _ Hf. destruct (H i) as (_ & _ & H3).
        destruct (H3 Hf) as [_ Hn]. eauto.
    + split; [intros j Hj; now apply (H j) |]. split; [| discriminate].
      right. right. specialize (Hu eq_refl). injection Hu as <-.
      split; [reflexivity |]. split; [exact Hc |]. split; [reflexivity |].
      destruct (H i) as (_ & _ & H3). rewrite He in H3.
      now destruct (H3 eq_refl).
Qed.

Lemma enumerate_range (s : nat) (ts : list Q) (j : nat) (t : Q) :
  In (j, t) (enumerate s ts) -> (s <= j < s + length ts)%nat.
Proof.
  revert s. induction ts as [| u ts IH]; intros s; simpl; [tauto |].
  intros [[= <- <-] | H]; [lia |]. apply IH in H. lia.
Qed.

Lemma enumerate_snd (s : nat) (ts : list Q) :
  List.map snd (enumerate s ts) = ts.
Proof.
  revert s. induction ts as [| u ts IH]; intros s; simpl;
    [reflexivity | now rewrite IH].
Qed.

(** The passes the loop makes are for its own indices.  When it returns,
    what it returns is the paths of some of the enumerated timestamps, in
    their order, and those are the timestamps the console reports as
    captured. *)
Lemma capture_loop_spec (att : nat -> nat -> Attempt) (output_dir : string)
    (n max_retries s : nat) (ts : list Q) (fs : gmap string File) :
  let r := capture_loop att output_dir n max_retries s ts fs in
  (forall j : nat, (j < s \/ s + length ts <= j)%nat ->
                   attempts_made j (snd r) = 0%nat) /\
  (forall imgs : list string,
      fst (fst r) = Returns imgs ->
      exists survivors : list (nat * Q),
        survivors `sublist_of` enumerate s ts /\
        imgs = List.map (image_path output_dir) survivors /\
        captured_timestamps (snd r) = List.map snd survivors).
Proof.
  revert s fs. induction ts as [| t ts IH]; intros s fs; simpl.
  - split; [reflexivity |]. intros imgs [= <-].
    exists []. split; [constructor | split; reflexivity].
  - destruct (capture_one_spec (att s) output_dir s n t max_retries fs)
      as (H1 & H2 & _).
    destruct (capture_one (att s) output_dir s n t max_retries fs)
      as [[[imgs |] fs'] ev]; simpl in H1, H2.
    + destruct (IH (S s) fs') as (I1 & I2).
      destruct (capture_loop att output_dir n max_retries (S s) ts fs')
        as [[more fs''] ev']. simpl in *.
      split.
      * intros j Hj. rewrite attempts_made_app, H1, I1 by lia. reflexivity.
      * intros imgs0 Himgs0. destruct more as [imgs' |]; [| discriminate].
        simpl in Himgs0. injection Himgs0 as <-.
        destruct (I2 imgs' eq_refl) as (surv & Hsub & -> & Hcap).
        rewrite captured_timestamps_app, Hcap.
        destruct H2 as [([= ->] & -> & _) | [([= ->] & -> & _) | ([=] & _)]].
        -- exists surv. split; [now constructor | split; reflexivity].
        -- exists ((s, t) :: surv). split; [now constructor |].
           split; reflexivity.
    + split; [| discriminate].
      intros j Hj. apply H1. lia.
Qed.

(** The loop raises exactly when a timestamp that cannot be printed is
    in its list. *)
Lemma capture_loop_returns (att : nat -> nat -> Attempt) (output_dir : string)
    (n max_retries s : nat) (ts : list Q) (fs : gmap string File) :
  forallb printable ts = true <->
  exists imgs : list string,
    fst (fst (capture_loop att output_dir n max_retries s ts fs)) =
      Returns imgs.
Proof.
  revert s fs. induction ts as [| t ts IH]; intros s fs; simpl.
  - split; eauto.
  - destruct (capture_one_spec (att s) output_dir s n t max_retries fs)
      as (_ & H2 & _).
    destruct (capture_one (att s) output_dir s n t max_retries fs)
      as [[[imgs |] fs'] ev]; simpl in H2.
    + assert (Ht : printable t = true).
      { destruct H2 as [(_ & _ & H) | [(_ & _ & H) | ([=] & _)]]; exact H. }
      rewrite Ht. simpl. rewrite (IH (S s) fs').
      destruct (capture_loop att output_dir n max_retries (S s) ts fs')
        as [[[imgs' |] fs''] ev']; simpl.
      * split; eauto.
      * split; intros [x Hx]; discriminate Hx.
    + assert (Ht : printable t = false).
      { destruct H2 as [([=] & _) | [([=] & _) | (_ & _ & H & _)]]; exact H. }
      rewrite Ht. simpl. split; [discriminate | intros [x Hx]; discriminate Hx].
Qed.

Lemma capture_loop_app (att : nat -> nat -> Attempt) (output_dir : string)
    (n max_retries s : nat) (l1 l2 : list Q) (fs : gmap string File) :
  capture_loop att output_dir n max_retries s (l1 ++ l2) fs =
    match capture_loop att output_dir n max_retries s l1 fs with
    | (Raises, fs1, ev1) => (Raises, fs1, ev1)
    | (Returns imgs1, fs1, ev1) =>
        let '(more, fs2, ev2) :=
          capture_loop att output_dir n max_retries (s + length l1) l2 fs1 in
        (try! imgs2 <- more; Returns (imgs1 ++ imgs2), fs2, ev1 ++ ev2)
    end.
Proof.
  revert s fs. induction l1 as [| t l1 IH]; intros s fs; simpl.
  - rewrite Nat.add_0_r.
    now destruct (capture_loop att output_dir n max_retries s l2 fs)
      as [[[imgs |] ?] ?].
  - destruct (capture_one (att s) output_dir s n t max_retries fs)
      as [[[imgs |] fs'] ev]; [| reflexivity].
    rewrite IH.
    destruct (capture_loop att output_dir n max_retries (S s) l1 fs')
      as [[[imgs1 |] fs1] ev1]; simpl; [| reflexivity].
    rewrite Nat.add_succ_r.
    destruct (capture_loop att output_dir n max_retries (S (s + length l1)) l2
                fs1) as [[[imgs2 |] fs2] ev2]; simpl; rewrite ?app_assoc;
      reflexivity.
Qed.

(** What [capture_screenshots] does in terms of the list that reaches
    the loop. *)
Lemma capture_screenshots_reaching (w : CaptureWorld) (timestamps : list Q)
    (output_dir : string) (max_retries : nat) (fs : gmap string File) :
  match reaching (probe w) timestamps with
  | None =>
      capture_screenshots w timestamps output_dir max_retries fs =
        (Returns [], fs, snd (check_duration (probe w) timestamps))
  | Some valid =>
      exists before : list Event,
        quiet before /\ captured_timestamps before = [] /\
        capture_screenshots w timestamps output_dir max_retries fs =
          (let '(images, fs', ev) :=
             capture_all w (abs_output_dir w output_dir) max_retries valid fs in
           (images, fs', before ++ ev))
  end.
Proof.
  unfold reaching, capture_screenshots, check_duration.
  destruct (open_initial (probe w)) as [[|] |]; simpl.
  - destruct (probe_duration (probe w) timestamps) as [d |]; simpl.
    + destruct (printable d); simpl.
      * destruct (valid_timestamps timestamps d) as [| t valid] eqn:E; simpl;
          [reflexivity |].
        eexists (VideoDuration d :: _).
        split; [| split; [| reflexivity]].
        -- destruct (_ <? _)%nat; quiet_tac.
        -- now destruct (_ <? _)%nat.
      * exists [DurationUnknown]. split; [quiet_tac |]. split; [reflexivity |].
        now destruct (capture_all _ _ _ _ _) as [[? ?] ?].
    + exists [DurationUnknown]. split; [quiet_tac |]. split; [reflexivity |].
      now destruct (capture_all _ _ _ _ _) as [[? ?] ?].
  - reflexivity.
  - exists [DurationUnknown]. split; [quiet_tac |]. split; [reflexivity |].
    now destruct (capture_all _ _ _ _ _) as [[? ?] ?].
Qed.

(** C3 (where the code departs from it). A timestamp of 1000000000 days
    or more cannot be printed as a [timedelta].  In stream mode the
    request "10,86400000000000" reaches the loop unfiltered; the image
    for 10 is captured; for the second timestamp, for which nothing
    would work, each of the three passes ends in the handler before
    either strategy is tried; and the failure message of line 291 raises
    outside every [try]: [capture_screenshots] returns nothing, there is
    no summary, and [main] ends with the exception and without a
    document, the image for 10 left on disk.  In a direct call with the
    request [86400000000000, 10] the timestamp 10, for which ffmpeg
    works, is never attempted. *)
Theorem retry_exhaustion_aborts_run :
  let w := world_of stream_probe second_fails in
  let r := capture_screenshots w [10; 86400000000000]%Q DEFAULT_OUTPUT_DIR
             DEFAULT_MAX_RETRIES ∅ in
  let m := main w (pdf_world true) 0 None [10; 86400000000000]%Q
             sample_title "out.pdf" ∅ in
  let first := world_of stream_probe
                 (fun i _ => if (i =? 1)%nat then nothing_works
                             else ffmpeg_works) in
  let d := capture_screenshots first [86400000000000; 10]%Q DEFAULT_OUTPUT_DIR
             DEFAULT_MAX_RETRIES ∅ in
  every_attempt_fails (attempts w 2) 2 2 86400000000000
    "/work/high_res_screenshots/screenshot_002_86400000000000s.jpg" 3
    (seq 0 3) (snd (fst r)) = true /\
  fst (fst r) = Raises /\
  snd r =
    [DurationUnknown;
     Capturing 1 2 10;
     RunFfmpeg 10 "/work/high_res_screenshots/screenshot_001_10s.jpg";
     Captured 10;
     CaptureError 1 3; Retrying 1 3; Sleep 1;
     CaptureError 2 3; Retrying 2 3; Sleep 1;
     CaptureError 3 3] /\
  fst (fst m) = Raises /\
  snd (fst m) =
    {["/work/high_res_screenshots/screenshot_001_10s.jpg" := ImageFile 1000]} /\
  fst (fst d) = Raises /\
  attempts_made 2 (snd d) = 0%nat /\
  snd (fst d) = ∅.
Proof. repeat split; vm_compute; reflexivity. Qed.

(** ** The OpenCV fallback *)

Lemma prepend_fst (e : list Event) (r : bool * gmap string File * list Event) :
  fst (prepend e r) = fst r.
Proof. now destruct r as [[ok fs] ev]. Qed.

Lemma prepend_snd (e : list Event) (r : bool * gmap string File * list Event) :
  snd (prepend e r) = e ++ snd r.
Proof. now destruct r as [[ok fs] ev]. Qed.

Lemma attempt_fallback (a : Attempt) (i n : nat) (t : Q) (p : string)
    (retry max_retries : nat) (fs : gmap string File) :
  printable t = true ->
  ffmpeg_unsuccessful (ffmpeg a) p fs = true ->
  exists before : list Event,
    (forall z : Z, ~ In (Seek z) before) /\
    attempt a i n t p retry max_retries fs =
      prepend before
        (decode_seek (decode a) t p retry max_retries
           (after_ffmpeg (ffmpeg a) p fs)).
Proof.
  intros Ht. unfold attempt, ffmpeg_unsuccessful, after_ffmpeg. rewrite Ht.
  destruct (ffmpeg a) as [| rc written | written |]; intros H.
  - exists [Capturing i n t]. split; [| reflexivity].
    intros z [Hz | []]. discriminate Hz.
  - apply negb_true_iff in H. rewrite H.
    exists ([Capturing i n t] ++ [RunFfmpeg t p]). split.
    + intros z [Hz | [Hz | []]]; discriminate Hz.
    + now destruct (decode_seek _ _ _ _ _ _) as [[? ?] ?].
  - exists ([Capturing i n t] ++ [RunFfmpeg t p; FfmpegError]). split.
    + intros z [Hz | [Hz | [Hz | []]]]; discriminate Hz.
    + now destruct (decode_seek _ _ _ _ _ _) as [[? ?] ?].
  - discriminate.
Qed.

Lemma retry_wait_no_seek (retry max_retries : nat) (z : Z) :
  ~ In (Seek z) (retry_wait retry max_retries).
Proof.
  unfold retry_wait. destruct (retry <? max_retries - 1)%nat; simpl;
    [intros [H | [H | []]]; discriminate H | tauto].
Qed.

(** C6 (as the code has it). In a pass that reaches the strategies (the
    timestamp can be printed), when ffmpeg is absent, or ran without
    success, or raised a subprocess error, the pass is decided by the
    OpenCV fallback: it succeeds exactly when the decoder opened the
    media, the binary64 product [timestamp * fps] is finite, the decoder
    returned a frame, and after the write a file of non-zero size exists
    at the image path.  With a finite product it seeks to
    [max(0, int(timestamp * fps))] and writes a returned frame at JPEG
    quality 95; with an infinite one it seeks nowhere and the pass
    fails.  The product is the rounded one: 4.1 s at 30 frames per second
    is frame 122, not 123.  The result of the write itself is not
    checked: a file left at the path before counts. *)
Theorem decode_seek_fallback (a : Attempt) (i n : nat) (t : Q) (p : string)
    (retry max_retries : nat) (fs : gmap string File) :
  printable t = true ->
  ffmpeg_unsuccessful (ffmpeg a) p fs = true ->
  let r := attempt a i n t p retry max_retries fs in
  let fs0 := after_ffmpeg (ffmpeg a) p fs in
  (exists before : list Event,
      r = prepend before (decode_seek (decode a) t p retry max_retries fs0)) /\
  (fst (fst r) = true <->
   exists (fps product : Q) (written : option N),
     decode a = DecodeOpened fps true written /\
     float_mul t fps = Some product /\
     exists_nonempty (write_image p written fs0) p = true) /\
  (forall (fps product : Q) (ret : bool) (written : option N),
      decode a = DecodeOpened fps ret written ->
      float_mul t fps = Some product ->
      In (Seek (Z.max 0 (py_int product))) (snd r)) /\
  (forall (fps : Q) (ret : bool) (written : option N),
      decode a = DecodeOpened fps ret written ->
      float_mul t fps = None ->
      fst r = (false, fs0) /\ forall z : Z, ~ In (Seek z) (snd r)) /\
  (forall (fps product : Q) (written : option N),
      decode a = DecodeOpened fps true written ->
      float_mul t fps = Some product ->
      In (ImWrite p 95) (snd r) /\ snd (fst r) = write_image p written fs0) /\
  option_map py_int (float_mul 10 30) = Some 300 /\
  option_map py_int (float_mul (41 # 10) 30) = Some 122 /\
  fst (fst (attempt frame_not_saved 1 1 10 "/work/shot.jpg" 0 3
              {["/work/shot.jpg" := ImageFile 7]})) = true.
Proof.
  intros Ht Hf r fs0.
  destruct (attempt_fallback a i n t p retry max_retries fs Ht Hf)
    as (before & Hbefore & Hr).
  fold fs0 in Hr. subst r.
  split; [eauto |].
  split; [| split; [| split; [| split;
    [| repeat split; vm_compute; reflexivity]]]];
    rewrite Hr, ?prepend_fst, ?prepend_snd; unfold decode_seek.
  - destruct (decode a) as [| | fps ret written]; simpl;
      try (split; [discriminate | intros (? & ? & ? & H & _); discriminate]).
    destruct (float_mul t fps) as [product |] eqn:Hm; simpl;
      [| split; [discriminate |];
         intros (? & ? & ? & [= <- _ _] & H & _); congruence].
    destruct ret; simpl;
      [| split; [discriminate | intros (? & ? & ? & H & _); discriminate]].
    destruct (exists_nonempty (write_image p written fs0) p) eqn:E; simpl.
    + split; [intros _; exists fps, product, written; auto | reflexivity].
    + split; [discriminate |].
      intros (? & ? & ? & [= _ <-] & _ & H). congruence.
  - intros fps product ret written -> ->. apply in_or_app. right.
    destruct ret; [destruct (exists_nonempty _ _) |]; simpl; auto.
  - intros fps ret written -> ->. simpl. split; [reflexivity |].
    intros z Hz. apply in_app_or in Hz as [Hz | [Hz | Hz]].
    + exact (Hbefore z Hz).
    + discriminate Hz.
    + exact (retry_wait_no_seek _ _ _ Hz).
  - intros fps product written -> ->.
    destruct (exists_nonempty (write_image p written fs0) p); simpl;
      (split; [apply in_or_app; right; simpl; auto | reflexivity]).
Qed.

Lemma decode_seek_fallback_witness :
  fst (fst (attempt decode_works 1 1 10 "/work/shot.jpg" 0 3 ∅)) = true /\
  In (Seek 300) (snd (attempt decode_works 1 1 10 "/work/shot.jpg" 0 3 ∅)).
Proof.
  destruct (decode_seek_fallback decode_works 1 1 10 "/work/shot.jpg" 0 3 ∅
              eq_refl eq_refl) as (_ & Hok & Hseek & _).
  split.
  - apply Hok. exists 30%Q, 300%Q, (Some 1000%N). repeat split; reflexivity.
  - apply (Hseek 30%Q 300%Q true (Some 1000%N)); reflexivity.
Defined.

(** A returned frame alone is not enough for the attempt to succeed: the
    decoder returns a frame, [cv2.imwrite] leaves no file, and the attempt
    fails. *)
Lemma decoded_frame_not_enough :
  ~ (forall (a : Attempt) (i n : nat) (t : Q) (p : string)
            (retry max_retries : nat) (fs : gmap string File),
        ffmpeg a = FfmpegAbsent ->
        (fst (fst (attempt a i n t p retry max_retries fs)) = true <->
         exists (fps : Q) (written : option N),
           decode a = DecodeOpened fps true written)).
Proof.
  intros H.
  destruct (H frame_not_saved 1%nat 1%nat 10%Q "/work/shot.jpg" 0%nat 3%nat ∅
              eq_refl) as [_ Hback].
  assert (Hex : exists (fps : Q) (written : option N),
             decode frame_not_saved = DecodeOpened fps true written)
    by (exists 30%Q, None; reflexivity).
  apply Hback in Hex. vm_compute in Hex. discriminate Hex.
Qed.

(** ** [create_pdf] *)

Lemma remove_images_spec (w : PdfWorld) (image_paths : list string)
    (fs : gmap string File) :
  let r := remove_images w image_paths fs in
  (forall p : string, ~ In p image_paths -> fst r !! p = fs !! p) /\
  (forall p : string, fst r !! p = None \/ fst r !! p = fs !! p) /\
  (forall p : string, In p image_paths -> remove_ok w p = true ->
                      fst r !! p = None) /\
  (forall p : string, In p image_paths -> is_Some (fst r !! p) ->
                      In (DeleteWarning p) (snd r)) /\
  (forall e : Event, In e (snd r) ->
                     exists p : string, In p image_paths /\ e = DeleteWarning p).
Proof.
  revert fs. induction image_paths as [| img rest IH]; intros fs; simpl.
  - repeat split; try tauto; intros p; now right.
  - assert (Hkeep :
      let r := (let '(fs', ev) := remove_images w rest fs in
                (fs', DeleteWarning img :: ev)) in
      (fs !! img = None \/ remove_ok w img = false) ->
      (forall p, ~ (img = p \/ In p rest) -> fst r !! p = fs !! p) /\
      (forall p, fst r !! p = None \/ fst r !! p = fs !! p) /\
      (forall p, img = p \/ In p rest -> remove_ok w p = true ->
                 fst r !! p = None) /\
      (forall p, img = p \/ In p rest -> is_Some (fst r !! p) ->
                 In (DeleteWarning p) (snd r)) /\
      (forall e, In e (snd r) ->
                 exists p, (img = p \/ In p rest) /\ e = DeleteWarning p)).
    { specialize (IH fs). destruct (remove_images w rest fs) as [fs' ev].
      simpl in *. destruct IH as (I1 & I2 & I3 & I4 & I5). intros Hwhy.
      split; [| split; [| split; [| split]]].
      - intros p Hp. apply I1. tauto.
      - exact I2.
      - intros p [<- | Hp] Hok; [| now apply I3].
        destruct Hwhy as [Hnone | Hno]; [| congruence].
        destruct (I2 img) as [H | H]; [exact H | now rewrite H].
      - intros p [<- | Hp] Hs; [now left | right; now apply I4].
      - intros e [<- | He]; [eauto |].
        destruct (I5 e He) as (p & Hp & ->). eauto. }
    destruct (fs !! img) as [f |] eqn:Himg; [| apply Hkeep; now left].
    destruct (remove_ok w img) eqn:Hok; [| apply Hkeep; now right].
    clear Hkeep. specialize (IH (delete img fs)).
    destruct (remove_images w rest (delete img fs)) as [fs' ev].
    simpl in *. destruct IH as (I1 & I2 & I3 & I4 & I5).
    assert (Hgone : fs' !! img = None).
    { destruct (I2 img) as [H | H]; [exact H |].
      now rewrite H, lookup_delete_eq. }
    split; [| split; [| split; [| split]]].
    + intros p Hp. rewrite I1 by tauto. apply lookup_delete_ne. tauto.
    + intros p. destruct (decide (img = p)) as [<- | Hne]; [now left |].
      destruct (I2 p) as [H | H]; [now left | right].
      now rewrite H, lookup_delete_ne.
    + intros p [<- | Hp] Hr; [exact Hgone | now apply I3].
    + intros p [<- | Hp] Hs; [| now apply I4].
      rewrite Hgone in Hs. now destruct Hs.
    + intros e He. destruct (I5 e He) as (p & Hp & ->). eauto.
Qed.

(** C4. [create_pdf] returns [False] exactly when something raises up to
    and including [pdf.output], and then the file system is as it was: no
    image is deleted.  When the write succeeds it returns [True] whatever
    the deletions do; afterwards every image path whose removal is
    permitted is gone, an image path that is still there has a warning,
    every warning names one of the image paths, and no file other than
    the image paths and the document is touched. *)
Theorem create_pdf_cleanup (w : PdfWorld) (image_paths : list string)
    (video_title : list N) (output_pdf : string) (fs : gmap string File) :
  let r := create_pdf w image_paths video_title output_pdf fs in
  let out := resolve_output w output_pdf in
  (build_document w image_paths video_title fs = Raises ->
   r = (false, fs, [PdfError])) /\
  (forall pages : list Page,
      build_document w image_paths video_title fs = Returns pages ->
      fst (fst r) = true /\
      (forall p : string, In p image_paths -> remove_ok w p = true ->
                          snd (fst r) !! p = None) /\
      (forall p : string, In p image_paths -> is_Some (snd (fst r) !! p) ->
                          In (DeleteWarning p) (snd r)) /\
      (forall p : string, In (DeleteWarning p) (snd r) -> In p image_paths) /\
      (forall p : string, ~ In p image_paths -> p <> out ->
                          snd (fst r) !! p = fs !! p) /\
      (~ In out image_paths -> snd (fst r) !! out = Some (PdfFile pages))) /\
  (fst (fst r) = false -> snd (fst r) = fs).
Proof.
  intros r out. subst r. unfold create_pdf. fold out.
  destruct (build_document w image_paths video_title fs) as [pages |];
    [| split; [reflexivity | split; [discriminate | reflexivity]]].
  pose proof (remove_images_spec w image_paths (<[out := PdfFile pages]> fs))
    as H.
  destruct (remove_images w image_paths (<[out := PdfFile pages]> fs))
    as [fs' warnings]. simpl in H. destruct H as (H1 & H2 & H3 & H4 & H5).
  split; [discriminate |]. split; [| discriminate].
  intros ? [= <-]. simpl.
  split; [reflexivity |]. split; [exact H3 |]. split; [| split; [| split]].
  - intros p Hp Hs. apply in_or_app. left. now apply H4.
  - intros p Hp. apply in_app_or in Hp as [Hp | Hp].
    + destruct (H5 _ Hp) as (q & Hq & [= ->]). exact Hq.
    + apply in_app_or in Hp as [Hp | [Hp | []]]; [| discriminate Hp].
      destruct image_paths as [| img rest];
        [destruct Hp | destruct Hp as [Hp | []]; discriminate Hp].
  - intros p Hp Hne. rewrite H1 by exact Hp. apply lookup_insert_ne. congruence.
  - intros Hout. rewrite H1 by exact Hout. apply lookup_insert_eq.
Qed.

Lemma create_pdf_cleanup_witness :
  let fs : gmap string File :=
    <["/work/a.jpg" := ImageFile 10]> (<["/work/b.jpg" := ImageFile 20]> ∅) in
  create_pdf (pdf_world false) ["/work/a.jpg"; "/work/b.jpg"] sample_title
    "out.pdf" fs = (false, fs, [PdfError]).
Proof.
  intros fs.
  apply (proj1 (create_pdf_cleanup (pdf_world false)
                  ["/work/a.jpg"; "/work/b.jpg"] sample_title "out.pdf" fs)).
  reflexivity.
Defined.

(** ** From the request to the document *)

Lemma sort_insert_In (x z : Q) (l : list Q) :
  In z (sort_insert x l) <-> z = x \/ In z l.
Proof.
  induction l as [| y l IH]; simpl; [intuition |].
  destruct (num_le x y); simpl; [intuition |]. rewrite IH. intuition.
Qed.

Lemma sort_insert_sorted (x : Q) (l : list Q) :
  StronglySorted Qle l -> StronglySorted Qle (sort_insert x l).
Proof.
  induction 1 as [| y l Hl IH Hy]; simpl.
  - repeat constructor.
  - destruct (num_le x y) eqn:E.
    + apply num_le_iff in E. constructor; [now constructor |].
      constructor; [exact E |].
      rewrite List.Forall_forall in *. intros z Hz.
      eapply Qle_trans; [exact E | now apply Hy].
    + assert (Hyx : (y <= x)%Q).
      { apply Qlt_le_weak, Qnot_le_lt. intros H.
        apply num_le_iff in H. congruence. }
      constructor; [exact IH |].
      rewrite List.Forall_forall in *. intros z Hz.
      apply sort_insert_In in Hz as [-> | Hz]; [exact Hyx | now apply Hy].
Qed.

Lemma py_sort_sorted (l : list Q) : StronglySorted Qle (py_sort l).
Proof.
  induction l as [| x l IH]; simpl; [constructor |].
  now apply sort_insert_sorted.
Qed.

Lemma py_sort_In (l : list Q) (z : Q) : In z (py_sort l) <-> In z l.
Proof.
  induction l as [| x l IH]; simpl; [tauto |].
  rewrite sort_insert_In, IH. intuition.
Qed.



(** The messages of the [try] block: no pass, no capture. *)
Lemma check_duration_events (w : ProbeWorld) (timestamps : list Q) :
  quiet (snd (check_duration w timestamps)) /\
  captured_timestamps (snd (check_duration w timestamps)) = [].
Proof.
  unfold check_duration.
  destruct (open_initial w) as [[|] |]; simpl;
    [| split; [quiet_tac | reflexivity] | split; [quiet_tac | reflexivity]].
  destruct (probe_duration w timestamps) as [d |]; simpl;
    [| split; [quiet_tac | reflexivity]].
  destruct (printable d); simpl; [| split; [quiet_tac | reflexivity]].
  destruct (valid_timestamps timestamps d); simpl;
    destruct (_ <? _)%nat; simpl; split; try quiet_tac; reflexivity.
Qed.

Lemma reaching_sublist (w : ProbeWorld) (timestamps valid : list Q) :
  reaching w timestamps = Some valid -> valid `sublist_of` timestamps.
Proof.
  unfold reaching, check_duration.
  destruct (open_initial w) as [[|] |]; simpl;
    [| discriminate | now intros [= <-]].
  destruct (probe_duration w timestamps) as [d |]; simpl;
    [| now intros [= <-]].
  destruct (printable d); simpl; [| now intros [= <-]].
  destruct (valid_timestamps timestamps d) eqn:E; simpl; [discriminate |].
  intros [= <-]. rewrite <- E. apply valid_timestamps_sublist.
Qed.

(** The images [capture_screenshots] returns are the paths of some of the
    enumerated timestamps that reach the loop, in their order; those are
    some of the requested timestamps, in their order; and they are the
    timestamps the console reports as captured. *)
Lemma capture_screenshots_survivors (w : CaptureWorld) (timestamps : list Q)
    (output_dir : string) (max_retries : nat) (fs : gmap string File)
    (images : list string) :
  let r := capture_screenshots w timestamps output_dir max_retries fs in
  fst (fst r) = Returns images ->
  exists (valid : list Q) (survivors : list (nat * Q)),
    valid `sublist_of` timestamps /\
    survivors `sublist_of` enumerate 1 valid /\
    images = List.map (image_path (abs_output_dir w output_dir)) survivors /\
    captured_timestamps (snd r) = List.map snd survivors.
Proof.
  intros r. subst r.
  pose proof (capture_screenshots_reaching w timestamps output_dir max_retries fs)
    as Hr.
  pose proof (reaching_sublist (probe w) timestamps) as Hsub.
  destruct (reaching (probe w) timestamps) as [valid |].
  - destruct Hr as (before & _ & Hcap & ->).
    unfold capture_all.
    destruct (capture_loop_spec (attempts w) (abs_output_dir w output_dir)
                (length valid) max_retries 1 valid fs) as (_ & Hs).
    destruct (capture_loop _ _ _ _ _ valid fs) as [[[imgs |] fs'] ev];
      simpl in *; [| discriminate].
    intros [= <-]. destruct (Hs imgs eq_refl) as (surv & Hs1 & Hs2 & Hs3).
    exists valid, surv. split; [now apply Hsub |]. split; [exact Hs1 |].
    split; [exact Hs2 |].
    rewrite !captured_timestamps_app, Hcap, Hs3. simpl. apply app_nil_r.
  - rewrite Hr. simpl. intros [= <-]. exists [], [].
    split; [apply sublist_nil_l |]. split; [constructor |].
    split; [reflexivity |]. apply check_duration_events.
Qed.




Lemma sublist_map {A B : Type} (f : A -> B) (l k : list A) :
  l `sublist_of` k -> List.map f l `sublist_of` List.map f k.
Proof. induction 1; simpl; now constructor. Qed.

Lemma enumerate_NoDup_fst (s : nat) (ts : list Q) :
  NoDup (List.map fst (enumerate s ts)).
Proof.
  revert s. induction ts as [| t ts IH]; intros s; simpl; constructor.
  - intros Hin%list_elem_of_In. apply in_map_iff in Hin as ([j u] & Hj & Hin).
    simpl in Hj. subst j. apply enumerate_range in Hin. lia.
  - apply IH.
Qed.

(** Within one call of [capture_screenshots] no two images share a
    path. *)
Lemma capture_screenshots_NoDup (w : CaptureWorld) (timestamps : list Q)
    (output_dir : string) (max_retries : nat) (fs : gmap string File)
    (images : list string) :
  fst (fst (capture_screenshots w timestamps output_dir max_retries fs)) =
    Returns images ->
  NoDup images.
Proof.
  intros Himgs.
  destruct (capture_screenshots_survivors w timestamps output_dir max_retries fs
              images Himgs) as (valid & survivors & _ & Hs & -> & _).
  assert (Hnd : NoDup (List.map fst survivors)).
  { eapply sublist_NoDup; [apply enumerate_NoDup_fst | apply sublist_map, Hs]. }
  clear Hs Himgs. induction survivors as [| [i t] survivors IH]; [constructor |].
  change (NoDup (i :: List.map fst survivors)) in Hnd.
  change (NoDup (image_path (abs_output_dir w output_dir) (i, t)
                   :: List.map (image_path (abs_output_dir w output_dir))
                               survivors)).
  apply NoDup_cons in Hnd as [Hi Hnd]. constructor; [| now apply IH].
  intros Hin%list_elem_of_In. apply in_map_iff in Hin as ([j u] & Heq & Hin).
  apply image_path_inj in Heq as [-> _]. apply Hi.
  apply list_elem_of_In, in_map_iff. exists (i, u). auto.
Qed.



(** ** File names within one call and across calls *)

Lemma compare_append_head (p a b : string) :
  String.compare (p +:+ a) (p +:+ b) = String.compare a b.
Proof.
  induction p as [| c p IH]; simpl_append; simpl; [reflexivity |].
  assert (Ascii.compare c c = Eq) as ->; [| exact IH].
  unfold Ascii.compare. apply N.compare_refl.
Qed.

Lemma compare_same_length_append (a b x y : string) :
  String.length a = String.length b ->
  String.compare a b = Lt -> String.compare (a +:+ x) (b +:+ y) = Lt.
Proof.
  revert b. induction a as [| c a IH]; intros [| d b]; simpl; try discriminate.
  intros [= Hl]. simpl_append. simpl.
  destruct (Ascii.compare c d); [now apply IH | reflexivity | discriminate].
Qed.

Lemma compare_Lt_trans (a b c : string) :
  String.compare a b = Lt -> String.compare b c = Lt -> String.compare a c = Lt.
Proof.
  revert b c. induction a as [| x a IH]; intros [| y b] [| z c]; simpl;
    try discriminate; try reflexivity.
  destruct (Ascii.compare x y) eqn:Exy; try discriminate.
  - apply Ascii.compare_eq_iff in Exy as ->.
    destruct (Ascii.compare y z); try discriminate; [apply IH | reflexivity].
  - intros _. destruct (Ascii.compare y z) eqn:Eyz; try discriminate.
    + apply Ascii.compare_eq_iff in Eyz as <-. now rewrite Exy.
    + intros _. assert (Ascii.compare x z = Lt) as ->; [| reflexivity].
      unfold Ascii.compare in *. rewrite N.compare_lt_iff in *. lia.
Qed.

Lemma pad_ascending_999 : pad_ascending 999 = true.
Proof. vm_compute. reflexivity. Qed.

Lemma zero_pad3_lt (i j : nat) :
  (i < j <= 999)%nat ->
  String.length (zero_pad3 i) = 3%nat /\ String.length (zero_pad3 j) = 3%nat /\
  String.compare (zero_pad3 i) (zero_pad3 j) = Lt.
Proof.
  assert (Hstep : forall k, (k < 999)%nat ->
            String.length (zero_pad3 k) = 3%nat /\
            String.length (zero_pad3 (S k)) = 3%nat /\
            String.compare (zero_pad3 k) (zero_pad3 (S k)) = Lt).
  { intros k Hk. pose proof pad_ascending_999 as H. unfold pad_ascending in H.
    rewrite forallb_forall in H. specialize (H k).
    rewrite in_seq, !andb_true_iff, !Nat.eqb_eq in H.
    destruct H as [[H1 H2] H3]; [lia |]. unfold lex_lt, String.ltb in H3.
    destruct (String.compare (zero_pad3 k) (zero_pad3 (S k))); auto;
      discriminate. }
  intros [Hij Hj]. induction j as [| j IH]; [lia |].
  destruct (Nat.eq_dec i j) as [<- | Hne]; [apply Hstep; lia |].
  destruct IH as (H1 & H2 & H3); [lia | lia |].
  destruct (Hstep j) as (_ & H4 & H5); [lia |].
  split; [exact H1 |]. split; [exact H4 |].
  eapply compare_Lt_trans; eauto.
Qed.

(** Up to index 999 the file names of one call ascend lexically with the
    sequence index, whatever the timestamps are. *)
Lemma screenshot_name_lt (i j : nat) (t u : Q) :
  (i < j <= 999)%nat ->
  lex_lt (screenshot_name i t) (screenshot_name j u) = true.
Proof.
  intros H. destruct (zero_pad3_lt i j H) as (H1 & H2 & H3).
  unfold lex_lt, String.ltb, screenshot_name.
  rewrite compare_append_head, compare_same_length_append; auto. congruence.
Qed.

(** C7 (where the code departs from it). In the GUI worker every
    timestamp is captured by a call of its own, so the sequence index is
    always 1: the timestamps 10.2 and 10.7 get the same file name, and
    the document shows that one file on both pages; the timestamps 9 and
    10 get names whose lexical order is the reverse of the timestamp
    order.  Within one call the index has three digits only up to 999:
    the name of the image with index 1000 sorts before the name of the
    image with index 999. *)
Theorem worker_file_names_collide :
  worker_images [10.2; 10.7]%Q =
    Returns ["/work/high_res_screenshots/screenshot_001_10s.jpg";
             "/work/high_res_screenshots/screenshot_001_10s.jpg"] /\
  snd (fst (process_worker (fun _ => all_captured) (pdf_world true)
              [10.2; 10.7]%Q sample_title "out.pdf" ∅)) !! "/work/PDF/out.pdf" =
    Some (PdfFile
            [TitlePage ["Talk"] 2;
             ImagePage "/work/high_res_screenshots/screenshot_001_10s.jpg";
             ImagePage "/work/high_res_screenshots/screenshot_001_10s.jpg"]) /\
  worker_images [9; 10]%Q =
    Returns ["/work/high_res_screenshots/screenshot_001_9s.jpg";
             "/work/high_res_screenshots/screenshot_001_10s.jpg"] /\
  lex_lt "/work/high_res_screenshots/screenshot_001_10s.jpg"
         "/work/high_res_screenshots/screenshot_001_9s.jpg" = true /\
  screenshot_name 999 4990 = "screenshot_999_4990s.jpg" /\
  screenshot_name 1000 4995 = "screenshot_1000_4995s.jpg" /\
  lex_lt (screenshot_name 1000 4995) (screenshot_name 999 4990) = true.
Proof. repeat split; vm_compute; reflexivity. Qed.

(** * Further properties *)

(** ** Titles *)

Lemma length_string_of_list_ascii (l : list ascii) :
  String.length (string_of_list_ascii l) = length l.
Proof. induction l as [| c l IH]; simpl; [reflexivity | now rewrite IH]. Qed.

Lemma sanitize_char_ascii (c : N) : (N_of_ascii (sanitize_char c) < 128)%N.
Proof.
  unfold sanitize_char. destruct (N.ltb_spec c 128) as [H | H].
  - rewrite N_ascii_embedding by lia. exact H.
  - reflexivity.
Qed.

Lemma sanitize_char_keeps (c : N) :
  (c < 128)%N -> N_of_ascii (sanitize_char c) = c.
Proof.
  intros H. unfold sanitize_char.
  destruct (N.ltb_spec c 128); [| lia]. apply N_ascii_embedding. lia.
Qed.

Lemma sanitize_char_idem (c : N) :
  sanitize_char (N_of_ascii (sanitize_char c)) = sanitize_char c.
Proof.
  pose proof (sanitize_char_ascii c) as H.
  unfold sanitize_char at 1.
  destruct (N.ltb_spec (N_of_ascii (sanitize_char c)) 128); [| lia].
  apply ascii_N_embedding.
Qed.

Lemma codes_sanitize_title (title : list N) :
  codes (sanitize_title title) =
    List.map (fun c => N_of_ascii (sanitize_char c)) title.
Proof.
  unfold codes, sanitize_title.
  now rewrite list_ascii_of_string_of_list_ascii, List.map_map.
Qed.

(** X1. [Utils.sanitize_title] keeps the length of the title, returns
    ASCII characters only, leaves an ASCII title as it is, and changes
    nothing when applied a second time. *)
Theorem sanitize_title_ascii (title : list N) :
  String.length (sanitize_title title) = length title /\
  List.Forall (fun c => (c < 128)%N) (codes (sanitize_title title)) /\
  (List.Forall (fun c => (c < 128)%N) title ->
   codes (sanitize_title title) = title) /\
  sanitize_title (codes (sanitize_title title)) = sanitize_title title.
Proof.
  assert (Hascii : List.Forall (fun c => (c < 128)%N)
                     (codes (sanitize_title title))).
  { rewrite codes_sanitize_title. apply List.Forall_forall. intros c Hc.
    apply in_map_iff in Hc as (d & <- & _). apply sanitize_char_ascii. }
  assert (Hkeep : forall l, List.Forall (fun c => (c < 128)%N) l ->
            List.map (fun c => N_of_ascii (sanitize_char c)) l = l).
  { induction 1 as [| c l Hc _ IH]; simpl; [reflexivity |].
    now rewrite sanitize_char_keeps, IH. }
  split; [| split; [exact Hascii | split]].
  - unfold sanitize_title.
    now rewrite length_string_of_list_ascii, length_map.
  - intros H. rewrite codes_sanitize_title. now apply Hkeep.
  - unfold sanitize_title, codes.
    rewrite list_ascii_of_string_of_list_ascii, !List.map_map. f_equal.
    apply List.map_ext. intros c. apply sanitize_char_idem.
Qed.

Lemma sanitize_title_ascii_witness :
  codes (sanitize_title sample_title) = sample_title.
Proof.
  apply (proj1 (proj2 (proj2 (sanitize_title_ascii sample_title)))).
  repeat constructor.
Defined.

Lemma substring_drop (a b n : nat) (s : string) :
  String.substring (a + b) n s = String.substring b n (string_drop a s).
Proof.
  revert s. induction a as [| a IH]; intros s; [reflexivity |].
  destruct s as [| c s]; simpl; [| apply IH].
  destruct b, n; reflexivity.
Qed.

Lemma substring_0_drop (n : nat) (s : string) :
  String.substring 0 n s +:+ string_drop n s = s.
Proof.
  revert s. induction n as [| n IH]; intros [| c s]; simpl; try reflexivity.
  simpl_append. now rewrite IH.
Qed.

Lemma length_string_drop (n : nat) (s : string) :
  String.length (string_drop n s) = (String.length s - n)%nat.
Proof.
  revert s. induction n as [| n IH]; intros [| c s]; simpl; auto; lia.
Qed.

Lemma length_substring (a n : nat) (s : string) :
  String.length (String.substring a n s) = Nat.min n (String.length s - a).
Proof.
  revert s. induction a as [| a IH]; intros s.
  - rewrite Nat.sub_0_r. revert s.
    induction n as [| n IHn]; intros [| c s]; simpl; auto.
  - destruct s as [| c s]; simpl; [lia | apply IH].
Qed.

(** The chunks of width 45, by chunk number. *)
Lemma title_lines_chunks (s : string) :
  title_lines s =
    List.map (fun k => String.substring (k * 45) 45 s)
             (seq 0 ((String.length s + 44) / 45)).
Proof.
  unfold title_lines, TITLE_WIDTH.
  destruct (String.length s) as [| len] eqn:E.
  - reflexivity.
  - rewrite py_range_up by lia. rewrite List.map_map.
    replace (Z.to_nat ((Z.of_nat (S len) - 1) / Z.of_nat 45 + 1))
      with ((S len + 44) / 45)%nat.
    + apply List.map_ext. intros k. f_equal. lia.
    + rewrite Z2Nat.inj_add, Z2Nat.inj_div by
        (try apply Z.div_pos; lia).
      replace (Z.to_nat (Z.of_nat (S len) - 1)) with len by lia.
      rewrite Nat2Z.id. change (Z.to_nat 1) with 1%nat.
      replace (S len + 44)%nat with (len + 1 * 45)%nat by lia.
      rewrite Nat.div_add by lia. reflexivity.
Qed.

Lemma chunks_concat (m : nat) (s : string) :
  (String.length s <= m * 45)%nat ->
  string_concat
    (List.map (fun k => String.substring (k * 45) 45 s) (seq 0 m)) = s.
Proof.
  revert s. induction m as [| m IH]; intros s Hlen.
  - destruct s; [reflexivity | simpl in Hlen; lia].
  - simpl seq. rewrite <- seq_shift, List.map_cons, List.map_map.
    unfold string_concat. simpl foldr. fold (string_concat
      (List.map (fun k => String.substring (S k * 45) 45 s) (seq 0 m))).
    rewrite (List.map_ext _ (fun k => String.substring (k * 45) 45
                                        (string_drop 45 s))).
    + rewrite IH by (rewrite length_string_drop; lia).
      apply substring_0_drop.
    + intros k. exact (substring_drop 45 (k * 45) 45 s).
Qed.

(** X2. The title lines of [create_pdf] put together give the sanitized
    title back; there are [ceil(len / 45)] of them, none for the empty
    title; line [k] has [min(45, len - 45 k)] characters, so every line
    has between 1 and 45. *)
Theorem title_lines_round_trip (s : string) :
  string_concat (title_lines s) = s /\
  length (title_lines s) = ((String.length s + 44) / 45)%nat /\
  (forall (k : nat) (line : string),
      title_lines s !! k = Some line ->
      String.length line = Nat.min 45 (String.length s - k * 45) /\
      (1 <= String.length line <= 45)%nat).
Proof.
  rewrite title_lines_chunks. split; [| split].
  - apply chunks_concat.
    pose proof (Nat.div_mod (String.length s + 44) 45). 
    pose proof (Nat.mod_upper_bound (String.length s + 44) 45). lia.
  - now rewrite length_map, length_seq.
  - intros k line Hk.
    change (List.map ?f ?l) with (f <$> l) in Hk.
    rewrite list_lookup_fmap in Hk.
    destruct (seq 0 ((String.length s + 44) / 45) !! k) as [j |] eqn:Ej;
      [| discriminate].
    apply lookup_seq in Ej as [-> Hlt]. simpl in Hk.
    injection Hk as <-. rewrite length_substring. split; [reflexivity |].
    pose proof (Nat.div_mod (String.length s + 44) 45).
    pose proof (Nat.mod_upper_bound (String.length s + 44) 45). lia.
Qed.

(** ** File and document names *)

Lemma safe_char_safe (c : N) : is_safe_ascii (safe_char c) = true.
Proof.
  unfold safe_char.
  destruct ((c <? 128)%N && (is_ascii_alnum c || in_safe_punctuation c))
    eqn:E; [| reflexivity].
  apply andb_true_iff in E as [Hc E]. apply N.ltb_lt in Hc.
  unfold is_safe_ascii. rewrite N_ascii_embedding by lia. exact E.
Qed.

Lemma is_safe_ascii_bound (a : ascii) :
  is_safe_ascii a = true -> (N_of_ascii a < 128)%N.
Proof.
  unfold is_safe_ascii, is_ascii_alnum, in_safe_punctuation.
  rewrite !orb_true_iff, !andb_true_iff, !N.leb_le, !N.eqb_eq. lia.
Qed.

Lemma safe_char_keeps (a : ascii) :
  is_safe_ascii a = true -> safe_char (N_of_ascii a) = a.
Proof.
  intros H. pose proof (is_safe_ascii_bound a H) as Hb.
  unfold safe_char. unfold is_safe_ascii in H. rewrite H.
  destruct (N.ltb_spec (N_of_ascii a) 128); [| lia]. simpl.
  apply ascii_N_embedding.
Qed.

Lemma safe_no_slash (l : list ascii) :
  List.Forall (fun c => is_safe_ascii c = true) l ->
  has_slash (string_of_list_ascii l) = false.
Proof.
  induction 1 as [| c l Hc _ IH]; simpl; [reflexivity |].
  destruct (Ascii.eqb_spec c slash) as [-> | _]; [discriminate Hc | exact IH].
Qed.

Lemma has_slash_append (a b : string) :
  has_slash (a +:+ b) = has_slash a || has_slash b.
Proof.
  induction a as [| c a IH]; simpl_append; simpl; [reflexivity |].
  destruct (Ascii.eqb c slash); [reflexivity | exact IH].
Qed.

Lemma sanitize_filename_safe_aux (filename : list N) :
  String.length (sanitize_filename filename) = Nat.min 50 (length filename) /\
  List.Forall (fun c => is_safe_ascii c = true)
    (list_ascii_of_string (sanitize_filename filename)) /\
  has_slash (sanitize_filename filename) = false.
Proof.
  unfold sanitize_filename, FILENAME_LIMIT.
  set (l := take 50 (List.map safe_char filename)).
  assert (Hsafe : List.Forall (fun c => is_safe_ascii c = true) l).
  { apply List.Forall_forall. intros c Hc. unfold l in Hc.
    apply (sublist_In _ _ _ (sublist_take _ _)) in Hc.
    apply in_map_iff in Hc as (d & <- & _). apply safe_char_safe. }
  split; [| split].
  - unfold l. now rewrite length_string_of_list_ascii, length_take, length_map.
  - now rewrite list_ascii_of_string_of_list_ascii.
  - now apply safe_no_slash.
Qed.

(** X3. [Utils.sanitize_filename] returns at most 50 characters, the
    first 50 of the name or all of it; each of them is an ASCII letter, a
    digit, a space, a hyphen, an underscore or a dot, so there is no
    path separator in the result; applied to its own result it changes
    nothing. *)
Theorem sanitize_filename_safe (filename : list N) :
  String.length (sanitize_filename filename) = Nat.min 50 (length filename) /\
  List.Forall (fun c => is_safe_ascii c = true)
    (list_ascii_of_string (sanitize_filename filename)) /\
  has_slash (sanitize_filename filename) = false /\
  sanitize_filename (codes (sanitize_filename filename)) =
    sanitize_filename filename.
Proof.
  destruct (sanitize_filename_safe_aux filename) as (Hlen & Hsafe & Hslash).
  split; [exact Hlen |]. split; [exact Hsafe |]. split; [exact Hslash |].
  unfold sanitize_filename in *. unfold codes.
  rewrite list_ascii_of_string_of_list_ascii in *.
  rewrite length_string_of_list_ascii in Hlen. rewrite List.map_map. f_equal.
  rewrite (List.map_ext_in _ (fun a => a)).
  - rewrite List.map_id. apply take_ge. unfold FILENAME_LIMIT in *. lia.
  - intros a Ha. apply safe_char_keeps.
    rewrite List.Forall_forall in Hsafe. now apply Hsafe.
Qed.

Lemma substring_all (s : string) : String.substring 0 (String.length s) s = s.
Proof. induction s as [| c s IH]; simpl; [reflexivity | now rewrite IH]. Qed.

Lemma ends_with_append (a suffix : string) : ends_with suffix (a +:+ suffix) = true.
Proof.
  unfold ends_with. rewrite length_append.
  replace (String.length a + String.length suffix - String.length suffix)%nat
    with (String.length a) by lia.
  apply andb_true_iff. split; [apply Nat.leb_le; lia |].
  apply String.eqb_eq.
  induction a as [| c a IH]; simpl_append; simpl; [apply substring_all | exact IH].
Qed.

Lemma string_lower_append (a b : string) :
  string_lower (a +:+ b) = string_lower a +:+ string_lower b.
Proof.
  induction a as [| c a IH]; simpl_append; simpl; [reflexivity |].
  simpl_append. now rewrite IH.
Qed.

(** X4. When neither an output path nor a document name is given,
    [main] names the document after the sanitized title: the name has
    no directory part, ends with [_screenshots.pdf] and has at most 66
    characters, and [create_pdf] stores it in the [PDF] directory under
    the current directory. *)
Theorem default_output_name_in_pdf_dir (w : PdfWorld) (video_title : list N) :
  let name := output_name None None video_title in
  dirname_is_empty name = true /\
  ends_with ".pdf" name = true /\
  (String.length name <= 66)%nat /\
  (video_title <> [] ->
   name = sanitize_filename video_title +:+ "_screenshots.pdf") /\
  resolve_output w name = path_join (path_join (pdf_cwd w) "PDF") name.
Proof.
  intros name.
  assert (Hdir : dirname_is_empty name = true).
  { unfold name, output_name, dirname_is_empty. simpl.
    destruct video_title as [| c title]; [reflexivity |].
    rewrite has_slash_append.
    now rewrite (proj2 (proj2 (sanitize_filename_safe_aux (c :: title)))). }
  split; [exact Hdir |]. split; [| split; [| split]].
  - unfold name, output_name. simpl.
    destruct video_title as [| c title]; [reflexivity |].
    change "_screenshots.pdf" with ("_screenshots" +:+ ".pdf").
    rewrite <- append_assoc. apply ends_with_append.
  - unfold name, output_name. simpl.
    destruct video_title as [| c title]; [simpl; lia |].
    rewrite length_append.
    rewrite (proj1 (sanitize_filename_safe_aux (c :: title))).
    change (String.length "_screenshots.pdf") with 16%nat. lia.
  - unfold name, output_name. simpl.
    destruct video_title; [congruence | reflexivity].
  - unfold resolve_output. now rewrite Hdir.
Qed.

(** X5. The document name given with [--pdf-name] ends with [.pdf] in
    some case after line 456; a name that already ends so is kept as it
    is, so the suffix is never added twice; and [--output], when given,
    overrides it. *)
Theorem pdf_name_suffix_once (pdf_name : string) :
  ends_with ".pdf" (string_lower (ensure_pdf_suffix pdf_name)) = true /\
  (ends_with ".pdf" (string_lower pdf_name) = true ->
   ensure_pdf_suffix pdf_name = pdf_name) /\
  ensure_pdf_suffix (ensure_pdf_suffix pdf_name) = ensure_pdf_suffix pdf_name /\
  (forall (c : ascii) (name : string) (video_title : list N),
      pdf_name = String c name ->
      output_name None (Some pdf_name) video_title = ensure_pdf_suffix pdf_name /\
      forall (d : ascii) (output : string),
        output_name (Some (String d output)) (Some pdf_name) video_title =
          String d output).
Proof.
  assert (H1 : ends_with ".pdf" (string_lower (ensure_pdf_suffix pdf_name)) = true).
  { unfold ensure_pdf_suffix.
    destruct (ends_with ".pdf" (string_lower pdf_name)) eqn:E; [exact E |].
    rewrite string_lower_append. apply ends_with_append. }
  split; [exact H1 |]. split; [| split].
  - intros H. unfold ensure_pdf_suffix. now rewrite H.
  - unfold ensure_pdf_suffix at 1. now rewrite H1.
  - intros c name video_title ->. split; reflexivity.
Qed.

(** ** Choosing a format *)

Lemma fold_pick_higher_Some (l : list Format) (b : Format) :
  exists r : Format,
    fold_left pick_higher l (Some b) = Some r /\
    ((r = b /\ forall g : Format, In g l -> height_or_0 g <= height_or_0 b) \/
     (height_or_0 b < height_or_0 r /\ first_highest r l)).
Proof.
  revert b. induction l as [| f l IH]; intros b; simpl.
  - exists b. split; [reflexivity |]. left. split; [reflexivity | tauto].
  - destruct (Z.ltb_spec (height_or_0 b) (height_or_0 f)) as [Hlt | Hge].
    + destruct (IH f) as (r & Hr & Hcase). exists r. split; [exact Hr |].
      right. destruct Hcase as [[Hrf Hall] | [Hhi (bef & aft & Hl & Hb & Ha)]].
      * subst r. split; [exact Hlt |]. exists [], l.
        repeat split; simpl; tauto.
      * split; [lia |]. exists (f :: bef), aft. subst l.
        split; [reflexivity |]. split; [| exact Ha].
        intros g [<- | Hg]; [exact Hhi | now apply Hb].
    + destruct (IH b) as (r & Hr & Hcase). exists r. split; [exact Hr |].
      destruct Hcase as [[Hrb Hall] | [Hhi (bef & aft & Hl & Hb & Ha)]].
      * left. split; [exact Hrb |].
        intros g [<- | Hg]; [lia | now apply Hall].
      * right. split; [exact Hhi |]. exists (f :: bef), aft. subst l.
        split; [reflexivity |]. split; [| exact Ha].
        intros g [<- | Hg]; [lia | now apply Hb].
Qed.

Lemma fold_pick_higher_None (l : list Format) :
  match fold_left pick_higher l None with
  | Some r => first_highest r l
  | None => l = []
  end.
Proof.
  destruct l as [| f l]; [reflexivity |]. simpl.
  destruct (fold_pick_higher_Some l f) as (r & Hr & Hcase). rewrite Hr.
  destruct Hcase as [[Hrf Hall] | [Hhi (bef & aft & Hl & Hb & Ha)]].
  - subst r. exists [], l. repeat split; simpl; tauto.
  - exists (f :: bef), aft. subst l. split; [reflexivity |].
    split; [| exact Ha].
    intros g [<- | Hg]; [exact Hhi | now apply Hb].
Qed.

Lemma first_highest_In (f : Format) (l : list Format) :
  first_highest f l -> In f l.
Proof. intros (bef & aft & -> & _). apply in_or_app. right. now left. Qed.

Lemma h264_loop_fold (formats : list Format) (best : option Format) :
  h264_loop formats best =
    if forallb (fun f => match is_h264_mp4 f with
                         | Raises => false
                         | Returns _ => true
                         end) formats
    then Returns (fold_left pick_higher (h264_formats formats) best)
    else Raises.
Proof.
  revert best. induction formats as [| f rest IH]; intros best; simpl;
    [reflexivity |].
  destruct (is_h264_mp4 f) as [[|] |]; simpl; [apply IH | apply IH | reflexivity].
Qed.

Lemma fitting_filter (formats : list Format) :
  fitting formats =
    if forallb (fun f => match height f with
                         | Null => false
                         | Absent | Val _ => true
                         end) formats
    then Returns (fitting_formats formats)
    else Raises.
Proof.
  induction formats as [| f rest IH]; simpl; [reflexivity |].
  unfold height_fits. rewrite IH.
  destruct (height f); simpl; try reflexivity;
    destruct (forallb _ rest); simpl; try reflexivity;
    unfold fitting_formats; simpl; destruct (_ <=? _); reflexivity.
Qed.

Lemma h264_fits (f : Format) :
  is_h264_mp4 f = Returns true -> height_or_0 f <= 1080.
Proof.
  unfold is_h264_mp4, height_fits.
  destruct (vcodec f) as [| | v]; try discriminate.
  destruct (contains "avc" v); [| discriminate].
  destruct (ext f) as [| | e]; try discriminate.
  destruct (String.eqb e "mp4"); [| discriminate].
  destruct (height f); try discriminate; intros [= H]; now apply Z.leb_le.
Qed.

(** X6. A format returned by [Utils.find_best_format] is one of the
    listed formats.  When some format is H.264 in an mp4 container with
    a height of at most 1080, the result is the first of the highest of
    those; when none is, it is the first of the highest formats of height
    at most 1080; and when no format is that low either, it is the first
    listed format, whatever its height. *)
Theorem find_best_format_choice (formats : list Format) (f : Format) :
  find_best_format formats = Returns f ->
  In f formats /\
  (h264_formats formats <> [] -> first_highest f (h264_formats formats)) /\
  (h264_formats formats = [] -> fitting_formats formats <> [] ->
   first_highest f (fitting_formats formats)) /\
  (h264_formats formats = [] -> fitting_formats formats = [] ->
   head formats = Some f) /\
  (height_or_0 f <= 1080 \/ fitting_formats formats = []).
Proof.
  unfold find_best_format. rewrite h264_loop_fold.
  destruct (forallb _ formats); simpl; [| discriminate].
  pose proof (fold_pick_higher_None (h264_formats formats)) as Hh.
  destruct (fold_left pick_higher (h264_formats formats) None) as [b |].
  - intros [= ->].
    assert (Hin : In f (h264_formats formats)) by now apply first_highest_In.
    apply filter_In in Hin as [Hin Hq].
    split; [exact Hin |]. split; [auto |].
    destruct Hh as (bef & aft & Hl & _).
    split; [intros E; rewrite E in Hl; now destruct bef |].
    split; [intros E; rewrite E in Hl; now destruct bef |].
    left. apply h264_fits. now destruct (is_h264_mp4 f) as [[|] |].
  - destruct formats as [| first rest]; [discriminate |].
    rewrite fitting_filter. destruct (forallb _ (first :: rest)); unfold bind;
      [| discriminate].
    pose proof (fold_pick_higher_None (fitting_formats (first :: rest))) as Hf.
    destruct (fold_left pick_higher (fitting_formats (first :: rest)) None)
      as [b |]; intros [= ->].
    + assert (Hin : In f (fitting_formats (first :: rest)))
        by now apply first_highest_In.
      apply filter_In in Hin as [Hin Hfit].
      split; [exact Hin |]. split; [congruence |]. split; [auto |].
      destruct Hf as (bef & aft & Hl & _).
      split; [intros _ E; rewrite E in Hl; now destruct bef |].
      left. now apply Z.leb_le.
    + split; [now left |]. split; [congruence |]. split; [congruence |].
      split; [reflexivity | now right].
Qed.

Lemma find_best_format_choice_witness :
  In h264_1080 sample_formats /\
  first_highest h264_1080 (h264_formats sample_formats).
Proof.
  destruct (find_best_format_choice sample_formats h264_1080 eq_refl)
    as (Hin & Hh & _).
  split; [exact Hin |]. apply Hh. discriminate.
Defined.

Lemma forallb_false_iff {A : Type} (P : A -> bool) (l : list A) :
  forallb P l = false <-> exists x : A, In x l /\ P x = false.
Proof.
  induction l as [| a l IH]; simpl.
  - split; [discriminate | intros (x & [] & _)].
  - rewrite andb_false_iff, IH. split.
    + intros [H | (x & Hx & Hp)]; eauto.
    + intros (x & [<- | Hx] & Hp); eauto.
Qed.

(** X7. [Utils.find_best_format] raises exactly in these cases: some
    format has [vcodec] present as [None], or is an H.264 mp4 whose
    height is [None]; or no format is an H.264 mp4 of height at most
    1080 and the list is empty or some format has a height of [None]. *)
Theorem find_best_format_raises (formats : list Format) :
  find_best_format formats = Raises <->
  (exists f : Format, In f formats /\ is_h264_mp4 f = Raises) \/
  (h264_formats formats = [] /\
   (formats = [] \/ exists f : Format, In f formats /\ height f = Null)).
Proof.
  unfold find_best_format. rewrite h264_loop_fold.
  destruct (forallb _ formats) eqn:E.
  - assert (Hnone : ~ exists f : Format, In f formats /\ is_h264_mp4 f = Raises).
    { intros (f & Hf & Hr). rewrite forallb_forall in E. specialize (E f Hf).
      rewrite Hr in E. discriminate. }
    unfold bind at 1.
    pose proof (fold_pick_higher_None (h264_formats formats)) as Hh.
    destruct (fold_left pick_higher (h264_formats formats) None) as [b |].
    + split; [discriminate |].
      intros [H | [Hempty _]]; [contradiction |].
      destruct Hh as (bef & aft & Hl & _). rewrite Hempty in Hl.
      now destruct bef.
    + destruct formats as [| first rest].
      * split; [intros _; right; auto | reflexivity].
      * rewrite fitting_filter.
        destruct (forallb (fun f => match height f with
                                    | Null => false
                                    | Absent | Val _ => true
                                    end) (first :: rest)) eqn:Ef; unfold bind.
        -- split.
           ++ destruct (fold_left pick_higher
                          (fitting_formats (first :: rest)) None); discriminate.
           ++ intros [H | [_ [H | (f & Hf & Hn)]]];
                [contradiction | discriminate |].
              rewrite forallb_forall in Ef. specialize (Ef f Hf).
              rewrite Hn in Ef. discriminate.
        -- split; [| reflexivity]. intros _. right. split; [exact Hh |].
           right. apply forallb_false_iff in Ef as (f & Hf & Hp).
           exists f. split; [exact Hf |]. now destruct (height f).
  - split; [| reflexivity]. intros _. left.
    apply forallb_false_iff in E as (f & Hf & Hp). exists f.
    split; [exact Hf |]. now destruct (is_h264_mp4 f).
Qed.

Lemma find_best_format_In (formats : list Format) (f : Format) :
  find_best_format formats = Returns f -> In f formats.
Proof.
  unfold find_best_format. rewrite h264_loop_fold.
  destruct (forallb _ formats); unfold bind at 1; [| discriminate].
  pose proof (fold_pick_higher_None (h264_formats formats)) as Hh.
  destruct (fold_left pick_higher (h264_formats formats) None) as [b |].
  - intros [= ->]. apply first_highest_In in Hh. now apply filter_In in Hh.
  - destruct formats as [| first rest]; [discriminate |].
    rewrite fitting_filter. destruct (forallb _ (first :: rest)); unfold bind;
      [| discriminate].
    pose proof (fold_pick_higher_None (fitting_formats (first :: rest))) as Hf.
    destruct (fold_left pick_higher (fitting_formats (first :: rest)) None)
      as [b |]; intros [= ->]; [| now left].
    apply first_highest_In in Hf. now apply filter_In in Hf.
Qed.

(** X8. [get_streaming_url] returns a URL only when the extraction
    succeeded and the format [find_best_format] chose, one of the listed
    formats, has a [url]; the title and the duration then come with it.
    When the extraction raises or lists no format, all three results are
    [None]. *)
Theorem get_streaming_url_result (extract_info : Outcome Info) :
  (forall u : string,
      fst (fst (get_streaming_url extract_info)) = Some u ->
      exists (info : Info) (f : Format),
        extract_info = Returns info /\
        find_best_format (info_formats info) = Returns f /\
        In f (info_formats info) /\ url f = Val u /\
        get_streaming_url extract_info =
          (Some u, Some (info_title info), Some (info_duration info))) /\
  (extract_info = Raises \/
   (exists info : Info, extract_info = Returns info /\ info_formats info = []) ->
   get_streaming_url extract_info = (None, None, None)).
Proof.
  unfold get_streaming_url. split.
  - intros u. destruct extract_info as [info |]; simpl; [| discriminate].
    destruct (find_best_format (info_formats info)) as [f |] eqn:Ef; simpl;
      [| discriminate].
    destruct (url f) as [| | v] eqn:Eu; simpl; try discriminate.
    intros [= ->]. exists info, f. rewrite Ef, Eu.
    repeat split; try reflexivity. now apply find_best_format_In.
  - intros [-> | (info & -> & Hempty)]; [reflexivity |].
    simpl. rewrite Hempty. reflexivity.
Qed.

(** ** The requested timestamps *)

Lemma sort_insert_Permutation (x : Q) (l : list Q) :
  Permutation (sort_insert x l) (x :: l).
Proof.
  induction l as [| y l IH]; simpl; [reflexivity |].
  destruct (num_le x y); [reflexivity |].
  rewrite IH. apply perm_swap.
Qed.

Lemma py_sort_Permutation (l : list Q) : Permutation (py_sort l) l.
Proof.
  induction l as [| x l IH]; simpl; [reflexivity |].
  rewrite sort_insert_Permutation. now constructor.
Qed.

Lemma py_sort_of_sorted (l : list Q) : StronglySorted Qle l -> py_sort l = l.
Proof.
  induction 1 as [| x l Hl IH Hx]; simpl; [reflexivity |].
  fold (py_sort l). rewrite IH. destruct l as [| y l]; [reflexivity |].
  simpl. apply List.Forall_inv in Hx. apply num_le_iff in Hx. now rewrite Hx.
Qed.

Lemma multiples_sorted (n : Z) (a m : nat) :
  0 < n ->
  StronglySorted Qle
    (List.map inject_Z (List.map (fun k => 0 + Z.of_nat k * n) (seq a m))).
Proof.
  intros Hn. revert a. induction m as [| m IH]; intros a; simpl;
    constructor; [apply IH |].
  apply List.Forall_forall. intros q Hq.
  apply in_map_iff in Hq as (z & <- & Hz).
  apply in_map_iff in Hz as (k & <- & Hk). apply in_seq in Hk.
  rewrite <- Zle_Qle. nia.
Qed.

Lemma existsb_negative (parsed : list Q) :
  existsb (fun t => num_lt t 0) parsed = true <->
  exists t : Q, In t parsed /\ (t < 0)%Q.
Proof.
  rewrite existsb_exists. split; intros (t & Ht & H); exists t;
    (split; [exact Ht |]); now apply num_lt_iff.
Qed.

(** X9. The timestamps [main] hands to [capture_screenshots] are in
    ascending order.  Without a positive interval they are a
    rearrangement of the parsed timestamps, and a single negative
    timestamp rejects the whole request; with a positive interval the
    parsed timestamps are not looked at, and sorting leaves the generated
    list as it is. *)
Theorem requested_timestamps_sorted_permutation (video_duration : Q)
    (interval : option Z) (parsed : list Q) :
  (forall timestamps : list Q,
      requested_timestamps video_duration interval parsed = Some timestamps ->
      StronglySorted Qle timestamps) /\
  ((interval = None \/ exists n : Z, interval = Some n /\ n <= 0) ->
   ((exists t : Q, In t parsed /\ (t < 0)%Q) ->
    requested_timestamps video_duration interval parsed = None) /\
   ((forall t : Q, In t parsed -> (0 <= t)%Q) ->
    exists timestamps : list Q,
      requested_timestamps video_duration interval parsed = Some timestamps /\
      Permutation timestamps parsed)) /\
  (forall n : Z,
      interval = Some n -> 0 < n ->
      requested_timestamps video_duration interval parsed =
        option_map (List.map inject_Z)
                   (generate_interval_timestamps video_duration n)).
Proof.
  split; [| split].
  - intros timestamps. unfold requested_timestamps.
    destruct interval as [n |].
    + destruct (0 <? n).
      * destruct (generate_interval_timestamps video_duration n); simpl;
          [| discriminate].
        intros [= <-]. apply py_sort_sorted.
      * destruct (existsb _ parsed); [discriminate |].
        intros [= <-]. apply py_sort_sorted.
    + destruct (existsb _ parsed); [discriminate |].
      intros [= <-]. apply py_sort_sorted.
  - intros Hint.
    assert (Hreq : requested_timestamps video_duration interval parsed =
              if existsb (fun t => num_lt t 0) parsed then None
              else Some (py_sort parsed)).
    { unfold requested_timestamps.
      destruct Hint as [-> | (n & -> & Hn)]; [reflexivity |].
      destruct (Z.ltb_spec 0 n); [lia | reflexivity]. }
    rewrite Hreq. split.
    + intros Hneg. apply existsb_negative in Hneg. now rewrite Hneg.
    + intros Hall.
      destruct (existsb (fun t => num_lt t 0) parsed) eqn:E.
      * apply existsb_negative in E as (t & Ht & Hlt). exfalso.
        eapply Qlt_not_le; [exact Hlt | now apply Hall].
      * exists (py_sort parsed). split; [reflexivity |].
        apply py_sort_Permutation.
  - intros n -> Hn. unfold requested_timestamps.
    destruct (Z.ltb_spec 0 n); [| lia].
    unfold generate_interval_timestamps, py_range.
    destruct (Z.eqb_spec n 0); [lia |]. simpl. f_equal.
    apply py_sort_of_sorted, multiples_sorted, Hn.
Qed.

(** ** What [capture_screenshots] does to the file system *)

Lemma only_wrote_refl (P : string -> Prop) (fs : gmap string File) :
  only_wrote P fs fs.
Proof. intros q. now left. Qed.

Lemma only_wrote_trans (P : string -> Prop) (fs1 fs2 fs3 : gmap string File) :
  only_wrote P fs1 fs2 -> only_wrote P fs2 fs3 -> only_wrote P fs1 fs3.
Proof.
  intros H12 H23 q. destruct (H23 q) as [E | H]; [| now right].
  rewrite E. apply H12.
Qed.

Lemma only_wrote_weaken (P R : string -> Prop) (fs fs' : gmap string File) :
  (forall q : string, P q -> R q) -> only_wrote P fs fs' -> only_wrote R fs fs'.
Proof.
  intros HPR H q. destruct (H q) as [E | [Hp Hs]]; [now left | right; auto].
Qed.

Lemma write_image_only_wrote (p : string) (written : option N)
    (fs : gmap string File) :
  only_wrote (eq p) fs (write_image p written fs).
Proof.
  intros q. destruct written as [size |]; simpl; [| now left].
  destruct (decide (p = q)) as [<- | Hne].
  - right. split; [reflexivity |]. exists size. apply lookup_insert_eq.
  - left. now apply lookup_insert_ne.
Qed.

Lemma decode_seek_files (d : DecodeOutcome) (t : Q) (p : string)
    (retry max_retries : nat) (fs : gmap string File) :
  let r := decode_seek d t p retry max_retries fs in
  only_wrote (eq p) fs (snd (fst r)) /\
  (fst (fst r) = true -> exists_nonempty (snd (fst r)) p = true).
Proof.
  unfold decode_seek. destruct d as [| | fps ret written]; simpl;
    try (split; [apply only_wrote_refl | discriminate]).
  destruct (float_mul t fps) as [product |]; simpl;
    try (split; [apply only_wrote_refl | discriminate]).
  destruct ret; simpl;
    try (split; [apply only_wrote_refl | discriminate]).
  destruct (exists_nonempty (write_image p written fs) p) eqn:E; simpl;
    (split; [apply write_image_only_wrote | try discriminate; auto]).
Qed.

Lemma attempt_files (a : Attempt) (i n : nat) (t : Q) (p : string)
    (retry max_retries : nat) (fs : gmap string File) :
  let r := attempt a i n t p retry max_retries fs in
  only_wrote (eq p) fs (snd (fst r)) /\
  (fst (fst r) = true -> exists_nonempty (snd (fst r)) p = true).
Proof.
  unfold attempt.
  destruct (printable t);
    [| simpl; split; [apply only_wrote_refl | discriminate]].
  rewrite prepend_fst.
  destruct (ffmpeg a) as [| rc written | written |].
  - apply decode_seek_files.
  - destruct ((rc =? 0) && exists_nonempty (write_image p written fs) p) eqn:E.
    + simpl. split; [apply write_image_only_wrote |].
      intros _. now apply andb_true_iff in E.
    + rewrite prepend_fst.
      destruct (decode_seek_files (decode a) t p retry max_retries
                  (write_image p written fs)) as [H1 H2].
      split; [| exact H2].
      eapply only_wrote_trans; [apply write_image_only_wrote | exact H1].
  - rewrite prepend_fst.
    destruct (decode_seek_files (decode a) t p retry max_retries
                (write_image p written fs)) as [H1 H2].
    split; [| exact H2].
    eapply only_wrote_trans; [apply write_image_only_wrote | exact H1].
  - simpl. split; [apply only_wrote_refl | discriminate].
Qed.

Lemma retry_loop_files (att : nat -> Attempt) (i n : nat) (t : Q) (p : string)
    (max_retries : nat) (retries : list nat) (fs : gmap string File) :
  let r := retry_loop att i n t p max_retries retries fs in
  only_wrote (eq p) fs (snd (fst r)) /\
  (fst (fst r) = true -> exists_nonempty (snd (fst r)) p = true).
Proof.
  revert fs. induction retries as [| retry rest IH]; intros fs; simpl.
  - split; [apply only_wrote_refl | discriminate].
  - pose proof (attempt_files (att retry) i n t p retry max_retries fs) as Ha.
    destruct (attempt (att retry) i n t p retry max_retries fs)
      as [[ok fs'] ev]. simpl in Ha. destruct Ha as [Ha1 Ha2].
    destruct ok; simpl; [auto |].
    rewrite prepend_fst. destruct (IH fs') as [I1 I2].
    split; [| exact I2]. eapply only_wrote_trans; eauto.
Qed.

Lemma capture_one_files (att : nat -> Attempt) (output_dir : string)
    (i n : nat) (t : Q) (max_retries : nat) (fs : gmap string File) :
  let r := capture_one att output_dir i n t max_retries fs in
  only_wrote (eq (image_path output_dir (i, t))) fs (snd (fst r)) /\
  (forall (imgs : list string) (p : string),
     fst (fst r) = Returns imgs -> In p imgs ->
     p = image_path output_dir (i, t) /\
     exists_nonempty (snd (fst r)) p = true).
Proof.
  unfold capture_one, image_path. simpl.
  set (p := path_join output_dir (screenshot_name i t)).
  destruct (retry_loop_files att i n t p max_retries (seq 0 max_retries) fs)
    as [H1 H2].
  destruct (retry_loop att i n t p max_retries (seq 0 max_retries) fs)
    as [[ok fs'] ev]. simpl in *.
  destruct ok; simpl; [| destruct (printable t); simpl];
    (split; [exact H1 |]).
  - intros imgs q [= <-] [<- | []]. auto.
  - intros imgs q [= <-] [].
  - discriminate.
Qed.

Lemma exists_nonempty_same (fs fs' : gmap string File) (p : string) :
  fs' !! p = fs !! p -> exists_nonempty fs' p = exists_nonempty fs p.
Proof. unfold exists_nonempty. now intros ->. Qed.

Lemma capture_loop_files (att : nat -> nat -> Attempt) (output_dir : string)
    (n max_retries s : nat) (ts : list Q) (fs : gmap string File) :
  let r := capture_loop att output_dir n max_retries s ts fs in
  only_wrote (screenshot_path_of output_dir s ts) fs (snd (fst r)) /\
  (forall (imgs : list string) (p : string),
     fst (fst r) = Returns imgs -> In p imgs ->
     exists_nonempty (snd (fst r)) p = true).
Proof.
  revert s fs. induction ts as [| t ts IH]; intros s fs; simpl.
  - split; [apply only_wrote_refl |]. intros imgs p [= <-] [].
  - destruct (capture_one_files (att s) output_dir s n t max_retries fs)
      as [H1 H2].
    assert (H1' : only_wrote (screenshot_path_of output_dir s (t :: ts)) fs
                    (snd (fst (capture_one (att s) output_dir s n t
                                 max_retries fs)))).
    { eapply only_wrote_weaken; [| exact H1].
      intros q <-. exists (s, t). split; [now left | reflexivity]. }
    destruct (capture_one (att s) output_dir s n t max_retries fs)
      as [[[imgs |] fs'] ev]; simpl in H1, H2, H1';
      [| split; [exact H1' | discriminate]].
    destruct (IH (S s) fs') as [I1 I2].
    destruct (capture_loop att output_dir n max_retries (S s) ts fs')
      as [[more fs''] ev']. simpl in *.
    split.
    + eapply only_wrote_trans; [exact H1' |].
      eapply only_wrote_weaken; [| exact I1].
      intros q (it & Hit & ->). exists it. split; [now right | reflexivity].
    + intros imgs0 p Himgs0 Hp. destruct more as [imgs' |]; [| discriminate].
      simpl in Himgs0. injection Himgs0 as <-.
      apply in_app_or in Hp as [Hp | Hp]; [| now apply (I2 imgs')].
      destruct (H2 imgs p eq_refl Hp) as [-> Hex].
      destruct (I1 (image_path output_dir (s, t)))
        as [E | [([j u] & Hit & Heq) _]].
      * now rewrite (exists_nonempty_same _ _ _ E).
      * apply image_path_inj in Heq as [-> _].
        apply enumerate_range in Hit. lia.
Qed.

Lemma enumerate_In_snd (s : nat) (ts : list Q) (it : nat * Q) :
  In it (enumerate s ts) -> In (snd it) ts.
Proof.
  intros H. rewrite <- (enumerate_snd s ts). now apply in_map.
Qed.

(** The state in which [capture_screenshots] leaves the files: the list
    that reached the loop, and what the loop did. *)
Lemma capture_screenshots_files (w : CaptureWorld) (timestamps : list Q)
    (output_dir : string) (max_retries : nat) (fs : gmap string File) :
  let r := capture_screenshots w timestamps output_dir max_retries fs in
  exists valid : list Q,
    valid `sublist_of` timestamps /\
    only_wrote (screenshot_path_of (abs_output_dir w output_dir) 1 valid)
      fs (snd (fst r)) /\
    (forall (images : list string) (p : string),
       fst (fst r) = Returns images -> In p images ->
       exists_nonempty (snd (fst r)) p = true).
Proof.
  intros r. subst r.
  pose proof (capture_screenshots_reaching w timestamps output_dir max_retries fs)
    as Hr.
  pose proof (reaching_sublist (probe w) timestamps) as Hsub.
  destruct (reaching (probe w) timestamps) as [valid |].
  - destruct Hr as (before & _ & _ & ->). exists valid.
    split; [now apply Hsub |]. unfold capture_all.
    pose proof (capture_loop_files (attempts w) (abs_output_dir w output_dir)
                  (length valid) max_retries 1 valid fs) as H.
    destruct (capture_loop _ _ _ _ _ valid fs) as [[[imgs |] fs'] ev];
      simpl in *; exact H.
  - rewrite Hr. exists []. split; [apply sublist_nil_l |].
    split; [apply only_wrote_refl |]. intros images p [= <-] [].
Qed.

(** X10. Every path [capture_screenshots] returns names a file that
    exists with a non-zero size when the function returns: a later
    timestamp never overwrites or removes the image of an earlier one. *)
Theorem captured_images_exist (w : CaptureWorld) (timestamps : list Q)
    (output_dir : string) (max_retries : nat) (fs : gmap string File)
    (images : list string) (p : string) :
  let r := capture_screenshots w timestamps output_dir max_retries fs in
  fst (fst r) = Returns images ->
  In p images -> exists_nonempty (snd (fst r)) p = true.
Proof.
  intros r.
  destruct (capture_screenshots_files w timestamps output_dir max_retries fs)
    as (valid & _ & _ & H).
  apply H.
Qed.

(** X11. [capture_screenshots] deletes nothing, and whatever it changes
    is an image at the screenshot path of a requested timestamp, under
    the output directory made absolute; every other file is as it
    was.  This holds of the files it leaves when it raises, too. *)
Theorem capture_writes_only_screenshots (w : CaptureWorld)
    (timestamps : list Q) (output_dir : string) (max_retries : nat)
    (fs : gmap string File) (q : string) :
  let r := capture_screenshots w timestamps output_dir max_retries fs in
  snd (fst r) !! q = fs !! q \/
  exists (i : nat) (t : Q) (size : N),
    In t timestamps /\ (1 <= i <= length timestamps)%nat /\
    q = path_join (abs_output_dir w output_dir) (screenshot_name i t) /\
    snd (fst r) !! q = Some (ImageFile size).
Proof.
  intros r.
  destruct (capture_screenshots_files w timestamps output_dir max_retries fs)
    as (valid & Hsub & Hw & _).
  unfold only_wrote, screenshot_path_of in Hw.
  destruct (Hw q) as [E | [(it & Hit & Heq) [size Hs]]]; [now left | right].
  destruct it as [i t]. subst q.
  exists i, t, size.
  pose proof (enumerate_In_snd _ _ _ Hit) as Ht.
  apply enumerate_range in Hit. pose proof (sublist_length _ _ Hsub) as Hlen.
  split; [exact (sublist_In _ _ _ Hsub Ht) |]. split; [lia |].
  split; [reflexivity | exact Hs].
Qed.

Lemma captured_images_exist_witness :
  exists_nonempty
    (snd (fst (capture_screenshots all_captured [10; 60; 130]%Q
                 DEFAULT_OUTPUT_DIR DEFAULT_MAX_RETRIES ∅)))
    "/work/high_res_screenshots/screenshot_001_10s.jpg" = true.
Proof.
  apply (captured_images_exist all_captured [10; 60; 130]%Q
           DEFAULT_OUTPUT_DIR DEFAULT_MAX_RETRIES ∅
           ["/work/high_res_screenshots/screenshot_001_10s.jpg";
            "/work/high_res_screenshots/screenshot_002_60s.jpg"]).
  - vm_compute. reflexivity.
  - now left.
Defined.

(** ** The trace of one timestamp *)

Lemma no_captured_retry_wait (retry max_retries : nat) :
  existsb is_captured (retry_wait retry max_retries) = false.
Proof. unfold retry_wait. now destruct (retry <? max_retries - 1)%nat. Qed.

Lemma existsb_cons_false (e : Event) (ev : list Event) :
  is_captured e = false -> existsb is_captured ev = false ->
  existsb is_captured (e :: ev) = false.
Proof. intros He Hev. simpl. now rewrite He, Hev. Qed.

Lemma ends_as_prepend (ok : bool) (t : Q) (e ev : list Event) :
  existsb is_captured e = false -> ends_as ok t ev -> ends_as ok t (e ++ ev).
Proof.
  intros He. destruct ok; simpl.
  - intros (before & -> & Hb). exists (e ++ before).
    split; [apply app_assoc |]. now rewrite existsb_app, He, Hb.
  - intros Hev. now rewrite existsb_app, He, Hev.
Qed.

Ltac no_captured :=
  repeat first
    [ apply no_captured_retry_wait
    | apply existsb_cons_false; [reflexivity |]
    | reflexivity ].

Lemma decode_seek_ends (d : DecodeOutcome) (t : Q) (p : string)
    (retry max_retries : nat) (fs : gmap string File) :
  let r := decode_seek d t p retry max_retries fs in
  ends_as (fst (fst r)) t (snd r).
Proof.
  unfold decode_seek. destruct d as [| | fps ret written]; simpl;
    try solve [no_captured].
  destruct (float_mul t fps) as [product |]; simpl; try solve [no_captured].
  destruct ret; simpl; try solve [no_captured].
  destruct (exists_nonempty (write_image p written fs) p); simpl.
  - eexists [_; _]. split; reflexivity.
  - no_captured.
Qed.

Lemma attempt_ends (a : Attempt) (i n : nat) (t : Q) (p : string)
    (retry max_retries : nat) (fs : gmap string File) :
  let r := attempt a i n t p retry max_retries fs in
  ends_as (fst (fst r)) t (snd r).
Proof.
  unfold attempt. destruct (printable t); [| simpl; no_captured].
  rewrite prepend_fst, prepend_snd.
  apply ends_as_prepend; [reflexivity |].
  destruct (ffmpeg a) as [| rc written | written |].
  - apply decode_seek_ends.
  - destruct ((rc =? 0) && exists_nonempty (write_image p written fs) p).
    + simpl. exists [RunFfmpeg t p]. split; reflexivity.
    + rewrite prepend_fst, prepend_snd.
      apply ends_as_prepend; [reflexivity | apply decode_seek_ends].
  - rewrite prepend_fst, prepend_snd.
    apply ends_as_prepend; [reflexivity | apply decode_seek_ends].
  - simpl. no_captured.
Qed.

Lemma retry_loop_ends (att : nat -> Attempt) (i n : nat) (t : Q) (p : string)
    (max_retries : nat) (retries : list nat) (fs : gmap string File) :
  let r := retry_loop att i n t p max_retries retries fs in
  ends_as (fst (fst r)) t (snd r).
Proof.
  revert fs. induction retries as [| retry rest IH]; intros fs; simpl.
  - reflexivity.
  - pose proof (attempt_ends (att retry) i n t p retry max_retries fs) as Ha.
    destruct (attempt (att retry) i n t p retry max_retries fs)
      as [[ok fs'] ev]. simpl in Ha.
    destruct ok; simpl; [exact Ha |].
    rewrite prepend_fst, prepend_snd. now apply ends_as_prepend.
Qed.

(** The trace of the retry loop for a timestamp that cannot be printed:
    one error message per pass, with the waits between the passes. *)
Lemma retry_loop_unprintable_trace (att : nat -> Attempt) (i n : nat) (t : Q)
    (p : string) (max_retries : nat) (retries : list nat)
    (fs : gmap string File) :
  printable t = false ->
  retry_loop att i n t p max_retries retries fs =
    (false, fs,
     flat_map (fun retry => CaptureError (retry + 1) max_retries
                              :: retry_wait retry max_retries) retries).
Proof.
  intros Ht. induction retries as [| retry rest IH]; simpl; [reflexivity |].
  rewrite attempt_unprintable by exact Ht. now rewrite IH.
Qed.

(** X12. For one timestamp the loop either returns its image, and then
    the trace ends with the one and only [Captured] message (nothing is
    retried or waited for after a success); or returns no image, and then
    the trace has no [Captured] message and ends with the failure
    message; or, for a timestamp that cannot be printed and only for such
    a one, raises in place of the failure message, after one error
    message per pass and with the files as they were.  In all cases it
    made at most [max_retries] passes. *)
Theorem capture_one_stops_at_success (att : nat -> Attempt)
    (output_dir : string) (i n : nat) (t : Q) (max_retries : nat)
    (fs : gmap string File) :
  let r := capture_one att output_dir i n t max_retries fs in
  ((fst (fst r) = Returns [image_path output_dir (i, t)] /\
    printable t = true /\
    exists before : list Event,
      snd r = before ++ [Captured t] /\
      existsb is_captured before = false) \/
   (fst (fst r) = Returns [] /\
    printable t = true /\
    exists before : list Event,
      snd r = before ++ [FailedCapture t max_retries] /\
      existsb is_captured before = false) \/
   (fst r = (Raises, fs) /\
    printable t = false /\
    snd r = flat_map (fun retry => CaptureError (retry + 1) max_retries
                                     :: retry_wait retry max_retries)
                     (seq 0 max_retries))) /\
  (attempts_made i (snd r) <= max_retries)%nat.
Proof.
  unfold capture_one, image_path. simpl.
  set (p := path_join output_dir (screenshot_name i t)).
  pose proof (retry_loop_ends att i n t p max_retries (seq 0 max_retries) fs)
    as He.
  pose proof (retry_loop_unprintable_trace att i n t p max_retries
                (seq 0 max_retries) fs) as Hu.
  destruct (retry_loop_attempts att i n t p max_retries (seq 0 max_retries)
              fs i) as (_ & Hle & _).
  rewrite length_seq in Hle.
  destruct (retry_loop att i n t p max_retries (seq 0 max_retries) fs)
    as [[ok fs'] ev]. simpl in He, Hle.
  destruct ok; simpl.
  - split; [| exact Hle]. left. split; [reflexivity |].
    split; [| exact He].
    destruct (printable t); [reflexivity |].
    specialize (Hu eq_refl). discriminate Hu.
  - destruct (printable t) eqn:Ht; simpl.
    + split.
      * right. left. split; [reflexivity |]. split; [reflexivity |]. eauto.
      * rewrite attempts_made_app. unfold attempts_made at 2. simpl. lia.
    + split; [| exact Hle]. right. right.
      specialize (Hu eq_refl). injection Hu as <- ->. auto.
Qed.

(** ** Retry exhaustion *)

(** X25. Let a timestamp that can be printed sit anywhere in the list
    that reaches the loop of [capture_screenshots], let the loop get to
    it, and let every pass of the retry loop for it fail.  Then exactly
    [max_retries] passes are made for it, the failure message is
    printed, no image is appended for it, and the loop goes on with the
    timestamps after it from the file system the passes left: the call
    is the loop on the timestamps before, these passes, and the loop on
    the timestamps after.  None of the images returned is under the
    failed timestamp's file name; and the call returns if the timestamps
    after it can be printed too. *)
Theorem retry_exhaustion_continues (w : CaptureWorld) (timestamps : list Q)
    (output_dir : string) (max_retries : nat) (before after : list Q) (t : Q)
    (fs fs_b : gmap string File) (imgs_b : list string) (ev_b : list Event) :
  let dir := abs_output_dir w output_dir in
  let valid := before ++ t :: after in
  let i := S (length before) in
  let n := length valid in
  let r := capture_screenshots w timestamps output_dir max_retries fs in
  reaching (probe w) timestamps = Some valid ->
  capture_loop (attempts w) dir n max_retries 1 before fs =
    (Returns imgs_b, fs_b, ev_b) ->
  printable t = true ->
  every_attempt_fails (attempts w i) i n t (image_path dir (i, t))
    max_retries (seq 0 max_retries) fs_b = true ->
  exists (fs1 : gmap string File) (ev1 ev0 : list Event),
    capture_one (attempts w i) dir i n t max_retries fs_b =
      (Returns [], fs1, ev1 ++ [FailedCapture t max_retries]) /\
    attempts_made i ev1 = max_retries /\
    r = (let '(more, fs_a, ev_a) :=
           capture_loop (attempts w) dir n max_retries (S i) after fs1 in
         let ev := ev0 ++ ev_b ++ ev1 ++ FailedCapture t max_retries :: ev_a in
         match more with
         | Returns imgs_a =>
             (Returns (imgs_b ++ imgs_a), fs_a,
              ev ++ [Summary (length (imgs_b ++ imgs_a)) n])
         | Raises => (Raises, fs_a, ev)
         end) /\
    attempts_made i (snd r) = max_retries /\
    (forall images : list string,
        fst (fst r) = Returns images ->
        ~ In (image_path dir (i, t)) images) /\
    (forallb printable after = true ->
     exists images : list string, fst (fst r) = Returns images).
Proof.
  intros dir valid i n r Hreach Hb Ht Hf.
  destruct (capture_one_spec (attempts w i) dir i n t max_retries fs_b)
    as (_ & _ & H3).
  destruct (H3 Ht Hf) as (fs1 & ev1 & Hone & Hcount).
  pose proof (capture_screenshots_reaching w timestamps output_dir max_retries fs)
    as Hr.
  rewrite Hreach in Hr. destruct Hr as (ev0 & Hq0 & _ & Hr). fold dir r in Hr.
  pose proof (capture_loop_spec (attempts w) dir n max_retries 1 before fs)
    as Hbs.
  pose proof (capture_loop_spec (attempts w) dir n max_retries (S i) after fs1)
    as Has.
  pose proof (capture_loop_returns (attempts w) dir n max_retries (S i) after
                fs1) as Hret.
  rewrite Hb in Hbs. simpl in Hbs. destruct Hbs as (Qb & Sb).
  destruct (Sb imgs_b eq_refl) as (surv_b & Sb1 & Sb2 & _). clear Sb.
  assert (Hall : r =
            (let '(more, fs_a, ev_a) :=
               capture_loop (attempts w) dir n max_retries (S i) after fs1 in
             let ev := ev0 ++ ev_b ++ ev1 ++ FailedCapture t max_retries :: ev_a in
             match more with
             | Returns imgs_a =>
                 (Returns (imgs_b ++ imgs_a), fs_a,
                  ev ++ [Summary (length (imgs_b ++ imgs_a)) n])
             | Raises => (Raises, fs_a, ev)
             end)).
  { rewrite Hr. unfold capture_all. fold n. unfold valid.
    rewrite capture_loop_app, Hb. simpl.
    change (S (length before)) with i. rewrite Hone.
    destruct (capture_loop (attempts w) dir n max_retries (S i) after fs1)
      as [[[imgs_a |] fs_a] ev_a]; simpl;
      rewrite <- ?app_assoc; simpl; reflexivity. }
  exists fs1, ev1, ev0.
  split; [exact Hone |]. split; [exact Hcount |]. split; [exact Hall |].
  rewrite Hall.
  destruct (capture_loop (attempts w) dir n max_retries (S i) after fs1)
    as [[[imgs_a |] fs_a] ev_a]; simpl in *; destruct Has as (Qa & Sa).
  - destruct (Sa imgs_a eq_refl) as (surv_a & Sa1 & Sa2 & _).
    split; [| split].
    + rewrite !attempts_made_app, (attempts_made_quiet _ _ Hq0).
      change (FailedCapture t max_retries :: ev_a)
        with ([FailedCapture t max_retries] ++ ev_a).
      rewrite !attempts_made_app, Qb, Qa, Hcount by (unfold i; lia).
      unfold attempts_made. simpl. lia.
    + intros images [= <-].
      rewrite Sb2, Sa2, <- List.map_app, in_map_iff.
      intros ([j u] & Heq & Hin).
      apply image_path_inj in Heq as [-> _].
      apply in_app_or in Hin as [Hin | Hin].
      * apply (sublist_In _ _ _ Sb1), enumerate_range in Hin.
        unfold i in Hin. lia.
      * apply (sublist_In _ _ _ Sa1), enumerate_range in Hin. lia.
    + eauto.
  - split; [| split].
    + rewrite !attempts_made_app, (attempts_made_quiet _ _ Hq0).
      change (FailedCapture t max_retries :: ev_a)
        with ([FailedCapture t max_retries] ++ ev_a).
      rewrite !attempts_made_app, Qb, Qa, Hcount by (unfold i; lia).
      unfold attempts_made. simpl. lia.
    + discriminate.
    + intros Hp. apply Hret in Hp as [x Hx]. discriminate Hx.
Qed.

Lemma retry_exhaustion_continues_witness :
  let w := world_of local_probe second_fails in
  let r := capture_screenshots w [10; 60; 100]%Q DEFAULT_OUTPUT_DIR 3 ∅ in
  attempts_made 2 (snd r) = 3%nat /\
  exists images : list string, fst (fst r) = Returns images.
Proof.
  intros w r.
  pose (b := capture_loop (attempts w) "/work/high_res_screenshots" 3 3 1
               [10%Q] ∅).
  destruct (retry_exhaustion_continues w [10; 60; 100]%Q DEFAULT_OUTPUT_DIR 3
              [10%Q] [100%Q] 60 ∅ (snd (fst b))
              ["/work/high_res_screenshots/screenshot_001_10s.jpg"] (snd b))
    as (fs1 & ev1 & ev0 & _ & _ & _ & Hn & _ & Hret).
  - reflexivity.
  - vm_compute. reflexivity.
  - reflexivity.
  - vm_compute. reflexivity.
  - split; [exact Hn | apply Hret; reflexivity].
Defined.

(** ** Validation against a guessed duration *)

(** X13. When the frame-count branch of the probe is not taken and the
    decoder's position is not positive (a stream just opened), a request
    with a positive timestamp is validated against its own maximum plus
    60 seconds.  No timestamp is dropped for being too late:
    [capture_screenshots] runs the loop on the timestamps that are not
    negative; and when that duration cannot be printed, on the whole
    request, negative timestamps included. *)
Theorem guessed_duration_keeps_all (w : CaptureWorld) (timestamps : list Q)
    (output_dir : string) (max_retries : nat) (fs : gmap string File)
    (fps frame_count pos_msec : Q) :
  open_initial (probe w) = Returns true ->
  prop_fps (probe w) = Returns fps ->
  prop_frame_count (probe w) = Returns frame_count ->
  is_local_file (probe w) && num_lt 0 fps && (0 <? py_int frame_count) = false ->
  prop_pos_msec (probe w) = Returns pos_msec ->
  (pos_msec / 1000 <= 0)%Q ->
  (exists t : Q, In t timestamps /\ (0 < t)%Q) ->
  exists (m : Q) (before : list Event),
    In m timestamps /\
    (forall t : Q, In t timestamps -> (t <= m)%Q) /\
    probe_duration (probe w) timestamps = Returns (m + 60)%Q /\
    capture_screenshots w timestamps output_dir max_retries fs =
      (let '(images, fs', ev) :=
         capture_all w (abs_output_dir w output_dir) max_retries
           (if printable (m + 60)
            then List.filter (fun t => num_le 0 t) timestamps
            else timestamps) fs in
       (images, fs', before ++ ev)).
Proof.
  intros Ho Hfps Hfc Hguard Hpos Hle (t0 & Ht0 & Hpos0).
  assert (Hp : exists m : Q,
             In m timestamps /\ (forall t : Q, In t timestamps -> (t <= m)%Q) /\
             probe_duration (probe w) timestamps = Returns (m + 60)%Q).
  { unfold probe_duration. rewrite Hfps, Hfc. simpl.
    rewrite Hguard, Hpos. simpl.
    apply num_le_iff in Hle. rewrite Hle.
    destruct (py_max_nonempty timestamps) as [m Hm].
    { intros ->. destruct Ht0. }
    rewrite Hm. destruct (py_max_spec _ _ Hm) as [Hin Hmax].
    assert (Hmpos : (0 < m)%Q).
    { eapply Qlt_le_trans; [exact Hpos0 | now apply Hmax]. }
    apply num_lt_iff in Hmpos. rewrite Hmpos. exists m. auto. }
  destruct Hp as (m & Hin & Hmax & Hp).
  assert (Hvalid : valid_timestamps timestamps (m + 60) =
                     List.filter (fun t => num_le 0 t) timestamps).
  { unfold valid_timestamps. apply List.filter_ext_in. intros t Ht.
    assert (Hb : num_le t (m + 60) = true).
    { apply num_le_iff. apply Qle_trans with m; [now apply Hmax |].
      rewrite <- (Qplus_0_r m) at 1. apply Qplus_le_r. discriminate. }
    now rewrite Hb, andb_true_r. }
  assert (Hne : List.filter (fun t => num_le 0 t) timestamps <> []).
  { intros Hnil.
    assert (Hf : In t0 (List.filter (fun t => num_le 0 t) timestamps)).
    { apply filter_In. split; [exact Ht0 |].
      apply num_le_iff. now apply Qlt_le_weak. }
    rewrite Hnil in Hf. destruct Hf. }
  exists m.
  unfold capture_screenshots, check_duration. rewrite Ho, Hp.
  destruct (printable (m + 60)).
  - rewrite Hvalid.
    destruct (List.filter (fun t => num_le 0 t) timestamps) as [| u l] eqn:E;
      [congruence |].
    eexists (VideoDuration (m + 60) :: _).
    split; [exact Hin |]. split; [exact Hmax |]. split; [reflexivity |].
    reflexivity.
  - exists [DurationUnknown].
    split; [exact Hin |]. split; [exact Hmax |]. split; [reflexivity |].
    now destruct (capture_all _ _ _ _ _) as [[? ?] ?].
Qed.

Lemma guessed_duration_keeps_all_witness :
  exists (m : Q) (before : list Event),
    In m [10; 60; 130]%Q /\
    (forall t : Q, In t [10; 60; 130]%Q -> (t <= m)%Q) /\
    probe_duration stream_probe [10; 60; 130]%Q = Returns (m + 60)%Q /\
    capture_screenshots (world_of stream_probe (fun _ _ => ffmpeg_works))
      [10; 60; 130]%Q DEFAULT_OUTPUT_DIR DEFAULT_MAX_RETRIES ∅ =
      (let '(images, fs', ev) :=
         capture_all (world_of stream_probe (fun _ _ => ffmpeg_works))
           (abs_output_dir (world_of stream_probe (fun _ _ => ffmpeg_works))
              DEFAULT_OUTPUT_DIR)
           DEFAULT_MAX_RETRIES
           (if printable (m + 60)
            then List.filter (fun t => num_le 0 t) [10; 60; 130]%Q
            else [10; 60; 130]%Q) ∅ in
       (images, fs', before ++ ev)).
Proof.
  apply (guessed_duration_keeps_all
           (world_of stream_probe (fun _ _ => ffmpeg_works))
           [10; 60; 130]%Q DEFAULT_OUTPUT_DIR DEFAULT_MAX_RETRIES ∅ 0 0 0);
    try reflexivity.
  - discriminate.
  - exists 10%Q. split; [now left | reflexivity].
Defined.

(** ** The GUI worker *)

Lemma single_capture_images (w : CaptureWorld) (t : Q) (fs : gmap string File)
    (images : list string) :
  fst (fst (capture_screenshots w [t] DEFAULT_OUTPUT_DIR
              DEFAULT_MAX_RETRIES fs)) = Returns images ->
  images = [] \/
  images = [image_path (abs_output_dir w DEFAULT_OUTPUT_DIR) (1%nat, t)].
Proof.
  intros Himgs.
  destruct (capture_screenshots_survivors w [t] DEFAULT_OUTPUT_DIR
              DEFAULT_MAX_RETRIES fs images Himgs)
    as (valid & survivors & Hr & Hs & -> & _).
  assert (Hreach : valid = [] \/ valid = [t]).
  { pose proof (sublist_length _ _ Hr) as Hlen.
    destruct valid as [| u [| v valid]]; simpl in Hlen; [now left | | lia].
    right. f_equal. assert (Hin : In u [t]) by
      (apply (sublist_In _ _ _ Hr); now left).
    destruct Hin as [-> | []]. reflexivity. }
  destruct Hreach as [-> | ->]; simpl in Hs.
  - apply sublist_nil_r in Hs as ->. now left.
  - pose proof (sublist_length _ _ Hs) as Hlen.
    destruct survivors as [| it [| it' survivors]]; simpl in Hlen;
      [now left | | lia].
    right. assert (Hin : In it [(1%nat, t)]) by
      (apply (sublist_In _ _ _ Hs); now left).
    destruct Hin as [<- | []]. reflexivity.
Qed.

(** The images the worker collects, one call after the other. *)
Lemma worker_capture_images (cws : nat -> CaptureWorld) (s : nat)
    (timestamps : list Q) (fs : gmap string File) (images : list string) :
  fst (fst (worker_capture cws s timestamps fs)) = Returns images ->
  (forall p : string,
      In p images ->
      exists (k : nat) (t : Q),
        (s <= k < s + length timestamps)%nat /\ In t timestamps /\
        p = path_join (abs_output_dir (cws k) DEFAULT_OUTPUT_DIR)
              (screenshot_name 1 t)) /\
  (length images <= length timestamps)%nat.
Proof.
  revert s fs images.
  induction timestamps as [| t rest IH]; intros s fs images; simpl.
  - intros [= <-]. split; [intros p [] | simpl; lia].
  - pose proof (single_capture_images (cws s) t fs) as Hone.
    destruct (capture_screenshots (cws s) [t] DEFAULT_OUTPUT_DIR
                DEFAULT_MAX_RETRIES fs) as [[[single |] fs'] ev];
      [| discriminate].
    destruct (printable t); [| discriminate].
    specialize (IH (S s) fs').
    destruct (worker_capture cws (S s) rest fs') as [[[imgs |] fs''] ev'];
      [| discriminate].
    simpl in *. intros [= <-].
    destruct (IH imgs eq_refl) as [IH1 IH2].
    specialize (Hone single eq_refl). split.
    + intros p Hp. apply in_app_or in Hp as [Hp | Hp].
      * destruct Hone as [-> | ->]; [destruct Hp |].
        destruct Hp as [<- | []]. exists s, t.
        split; [lia |]. split; [now left | reflexivity].
      * destruct (IH1 p Hp) as (k & u & Hk & Hu & ->). exists k, u.
        split; [lia |]. split; [now right | reflexivity].
    + rewrite length_app. destruct Hone as [-> | ->]; simpl; lia.
Qed.

(** X14. In the GUI worker every image is stored under sequence index
    1: each returned path is the path of index 1 for one of the
    timestamps, there is at most one path per timestamp, and the path is
    the same for any two timestamps with the same integer part captured
    from the same directory. *)
Theorem worker_names_all_index_one (cws : nat -> CaptureWorld) (s : nat)
    (timestamps : list Q) (fs : gmap string File) (images : list string) :
  fst (fst (worker_capture cws s timestamps fs)) = Returns images ->
  (forall p : string,
      In p images ->
      exists (k : nat) (t : Q),
        (s <= k < s + length timestamps)%nat /\ In t timestamps /\
        p = path_join (abs_output_dir (cws k) DEFAULT_OUTPUT_DIR)
              (screenshot_name 1 t)) /\
  (length images <= length timestamps)%nat /\
  (forall (output_dir : string) (t u : Q),
      py_int t = py_int u ->
      path_join output_dir (screenshot_name 1 t) =
        path_join output_dir (screenshot_name 1 u)).
Proof.
  intros Himgs.
  destruct (worker_capture_images cws s timestamps fs images Himgs) as [H1 H2].
  split; [exact H1 |]. split; [exact H2 |].
  intros output_dir t u Htu. f_equal.
  apply screenshot_name_eq_iff. auto.
Qed.

Lemma worker_names_all_index_one_witness :
  (length ["/work/high_res_screenshots/screenshot_001_10s.jpg";
           "/work/high_res_screenshots/screenshot_001_10s.jpg"]
     <= length [10.2; 10.7]%Q)%nat.
Proof.
  refine (proj1 (proj2 (worker_names_all_index_one (fun _ => all_captured) 1
                          [10.2; 10.7]%Q ∅
                          ["/work/high_res_screenshots/screenshot_001_10s.jpg";
                           "/work/high_res_screenshots/screenshot_001_10s.jpg"]
                          _))).
  vm_compute. reflexivity.
Defined.

(** ** More on [create_pdf] *)

Lemma add_images_missing (w : PdfWorld) (fs : gmap string File)
    (image_paths : list string) (img : string) :
  In img image_paths ->
  (forall size : N, fs !! img <> Some (ImageFile size)) ->
  add_images w fs image_paths = Raises.
Proof.
  induction image_paths as [| p rest IH]; simpl; [tauto |].
  intros [<- | Hin] Hmiss.
  - destruct (fs !! p) as [[size | pages] |]; try reflexivity.
    now destruct (Hmiss size).
  - destruct (fs !! p) as [[size | pages] |]; try reflexivity.
    destruct (image_ok w p); [| reflexivity].
    now rewrite (IH Hin Hmiss).
Qed.

Lemma add_images_present (w : PdfWorld) (fs : gmap string File)
    (image_paths : list string) (pages : list Page) :
  add_images w fs image_paths = Returns pages ->
  forall img : string, In img image_paths ->
    exists size : N, fs !! img = Some (ImageFile size).
Proof.
  revert pages. induction image_paths as [| p rest IH]; intros pages; simpl;
    [tauto |].
  destruct (fs !! p) as [[size | ?] |] eqn:E; try discriminate.
  destruct (image_ok w p); [| discriminate].
  destruct (add_images w fs rest) as [pages' |]; simpl; [| discriminate].
  intros _ img [<- | Hin]; [eauto | eapply IH; eauto].
Qed.

Lemma build_document_fails (w : PdfWorld) (image_paths : list string)
    (video_title : list N) (fs : gmap string File) :
  add_images w fs image_paths = Raises ->
  build_document w image_paths video_title fs = Raises.
Proof.
  intros H. unfold build_document. destruct (make_dirs w) as [[] |]; simpl;
    [now rewrite H | reflexivity].
Qed.

(** X15. An image path that is not in the file system, or that holds
    something that is not an image, makes [create_pdf] fail before
    anything is written or deleted; and on the empty list with
    directories and output in order it writes a document of the title
    page alone and tries no [rmdir]. *)
Theorem create_pdf_edge_inputs (w : PdfWorld) (image_paths : list string)
    (video_title : list N) (output_pdf : string) (fs : gmap string File) :
  ((exists img : string,
       In img image_paths /\
       forall size : N, fs !! img <> Some (ImageFile size)) ->
   create_pdf w image_paths video_title output_pdf fs = (false, fs, [PdfError])) /\
  (make_dirs w = Returns tt -> output_ok w = true ->
   create_pdf w [] video_title output_pdf fs =
     (true,
      <[resolve_output w output_pdf :=
          PdfFile [TitlePage (title_lines (sanitize_title video_title)) 0]]> fs,
      [PdfCreated (resolve_output w output_pdf)])).
Proof.
  split.
  - intros (img & Hin & Hmiss). unfold create_pdf.
    now rewrite (build_document_fails _ _ _ _
                   (add_images_missing w fs image_paths img Hin Hmiss)).
  - intros Hd Ho. unfold create_pdf, build_document. rewrite Hd. simpl.
    rewrite Ho. reflexivity.
Qed.

(** X16. After a call of [create_pdf] that succeeded and was allowed to
    remove its first image, the same list cannot be assembled again:
    whatever the world, a second call fails and changes nothing. *)
Theorem create_pdf_consumes_images (w w' : PdfWorld) (img : string)
    (rest : list string) (video_title video_title' : list N)
    (output_pdf output_pdf' : string) (fs fs' : gmap string File)
    (ev : list Event) :
  create_pdf w (img :: rest) video_title output_pdf fs = (true, fs', ev) ->
  remove_ok w img = true ->
  create_pdf w' (img :: rest) video_title' output_pdf' fs' =
    (false, fs', [PdfError]).
Proof.
  unfold create_pdf at 1. intros Hc Hok.
  destruct (build_document w (img :: rest) video_title fs) as [pages |];
    [| discriminate].
  pose proof (remove_images_spec w (img :: rest)
                (<[resolve_output w output_pdf := PdfFile pages]> fs)) as Hr.
  destruct (remove_images w (img :: rest)
              (<[resolve_output w output_pdf := PdfFile pages]> fs))
    as [fs2 warnings]. simpl in Hr. injection Hc as <- _.
  destruct Hr as (_ & _ & H3 & _).
  assert (Hgone : fs2 !! img = None) by (apply H3; [now left | exact Hok]).
  unfold create_pdf.
  rewrite (build_document_fails _ _ _ _
             (add_images_missing w' fs2 (img :: rest) img (or_introl eq_refl)
                ltac:(intros size; rewrite Hgone; discriminate))).
  reflexivity.
Qed.

Lemma create_pdf_consumes_images_witness :
  let fs : gmap string File := <["/work/a.jpg" := ImageFile 10]> ∅ in
  let r := create_pdf (pdf_world true) ["/work/a.jpg"] sample_title "out.pdf" fs in
  create_pdf (pdf_world true) ["/work/a.jpg"] sample_title "out.pdf"
    (snd (fst r)) = (false, snd (fst r), [PdfError]).
Proof.
  intros fs r.
  apply (create_pdf_consumes_images (pdf_world true) (pdf_world true)
           "/work/a.jpg" [] sample_title sample_title "out.pdf" "out.pdf"
           fs (snd (fst r)) (snd r)).
  - reflexivity.
  - reflexivity.
Defined.

Lemma remove_images_clean (w : PdfWorld) (image_paths : list string)
    (fs : gmap string File) :
  NoDup image_paths ->
  (forall img : string, In img image_paths ->
     is_Some (fs !! img) /\ remove_ok w img = true) ->
  snd (remove_images w image_paths fs) = [].
Proof.
  intros Hnd. revert fs. induction Hnd as [| img rest Hnot Hnd IH];
    intros fs Hall; simpl; [reflexivity |].
  destruct (Hall img (or_introl eq_refl)) as [[f Hf] Hok].
  rewrite Hf, Hok. apply IH. intros p Hp.
  destruct (Hall p (or_intror Hp)) as [Hs Hr]. split; [| exact Hr].
  rewrite lookup_delete_ne; [exact Hs |].
  intros <-. apply Hnot. now apply list_elem_of_In.
Qed.

Lemma remove_images_warns (w : PdfWorld) (image_paths : list string)
    (fs : gmap string File) (img : string) :
  In img image_paths ->
  fs !! img = None \/ remove_ok w img = false ->
  In (DeleteWarning img) (snd (remove_images w image_paths fs)).
Proof.
  revert fs. induction image_paths as [| p rest IH]; intros fs; simpl;
    [tauto |].
  intros [-> | Hin] Hwhy.
  - destruct Hwhy as [Hnone | Hno].
    + rewrite Hnone. destruct (remove_images w rest fs). now left.
    + rewrite Hno. destruct (fs !! img);
        destruct (remove_images w rest fs); now left.
  - destruct (fs !! p) as [f |] eqn:Ep.
    + destruct (remove_ok w p) eqn:Eok.
      * apply IH; [exact Hin |].
        destruct Hwhy as [Hnone | Hno]; [left | now right].
        destruct (decide (p = img)) as [-> | Hne];
          [apply lookup_delete_eq | now rewrite lookup_delete_ne].
      * specialize (IH fs Hin Hwhy).
        destruct (remove_images w rest fs). now right.
    + specialize (IH fs Hin Hwhy).
      destruct (remove_images w rest fs). now right.
Qed.

(** X17. After a successful write the removal is silent exactly as far
    as the paths are distinct: with pairwise distinct image paths that
    may all be removed, no warning is printed; a path that occurs twice in
    the list always gets a deletion warning. *)
Theorem create_pdf_warnings (w : PdfWorld) (image_paths : list string)
    (video_title : list N) (output_pdf : string) (fs fs' : gmap string File)
    (ev : list Event) :
  create_pdf w image_paths video_title output_pdf fs = (true, fs', ev) ->
  (NoDup image_paths ->
   (forall img : string, In img image_paths -> remove_ok w img = true) ->
   forall img : string, ~ In (DeleteWarning img) ev) /\
  (forall (before after : list string) (img : string),
      image_paths = before ++ img :: after -> In img after ->
      In (DeleteWarning img) ev).
Proof.
  unfold create_pdf.
  destruct (build_document w image_paths video_title fs) as [pages |] eqn:Hb;
    [| discriminate].
  set (fs0 := <[resolve_output w output_pdf := PdfFile pages]> fs).
  assert (Hpresent : forall img, In img image_paths -> is_Some (fs0 !! img)).
  { unfold build_document in Hb. destruct (make_dirs w) as [[] |];
      simpl in Hb; [| discriminate].
    destruct (add_images w fs image_paths) as [pages' |] eqn:Ha;
      simpl in Hb; [| discriminate].
    intros img Hin.
    destruct (add_images_present _ _ _ _ Ha img Hin) as [size Hs].
    unfold fs0. destruct (decide (resolve_output w output_pdf = img)) as [-> | Hne].
    - rewrite lookup_insert_eq. eauto.
    - rewrite lookup_insert_ne by exact Hne. eauto. }
  pose proof (remove_images_clean w image_paths fs0) as Hclean.
  destruct (remove_images w image_paths fs0) as [fs2 warnings] eqn:Hr.
  intros [= <- <-]. split.
  - intros Hnd Hok img Hin. simpl in Hclean.
    rewrite Hclean in Hin by auto.
    simpl in Hin. destruct image_paths; simpl in Hin;
      intuition discriminate.
  - intros before after img -> Hin. apply in_or_app. left.
    assert (Hw : In (DeleteWarning img)
                   (snd (remove_images w (before ++ img :: after) fs0))).
    { clearbody fs0. clear - Hin. revert fs0.
      induction before as [| p before IH]; intros fs0; simpl.
      - destruct (fs0 !! img) as [f |] eqn:Ef.
        + destruct (remove_ok w img) eqn:Eok.
          * apply remove_images_warns; [exact Hin |]. left.
            apply lookup_delete_eq.
          * destruct (remove_images w after fs0). now left.
        + destruct (remove_images w after fs0). now left.
      - destruct (fs0 !! p); [destruct (remove_ok w p) |].
        + apply IH.
        + specialize (IH fs0).
          destruct (remove_images w (before ++ img :: after) fs0). now right.
        + specialize (IH fs0).
          destruct (remove_images w (before ++ img :: after) fs0). now right. }
    now rewrite Hr in Hw.
Qed.

Lemma create_pdf_warnings_witness :
  let fs : gmap string File := <["/work/a.jpg" := ImageFile 10]> ∅ in
  In (DeleteWarning "/work/a.jpg")
     (snd (create_pdf (pdf_world true) ["/work/a.jpg"; "/work/a.jpg"]
             sample_title "out.pdf" fs)).
Proof.
  intros fs.
  pose (r := create_pdf (pdf_world true) ["/work/a.jpg"; "/work/a.jpg"]
               sample_title "out.pdf" fs).
  apply (proj2 (create_pdf_warnings (pdf_world true)
                  ["/work/a.jpg"; "/work/a.jpg"] sample_title "out.pdf" fs
                  (snd (fst r)) (snd r) eq_refl) [] ["/work/a.jpg"]).
  - reflexivity.
  - now left.
Defined.

(** ** Capture and assembly together *)

Lemma add_images_ok (w : PdfWorld) (fs : gmap string File)
    (image_paths : list string) :
  (forall img : string, In img image_paths ->
     exists size : N, fs !! img = Some (ImageFile size)) ->
  (forall img : string, image_ok w img = true) ->
  add_images w fs image_paths = Returns (List.map ImagePage image_paths).
Proof.
  intros Hall Hok. induction image_paths as [| p rest IH]; simpl;
    [reflexivity |].
  destruct (Hall p (or_introl eq_refl)) as [size ->]. rewrite Hok.
  rewrite IH by (intros img Hin; apply Hall; now right). reflexivity.
Qed.

(** X18. Capture and assembly fit together: when the file system holds
    no document at a returned path beforehand, FPDF can read images,
    and the directories and the output are in order, [create_pdf]
    succeeds on whatever non-empty list [capture_screenshots] returned.
    If removal is permitted as well, every returned image is gone
    afterwards and no warning is printed. *)
Theorem benign_assembly_succeeds (cw : CaptureWorld) (pw : PdfWorld)
    (timestamps : list Q) (video_title : list N) (output_pdf : string)
    (fs fs1 : gmap string File) (image_paths : list string)
    (ev1 : list Event) :
  capture_screenshots cw timestamps DEFAULT_OUTPUT_DIR DEFAULT_MAX_RETRIES fs =
    (Returns image_paths, fs1, ev1) ->
  image_paths <> [] ->
  (forall (q : string) (pages : list Page),
      In q image_paths -> fs !! q <> Some (PdfFile pages)) ->
  make_dirs pw = Returns tt ->
  (forall q : string, image_ok pw q = true) ->
  output_ok pw = true ->
  exists (fs2 : gmap string File) (ev2 : list Event),
    capture_and_assemble cw pw timestamps video_title output_pdf fs =
      (Returns (Some true), fs2, ev1 ++ ev2) /\
    ((forall q : string, remove_ok pw q = true) ->
     (forall q : string, In q image_paths -> fs2 !! q = None) /\
     forall q : string, ~ In (DeleteWarning q) ev2).
Proof.
  intros Hcap Hne Hnodoc Hdirs Himg Hout.
  pose proof (capture_screenshots_files cw timestamps DEFAULT_OUTPUT_DIR
                DEFAULT_MAX_RETRIES fs) as Hfiles.
  pose proof (capture_screenshots_NoDup cw timestamps DEFAULT_OUTPUT_DIR
                DEFAULT_MAX_RETRIES fs image_paths) as Hnd.
  rewrite Hcap in Hfiles, Hnd. simpl in Hfiles, Hnd.
  specialize (Hnd eq_refl).
  destruct Hfiles as (valid & _ & Hw & Hex).
  assert (Hpresent : forall img, In img image_paths ->
            exists size : N, fs1 !! img = Some (ImageFile size)).
  { intros img Hin. specialize (Hex image_paths img eq_refl Hin).
    destruct (Hw img) as [E | [_ Hs]]; [| exact Hs].
    unfold exists_nonempty in Hex. rewrite E in *.
    destruct (fs !! img) as [[size | pages] |] eqn:Ef; try discriminate;
      [eauto |]. now destruct (Hnodoc img pages Hin). }
  unfold capture_and_assemble. rewrite Hcap.
  destruct image_paths as [| img0 rest] eqn:Hl; [congruence |].
  rewrite <- Hl in *. clear Hl img0 rest.
  unfold create_pdf, build_document. rewrite Hdirs. simpl.
  rewrite (add_images_ok pw fs1 image_paths Hpresent Himg). simpl.
  rewrite Hout.
  set (pages := TitlePage (title_lines (sanitize_title video_title))
                          (length image_paths)
                  :: List.map ImagePage image_paths).
  set (fs0 := <[resolve_output pw output_pdf := PdfFile pages]> fs1).
  pose proof (remove_images_spec pw image_paths fs0) as Hspec.
  pose proof (remove_images_clean pw image_paths fs0 Hnd) as Hclean.
  destruct (remove_images pw image_paths fs0) as [fs2 warnings].
  simpl in Hspec, Hclean. eexists fs2, _. split; [reflexivity |].
  intros Hrm. destruct Hspec as (_ & _ & H3 & _). split.
  - intros q Hq. apply H3; auto.
  - intros q Hq. rewrite Hclean in Hq.
    + simpl in Hq. destruct image_paths; simpl in Hq; intuition discriminate.
    + intros img Hin. split; [| apply Hrm].
      destruct (Hpresent img Hin) as [size Hs]. unfold fs0.
      destruct (decide (resolve_output pw output_pdf = img)) as [-> | Hd].
      * rewrite lookup_insert_eq. eauto.
      * rewrite lookup_insert_ne by exact Hd. eauto.
Qed.

Lemma benign_assembly_succeeds_witness :
  exists (fs2 : gmap string File) (ev2 : list Event),
    capture_and_assemble all_captured (pdf_world true) [10; 60; 130]%Q
      sample_title "out.pdf" ∅ =
      (Returns (Some true), fs2,
       snd (capture_screenshots all_captured [10; 60; 130]%Q
              DEFAULT_OUTPUT_DIR DEFAULT_MAX_RETRIES ∅) ++ ev2).
Proof.
  pose (r := capture_screenshots all_captured [10; 60; 130]%Q
               DEFAULT_OUTPUT_DIR DEFAULT_MAX_RETRIES ∅).
  destruct (benign_assembly_succeeds all_captured (pdf_world true)
              [10; 60; 130]%Q sample_title "out.pdf" ∅
              (snd (fst r))
              ["/work/high_res_screenshots/screenshot_001_10s.jpg";
               "/work/high_res_screenshots/screenshot_002_60s.jpg"]
              (snd r))
    as (fs2 & ev2 & H & _).
  - vm_compute. reflexivity.
  - discriminate.
  - intros q pages _. rewrite lookup_empty. discriminate.
  - reflexivity.
  - reflexivity.
  - reflexivity.
  - exists fs2, ev2. exact H.
Defined.

(** ** Interval mode at the edges *)

Lemma py_int_negative (x : Q) : (x <= -1)%Q -> py_int x <= -1.
Proof.
  destruct x as [n d]. unfold py_int, Qle. simpl. intros H.
  assert (Hq : 1 <= Z.quot (- n) (Z.pos d)).
  { rewrite Z.quot_div_nonneg by lia. apply Z.div_le_lower_bound; lia. }
  rewrite Z.quot_opp_l in Hq by lia. lia.
Qed.

(** X19. In interval mode a positive interval and a non-negative
    duration give [int(duration) // interval + 1] timestamps, the last
    of which is less than one interval before the end; a duration of -1
    or less gives none; a negative interval with a non-negative duration
    gives none; and the interval 0 raises. *)
Theorem interval_timestamps_count (duration : Q) (interval : Z) :
  (interval = 0 -> generate_interval_timestamps duration interval = None) /\
  (interval < 0 -> (0 <= duration)%Q ->
   generate_interval_timestamps duration interval = Some []) /\
  (0 < interval -> (duration <= -1)%Q ->
   generate_interval_timestamps duration interval = Some []) /\
  (0 < interval -> (0 <= duration)%Q ->
   exists l : list Z,
     generate_interval_timestamps duration interval = Some l /\
     length l = S (Z.to_nat (py_int duration / interval)) /\
     last l = Some (py_int duration / interval * interval) /\
     (duration - inject_Z interval
        < inject_Z (py_int duration / interval * interval))%Q).
Proof.
  unfold generate_interval_timestamps, py_range, range_len.
  split; [| split; [| split]].
  - intros ->. reflexivity.
  - intros Hi Hd.
    assert (Hm : 0 <= py_int duration).
    { rewrite py_int_floor by exact Hd. now apply le_floor_iff. }
    destruct (Z.eqb_spec interval 0); [lia |].
    destruct (Z.ltb_spec 0 interval); [lia |].
    destruct (Z.ltb_spec interval 0); [| lia].
    destruct (Z.ltb_spec (py_int duration + 1) 0); [lia | reflexivity].
  - intros Hi Hd. apply py_int_negative in Hd.
    destruct (Z.eqb_spec interval 0); [lia |].
    destruct (Z.ltb_spec 0 interval); [| lia].
    destruct (Z.ltb_spec 0 (py_int duration + 1)); [lia | reflexivity].
  - intros Hi Hd.
    assert (Hm : 0 <= py_int duration).
    { rewrite py_int_floor by exact Hd. now apply le_floor_iff. }
    destruct (Z.eqb_spec interval 0); [lia |].
    destruct (Z.ltb_spec 0 interval); [| lia].
    destruct (Z.ltb_spec 0 (py_int duration + 1)); [| lia].
    replace (py_int duration + 1 - 0 - 1) with (py_int duration) by lia.
    set (m := py_int duration) in *.
    assert (Hq : 0 <= m / interval) by (apply Z.div_pos; lia).
    replace (Z.to_nat (m / interval + 1)) with (S (Z.to_nat (m / interval)))
      by lia.
    eexists. split; [reflexivity |]. split; [| split].
    + now rewrite length_map, length_seq.
    + rewrite seq_S, List.map_app. simpl. rewrite last_snoc. f_equal. lia.
    + assert (Hlt : (duration < inject_Z (m + 1))%Q).
      { unfold m. rewrite py_int_floor by exact Hd. apply Qlt_floor. }
      assert (Hle : m + 1 <= m / interval * interval + interval).
      { pose proof (Z.mod_pos_bound m interval Hi).
        pose proof (Z.div_mod m interval). lia. }
      apply Qlt_le_trans with (inject_Z (m + 1) - inject_Z interval)%Q.
      * unfold Qminus. apply Qplus_lt_l. exact Hlt.
      * unfold Qminus. rewrite <- inject_Z_opp, <- inject_Z_plus, <- Zle_Qle.
        lia.
Qed.

(** ** Parsing a timestamp *)






Lemma split_on_nonempty (sep : ascii) (s : string) : split_on sep s <> [].
Proof.
  induction s as [| c s IH]; simpl; [discriminate |].
  destruct (Ascii.eqb c sep); [discriminate |].
  now destruct (split_on sep s).
Qed.




Lemma length_split_on (sep : ascii) (s : string) :
  length (split_on sep s) = S (count_char sep s).
Proof.
  induction s as [| c s IH]; simpl; [reflexivity |].
  destruct (Ascii.eqb c sep); simpl; [now rewrite IH |].
  pose proof (split_on_nonempty sep s).
  destruct (split_on sep s); [congruence | exact IH].
Qed.



(** X21. Whatever [int] and [float] do, a string that is not plain
    seconds and has no colon, or has three or more colons, is rejected
    with [ValueError]; the empty string is one of them. *)
Theorem parse_timestamp_rejects (py_int_of : string -> Outcome Z)
    (py_float_of : string -> Outcome Q) (timestamp_str : string) :
  matches_seconds timestamp_str = false ->
  (count_char ":" timestamp_str = 0 \/ 3 <= count_char ":" timestamp_str)%nat ->
  parse_timestamp py_int_of py_float_of timestamp_str = Raises.
Proof.
  intros Hre Hcount. unfold parse_timestamp. rewrite Hre.
  pose proof (length_split_on ":" timestamp_str) as Hlen.
  destruct (split_on ":" timestamp_str) as [| a [| b [| c [| d parts]]]];
    simpl in Hlen; try reflexivity; lia.
Qed.

Lemma parse_timestamp_rejects_witness :
  parse_timestamp int_of_digits float_of_digits "" = Raises /\
  parse_timestamp int_of_digits float_of_digits "1:2:3:4" = Raises.
Proof.
  split.
  - apply parse_timestamp_rejects; [reflexivity | now left].
  - apply parse_timestamp_rejects; [reflexivity | right; simpl; lia].
Defined.

(** ** Waiting between retries *)

Lemma sleeps_app (ev ev' : list Event) :
  sleeps (ev ++ ev') = (sleeps ev + sleeps ev')%nat.
Proof. unfold sleeps. now rewrite List.filter_app, length_app. Qed.

Lemma sleeps_retry_wait (retry max_retries : nat) :
  (sleeps (retry_wait retry max_retries) <= 1)%nat.
Proof.
  unfold retry_wait. destruct (retry <? max_retries - 1)%nat; simpl;
    unfold sleeps; simpl; lia.
Qed.

Lemma sleeps_cons_other (e : Event) (ev : list Event) :
  is_sleep e = false -> sleeps (e :: ev) = sleeps ev.
Proof. intros H. unfold sleeps. simpl. now rewrite H. Qed.

Lemma decode_seek_sleeps (d : DecodeOutcome) (t : Q) (p : string)
    (retry max_retries : nat) (fs : gmap string File) :
  let r := decode_seek d t p retry max_retries fs in
  (sleeps (snd r) <= 1)%nat /\ (fst (fst r) = true -> sleeps (snd r) = 0%nat).
Proof.
  pose proof (sleeps_retry_wait retry max_retries) as Hw.
  unfold decode_seek. destruct d as [| | fps ret written]; simpl.
  - split; [| discriminate]. now rewrite sleeps_cons_other.
  - split; [unfold sleeps; simpl; lia | discriminate].
  - destruct (float_mul t fps) as [product |]; simpl;
      [| split; [now rewrite sleeps_cons_other | discriminate]].
    destruct ret; simpl;
      [| split; [now rewrite sleeps_cons_other | discriminate]].
    destruct (exists_nonempty (write_image p written fs) p); simpl.
    + split; [unfold sleeps; simpl; lia | reflexivity].
    + split; [| discriminate]. now rewrite !sleeps_cons_other.
Qed.

Lemma attempt_sleeps (a : Attempt) (i n : nat) (t : Q) (p : string)
    (retry max_retries : nat) (fs : gmap string File) :
  let r := attempt a i n t p retry max_retries fs in
  (sleeps (snd r) <= 1)%nat /\ (fst (fst r) = true -> sleeps (snd r) = 0%nat).
Proof.
  pose proof (sleeps_retry_wait retry max_retries) as Hw.
  unfold attempt.
  destruct (printable t);
    [| simpl; split; [now rewrite sleeps_cons_other | discriminate]].
  rewrite prepend_fst, prepend_snd, sleeps_app.
  change (sleeps [Capturing i n t]) with 0%nat. simpl.
  destruct (ffmpeg a) as [| rc written | written |].
  - apply decode_seek_sleeps.
  - destruct ((rc =? 0) && exists_nonempty (write_image p written fs) p).
    + simpl. split; [unfold sleeps; simpl; lia | reflexivity].
    + rewrite prepend_fst, prepend_snd, sleeps_app.
      change (sleeps [RunFfmpeg t p]) with 0%nat. apply decode_seek_sleeps.
  - rewrite prepend_fst, prepend_snd, sleeps_app.
    change (sleeps [RunFfmpeg t p; FfmpegError]) with 0%nat.
    apply decode_seek_sleeps.
  - simpl. split; [| discriminate]. now rewrite sleeps_cons_other.
Qed.

Lemma retry_loop_sleeps (att : nat -> Attempt) (i n : nat) (t : Q) (p : string)
    (max_retries : nat) (retries : list nat) (fs : gmap string File) :
  let r := retry_loop att i n t p max_retries retries fs in
  (sleeps (snd r) <= length retries)%nat /\
  (printable t = true -> (sleeps (snd r) <= attempts_made i (snd r))%nat) /\
  (fst (fst r) = true -> (sleeps (snd r) < attempts_made i (snd r))%nat).
Proof.
  revert fs. induction retries as [| retry rest IH]; intros fs; simpl.
  - split; [reflexivity |]. split; [reflexivity | discriminate].
  - pose proof (attempt_sleeps (att retry) i n t p retry max_retries fs) as Hs.
    pose proof (attempt_attempts_made (att retry) i n t p retry max_retries
                  fs i) as Ha.
    pose proof (attempt_success_printable (att retry) i n t p retry
                  max_retries fs) as Hp.
    rewrite Nat.eqb_refl, andb_true_r in Ha.
    destruct (attempt (att retry) i n t p retry max_retries fs)
      as [[ok fs'] ev]. simpl in Hs, Ha, Hp. destruct Hs as [Hs1 Hs2].
    destruct ok; simpl.
    + rewrite Ha, (Hs2 eq_refl), (Hp eq_refl). repeat split; lia.
    + rewrite prepend_fst, prepend_snd, sleeps_app, attempts_made_app, Ha.
      destruct (IH fs') as (I1 & I2 & I3). split; [lia |]. split.
      * intros Ht. rewrite Ht. specialize (I2 Ht). lia.
      * intros H. specialize (I3 H). destruct (printable t) eqn:Ht; [lia |].
        rewrite (retry_loop_unprintable att i n t p max_retries rest fs' Ht)
          in H.
        discriminate H.
Qed.

Lemma sleeps_unprintable (max_retries a k : nat) :
  sleeps (flat_map (fun retry => CaptureError (retry + 1) max_retries
                                   :: retry_wait retry max_retries)
                   (seq a k)) =
    (Nat.min (a + k) (max_retries - 1) - Nat.min a (max_retries - 1))%nat.
Proof.
  revert a. induction k as [| k IH]; intros a; simpl.
  - change (sleeps []) with 0%nat. lia.
  - rewrite sleeps_cons_other by reflexivity. rewrite sleeps_app, IH.
    unfold retry_wait. destruct (a <? max_retries - 1)%nat eqn:E.
    + change (sleeps [Retrying (a + 1) max_retries; Sleep 1]) with 1%nat.
      apply Nat.ltb_lt in E. lia.
    + change (sleeps []) with 0%nat. apply Nat.ltb_ge in E. lia.
Qed.

(** X22. For one timestamp the loop sleeps at most once per pass, so at
    most [max_retries] times; for a timestamp that can be printed the
    sleeps are at most as many as the [Capturing] messages; for one that
    cannot, all [max_retries] passes fail and it sleeps between them,
    [max_retries - 1] times; and when it returns the image it has slept
    fewer times than it made passes: never after the pass that
    succeeded. *)
Theorem capture_one_sleeps (att : nat -> Attempt) (output_dir : string)
    (i n : nat) (t : Q) (max_retries : nat) (fs : gmap string File) :
  let r := capture_one att output_dir i n t max_retries fs in
  (sleeps (snd r) <= max_retries)%nat /\
  (attempts_made i (snd r) <= max_retries)%nat /\
  (printable t = true -> (sleeps (snd r) <= attempts_made i (snd r))%nat) /\
  (printable t = false -> sleeps (snd r) = (max_retries - 1)%nat) /\
  (forall imgs : list string,
      fst (fst r) = Returns imgs -> imgs <> [] ->
      (sleeps (snd r) < attempts_made i (snd r))%nat).
Proof.
  unfold capture_one. simpl.
  set (p := path_join output_dir (screenshot_name i t)).
  pose proof (retry_loop_sleeps att i n t p max_retries (seq 0 max_retries) fs)
    as Hs.
  pose proof (retry_loop_unprintable_trace att i n t p max_retries
                (seq 0 max_retries) fs) as Hu.
  destruct (retry_loop_attempts att i n t p max_retries (seq 0 max_retries)
              fs i) as (_ & Hle & _).
  rewrite length_seq in Hle, Hs.
  destruct (retry_loop att i n t p max_retries (seq 0 max_retries) fs)
    as [[ok fs'] ev]. simpl in Hs, Hle. destruct Hs as (Hs1 & Hs2 & Hs3).
  destruct ok; simpl.
  - split; [exact Hs1 |]. split; [exact Hle |]. split; [exact Hs2 |].
    split; [| intros imgs _ _; now apply Hs3].
    intros Ht. specialize (Hu Ht). discriminate Hu.
  - destruct (printable t); simpl.
    + rewrite sleeps_app, attempts_made_app.
      change (sleeps [FailedCapture t max_retries]) with 0%nat.
      change (attempts_made i [FailedCapture t max_retries]) with 0%nat.
      split; [lia |]. split; [lia |].
      split; [intros _; specialize (Hs2 eq_refl); lia |].
      split; [discriminate |]. intros imgs [= <-]. congruence.
    + split; [exact Hs1 |]. split; [exact Hle |]. split; [discriminate |].
      split; [| discriminate].
      intros _. specialize (Hu eq_refl). injection Hu as _ ->.
      rewrite sleeps_unprintable. simpl. lia.
Qed.

(** ** Degenerate requests *)

Lemma retry_loop_nil (att : nat -> Attempt) (i n : nat) (t : Q) (p : string)
    (fs : gmap string File) :
  retry_loop att i n t p 0 [] fs = (false, fs, []).
Proof. reflexivity. Qed.

Lemma capture_loop_no_retries (att : nat -> nat -> Attempt)
    (output_dir : string) (n s : nat) (ts : list Q) (fs : gmap string File) :
  let r := capture_loop att output_dir n 0 s ts fs in
  snd (fst r) = fs /\ (fst (fst r) = Returns [] \/ fst (fst r) = Raises).
Proof.
  revert s. induction ts as [| t ts IH]; intros s; simpl; [auto |].
  unfold capture_one. simpl. destruct (printable t); simpl; [| auto].
  specialize (IH (S s)).
  destruct (capture_loop att output_dir n 0 (S s) ts fs) as [[more fs'] ev].
  simpl in *. destruct IH as [-> [-> | ->]]; auto.
Qed.

Lemma forallb_sublist {A : Type} (P : A -> bool) (l k : list A) :
  l `sublist_of` k -> forallb P k = true -> forallb P l = true.
Proof.
  rewrite !forallb_forall. intros Hsub H x Hx. apply H.
  eapply sublist_In; eauto.
Qed.

(** X23. An empty request, and a call with [max_retries] 0, leave every
    file as it was and produce no image: the call returns the empty
    list, unless it raises; and it raises for no request whose
    timestamps can all be printed, so for no empty one. *)
Theorem capture_nothing_to_do (w : CaptureWorld) (timestamps : list Q)
    (output_dir : string) (max_retries : nat) (fs : gmap string File) :
  timestamps = [] \/ max_retries = 0%nat ->
  let r := capture_screenshots w timestamps output_dir max_retries fs in
  snd (fst r) = fs /\
  (fst (fst r) = Returns [] \/ fst (fst r) = Raises) /\
  (forallb printable timestamps = true -> fst (fst r) = Returns []).
Proof.
  intros Hwhy r. subst r.
  pose proof (capture_screenshots_reaching w timestamps output_dir max_retries fs)
    as Hr.
  pose proof (reaching_sublist (probe w) timestamps) as Hsub.
  destruct (reaching (probe w) timestamps) as [valid |];
    [| rewrite Hr; simpl; auto].
  destruct Hr as (before & _ & _ & ->). specialize (Hsub valid eq_refl).
  assert (Hloop :
    let l := capture_loop (attempts w) (abs_output_dir w output_dir)
               (length valid) max_retries 1 valid fs in
    snd (fst l) = fs /\ (fst (fst l) = Returns [] \/ fst (fst l) = Raises)).
  { destruct Hwhy as [-> | ->]; [| apply capture_loop_no_retries].
    apply sublist_nil_r in Hsub as ->. simpl. auto. }
  pose proof (capture_loop_returns (attempts w) (abs_output_dir w output_dir)
                (length valid) max_retries 1 valid fs) as Hret.
  unfold capture_all.
  destruct (capture_loop _ _ _ _ _ valid fs) as [[[imgs |] fs'] ev];
    simpl in *; destruct Hloop as [-> Hl].
  - destruct Hl as [[= ->] | [=]]. auto.
  - split; [reflexivity |]. split; [now right |].
    intros Hall. apply (forallb_sublist _ _ _ Hsub) in Hall.
    apply Hret in Hall as [x Hx]. discriminate Hx.
Qed.

Lemma capture_nothing_to_do_witness :
  fst (fst (capture_screenshots all_captured [10; 60]%Q DEFAULT_OUTPUT_DIR 0 ∅))
    = Returns [].
Proof.
  apply (capture_nothing_to_do all_captured [10; 60]%Q DEFAULT_OUTPUT_DIR 0 ∅).
  - now right.
  - reflexivity.
Defined.

(** ** Where the images go *)

Lemma isabs_append (a b : string) : isabs a = true -> isabs (a +:+ b) = true.
Proof. destruct a as [| c a]; [discriminate |]. now simpl_append. Qed.

Lemma isabs_path_join (a b : string) :
  isabs a = true -> isabs (path_join a b) = true.
Proof.
  intros Ha. unfold path_join. destruct (isabs b) eqn:Eb; [exact Eb |].
  destruct ((String.length a =? 0)%nat || ends_with_slash a);
    now apply isabs_append.
Qed.

Lemma isabs_abs_output_dir (w : CaptureWorld) (output_dir : string) :
  isabs (cwd w) = true -> isabs (abs_output_dir w output_dir) = true.
Proof.
  intros Hc. unfold abs_output_dir.
  destruct (isabs output_dir) eqn:E; [exact E | now apply isabs_path_join].
Qed.

(** X24. With an absolute current directory every path
    [capture_screenshots] returns is absolute: it is a screenshot name
    directly inside the output directory, which is the given one when
    that is absolute and lies under the current directory otherwise. *)
Theorem captured_paths_absolute (w : CaptureWorld) (timestamps : list Q)
    (output_dir : string) (max_retries : nat) (fs : gmap string File)
    (images : list string) (p : string) :
  isabs (cwd w) = true ->
  fst (fst (capture_screenshots w timestamps output_dir max_retries fs)) =
    Returns images ->
  In p images ->
  isabs p = true /\
  (exists (i : nat) (t : Q),
      In t timestamps /\
      p = path_join (abs_output_dir w output_dir) (screenshot_name i t)) /\
  (isabs output_dir = true -> abs_output_dir w output_dir = output_dir) /\
  (isabs output_dir = false ->
   abs_output_dir w output_dir = path_join (cwd w) output_dir).
Proof.
  intros Hc Himgs Hp.
  destruct (capture_screenshots_survivors w timestamps output_dir max_retries fs
              images Himgs) as (valid & survivors & Hr & Hs & Hi & _).
  rewrite Hi in Hp. apply in_map_iff in Hp as ([i t] & <- & Hit).
  apply (sublist_In _ _ _ Hs) in Hit. apply enumerate_In_snd in Hit.
  apply (sublist_In _ _ _ Hr) in Hit. simpl in Hit.
  split; [| split; [| split]].
  - apply isabs_path_join, isabs_abs_output_dir, Hc.
  - exists i, t. split; [exact Hit | reflexivity].
  - intros H. unfold abs_output_dir. now rewrite H.
  - intros H. unfold abs_output_dir. now rewrite H.
Qed.

Lemma captured_paths_absolute_witness :
  isabs "/work/high_res_screenshots/screenshot_002_60s.jpg" = true.
Proof.
  apply (captured_paths_absolute all_captured [10; 60; 130]%Q
           DEFAULT_OUTPUT_DIR DEFAULT_MAX_RETRIES ∅
           ["/work/high_res_screenshots/screenshot_001_10s.jpg";
            "/work/high_res_screenshots/screenshot_002_60s.jpg"]
           "/work/high_res_screenshots/screenshot_002_60s.jpg").
  - reflexivity.
  - vm_compute. reflexivity.
  - right. now left.
Defined.

(** ** Frame indices *)

Lemma round_half_even_integer (q : Q) (n : Z) :
  (q == inject_Z n)%Q -> round_half_even q = n.
Proof.
  unfold Qeq, round_half_even. simpl. rewrite Z.mul_1_r. intros ->.
  rewrite Z.div_mul, Z.mod_mul by lia. simpl. reflexivity.
Qed.

Lemma pow2_nonpos (e : Z) :
  e <= 0 -> (pow2 e == / inject_Z (2 ^ (- e)))%Q.
Proof.
  intros He. unfold pow2. destruct (Z.leb_spec 0 e); [| reflexivity].
  assert (e = 0) as -> by lia. reflexivity.
Qed.

Lemma Qred_inject_Z (z : Z) : Qred (inject_Z z) = inject_Z z.
Proof.
  unfold Qred, inject_Z.
  pose proof (Z.ggcd_gcd z 1) as Hg.
  pose proof (Z.ggcd_correct_divisors z 1) as Hd.
  destruct (Z.ggcd z 1) as [g [aa bb]]. simpl in *.
  rewrite Z.gcd_1_r in Hg. subst g. destruct Hd as [Ha Hb].
  assert (aa = z) as -> by lia. assert (bb = 1) as -> by lia. reflexivity.
Qed.

Lemma b64_integer (z : Z) :
  Z.abs z < 2 ^ 53 -> b64 (inject_Z z) = Some (inject_Z z).
Proof.
  intros Hz. unfold b64.
  destruct (Qeq_bool (inject_Z z) 0) eqn:E0.
  - apply Qeq_bool_iff in E0. unfold Qeq in E0. simpl in E0.
    assert (z = 0) as -> by lia. reflexivity.
  - assert (Hnz : z <> 0).
    { intros ->. discriminate E0. }
    set (k := Z.log2 (Z.abs z)).
    assert (Hk : 0 <= k < 53).
    { split; [apply Z.log2_nonneg |]. apply Z.log2_lt_pow2; lia. }
    assert (Hpow : 2 ^ k <= Z.abs z) by (apply Z.log2_spec; lia).
    assert (Hlog : ilog2 (inject_Z z) = k).
    { unfold ilog2. change (Qnum (inject_Z z)) with z.
      change (Z.pos (Qden (inject_Z z))) with 1.
      change (Z.log2 1) with 0. rewrite Z.sub_0_r. fold k.
      assert (Hle : Qle_bool (pow2 k) (Qabs (inject_Z z)) = true).
      { apply Qle_bool_iff. unfold pow2.
        destruct (Z.leb_spec 0 k); [| lia].
        unfold Qle. simpl. lia. }
      now rewrite Hle. }
    rewrite Hlog.
    set (e := Z.max (k - 52) (-1074)).
    assert (He : e <= 0) by (unfold e; lia).
    set (p := 2 ^ (- e)).
    assert (Hp : 0 < p) by (apply Z.pow_pos_nonneg; lia).
    assert (Hinv : ~ (inject_Z p == 0)%Q).
    { unfold Qeq. simpl. lia. }
    assert (Hround : round_half_even (inject_Z z / pow2 e) = z * p).
    { apply round_half_even_integer. rewrite (pow2_nonpos e He). fold p.
      rewrite inject_Z_mult. field. exact Hinv. }
    rewrite Hround.
    assert (Hy : Qred (inject_Z (z * p) * pow2 e) = inject_Z z).
    { rewrite <- (Qred_inject_Z z). apply Qred_complete. rewrite (pow2_nonpos e He). fold p.
      rewrite inject_Z_mult. field. exact Hinv. }
    rewrite Hy.
    assert (Hfin : Qle_bool (pow2 1024) (Qabs (inject_Z z)) = false).
    { destruct (Qle_bool (pow2 1024) (Qabs (inject_Z z))) eqn:E;
        [| reflexivity].
      apply Qle_bool_iff in E. unfold pow2 in E.
      change (0 <=? 1024) with true in E. cbv iota in E.
      unfold Qle in E. cbn [Qnum Qden inject_Z Qabs] in E.
      rewrite !Z.mul_1_r in E.
      assert (2 ^ 53 < 2 ^ 1024) by (apply Z.pow_lt_mono_r; lia). lia. }
    now rewrite Hfin.
Qed.

Lemma float_mul_integers (a b : Z) :
  Z.abs a < 2 ^ 53 -> Z.abs b < 2 ^ 53 -> Z.abs (a * b) < 2 ^ 53 ->
  float_mul (inject_Z a) (inject_Z b) = Some (inject_Z (a * b)).
Proof.
  intros Ha Hb Hab. unfold float_mul.
  rewrite (b64_integer a Ha), (b64_integer b Hb).
  change (inject_Z a * inject_Z b)%Q with (inject_Z (a * b)).
  now apply b64_integer.
Qed.

(** X26. For a timestamp in whole seconds and a whole frame rate, both
    and their product below [2 ** 53] in magnitude, rounding to binary64
    changes nothing: the product is the exact one, and the OpenCV
    fallback with the decoder open seeks to frame [max(0, t * fps)]. *)
Theorem whole_seconds_seek_exact (t fps : Z) (ret : bool)
    (written : option N) (p : string) (retry max_retries : nat)
    (fs : gmap string File) :
  Z.abs t < 2 ^ 53 -> Z.abs fps < 2 ^ 53 -> Z.abs (t * fps) < 2 ^ 53 ->
  float_mul (inject_Z t) (inject_Z fps) = Some (inject_Z (t * fps)) /\
  In (Seek (Z.max 0 (t * fps)))
     (snd (decode_seek (DecodeOpened (inject_Z fps) ret written) (inject_Z t)
             p retry max_retries fs)).
Proof.
  intros Ht Hf Hp.
  pose proof (float_mul_integers t fps Ht Hf Hp) as Hm.
  split; [exact Hm |].
  unfold decode_seek. rewrite Hm, py_int_inject_Z.
  destruct ret; [destruct (exists_nonempty _ _) |]; simpl; auto.
Qed.

Lemma whole_seconds_seek_exact_witness :
  In (Seek 300)
     (snd (decode_seek (DecodeOpened 30 true (Some 1000%N)) 10
             "/work/shot.jpg" 0 3 ∅)).
Proof.
  apply (proj2 (whole_seconds_seek_exact 10 30 true (Some 1000%N)
                  "/work/shot.jpg" 0 3 ∅ eq_refl eq_refl eq_refl)).
Defined.
